(** * FP-pweb: the game, team, clue and response services over their store

    A shallow embedding of the server's service layer
    ([game.service.ts], the team, clue and response services) together
    with the part of the Prisma client the services call.  The first half
    of the file holds the definitions, the second half the properties. *)

From Stdlib Require Import ZArith String Ascii.
From stdpp Require Import base decidable option list strings sorting.

Local Open Scope string_scope.
Local Open Scope Z_scope.

(* ===================================================================== *)
(** * JavaScript values used by the services *)
(* ===================================================================== *)

Module Js.

(** A string is a sequence of code units; the model keeps the code units
    below 256.  [is_ws] is the part of ECMAScript's WhiteSpace and
    LineTerminator classes that lies in that range: TAB, LF, VT, FF, CR,
    SPACE and NO-BREAK SPACE. *)
Definition is_ws (c : ascii) : bool :=
  let n := N_of_ascii c in
  ((9 <=? n) && (n <=? 13) || (n =? 32) || (n =? 160))%N.

Fixpoint trimStart (s : string) : string :=
  match s with
  | EmptyString => EmptyString
  | String c r => if is_ws c then trimStart r else s
  end.

Fixpoint trimEnd (s : string) : string :=
  match s with
  | EmptyString => EmptyString
  | String c r =>
      match trimEnd r with
      | EmptyString => if is_ws c then EmptyString else String c EmptyString
      | r' => String c r'
      end
  end.

(** [String.prototype.trim] *)
Definition trim (s : string) : string := trimEnd (trimStart s).

(** [!s]: the empty string is the only falsy string. *)
Definition falsy (s : string) : bool := bool_decide (s = "").

End Js.

(* ===================================================================== *)
(** * The store: rows, tables and the client's operations *)
(* ===================================================================== *)

Module Prisma.

Inductive GameStatus := LOBBY | IN_PROGRESS | FINISHED.
Inductive ClueBoardState := AVAILABLE | PENDING | CORRECT | INCORRECT.
(** The services name [HOST] and [OPERATOR]; the enum is declared in the
    Prisma schema.  Modelled from the spec: the third role, [PLAYER],
    which the data model lists as implied. *)
Inductive UserRole := HOST | OPERATOR | PLAYER.

#[global] Instance GameStatus_eq_dec : EqDecision GameStatus.
Proof. solve_decision. Defined.
#[global] Instance ClueBoardState_eq_dec : EqDecision ClueBoardState.
Proof. solve_decision. Defined.
#[global] Instance UserRole_eq_dec : EqDecision UserRole.
Proof. solve_decision. Defined.

(** Rows carry the columns the services read or write.  An [Int] column
    is an integer: its width, like the foreign keys and the unique indexes,
    is fixed by the Prisma schema, which is not among the sources, and is
    left out.  Where a service returns a row with relations included, the
    model returns the row. *)
Record User := mkUser {
  user_id : string;
  user_role : UserRole }.

Record Game := mkGame {
  game_id : string;
  game_title : string;
  game_hostId : string;
  game_teamLimit : Z;
  game_status : GameStatus }.

Record Team := mkTeam {
  team_id : string;
  team_gameId : string;
  team_name : string;
  team_order : Z;
  team_score : Z }.

Record TeamMember := mkTeamMember {
  member_id : string;
  member_teamId : string;
  member_userId : string;
  member_isCaptain : bool }.

Record Round := mkRound {
  round_id : string;
  round_gameId : string;
  round_order : Z }.

Record Category := mkCategory {
  category_id : string;
  category_roundId : string }.

Record Clue := mkClue {
  clue_id : string;
  clue_categoryId : string;
  clue_value : Z }.

Record ClueState := mkClueState {
  cs_id : string;
  cs_clueId : string;
  cs_gameId : string;
  cs_state : ClueBoardState;
  cs_pickedByTeamId : option string;
  cs_resolvedById : option string }.

Record TeamResponse := mkTeamResponse {
  resp_id : string;
  resp_teamId : string;
  resp_clueId : string;
  resp_submittedById : string;
  resp_submittedAnswer : string;
  resp_isCorrect : option bool;
  resp_awardedValue : option Z;
  resp_validatedById : option string;
  resp_validatedAt : option Z }.

(** The database: one list of rows per table, in insertion order. *)
Record DB := mkDB {
  db_users : list User;
  db_games : list Game;
  db_teams : list Team;
  db_members : list TeamMember;
  db_rounds : list Round;
  db_categories : list Category;
  db_clues : list Clue;
  db_clueStates : list ClueState;
  db_responses : list TeamResponse }.

(** ** Promises over the store

    An [async] function is a computation on the database that ends in a
    value or in a thrown [Error]; what it wrote before throwing stays
    written. *)
Inductive result (A : Type) := Ok (a : A) | Err (msg : string).
Arguments Ok {A} a.
Arguments Err {A} msg.

Definition M (A : Type) : Type := DB -> result A * DB.

Definition ret {A} (a : A) : M A := fun db => (Ok a, db).
Definition throw {A} (msg : string) : M A := fun db => (Err msg, db).
Definition bind {A B} (m : M A) (k : A -> M B) : M B :=
  fun db =>
    match m db with
    | (Ok a, db') => k a db'
    | (Err e, db') => (Err e, db')
    end.
Definition gets {A} (f : DB -> A) : M A := fun db => (Ok (f db), db).
Definition modify (f : DB -> DB) : M unit := fun db => (Ok tt, f db).

(** [prisma.$transaction(async (tx) => body)]: the body's writes are
    kept when it returns and dropped when it throws. *)
Definition transaction {A} (body : M A) : M A :=
  fun db =>
    match body db with
    | (Ok a, db') => (Ok a, db')
    | (Err e, _) => (Err e, db)
    end.

(** [Promise.all] over writes that have all been issued: every one runs,
    and the first rejection, if any, is the outcome. *)
Fixpoint promise_all {A} (ps : list (M A)) : M (list A) :=
  fun db =>
    match ps with
    | [] => (Ok [], db)
    | p :: ps' =>
        let '(r, db1) := p db in
        let '(rs, db2) := promise_all ps' db1 in
        match r, rs with
        | Ok a, Ok l => (Ok (a :: l), db2)
        | Err e, _ => (Err e, db2)
        | Ok _, Err e => (Err e, db2)
        end
    end.

(** ** Model delegates ([prisma.game], [prisma.team], ...) *)
Record Model (R : Type) := mkModel {
  rows : DB -> list R;
  set_rows : list R -> DB -> DB;
  rid : R -> string;
  set_rid : string -> R -> R }.
Arguments rows {R} _ _.
Arguments set_rows {R} _ _ _.
Arguments rid {R} _ _.
Arguments set_rid {R} _ _ _.

Definition prisma_user : Model User :=
  mkModel User db_users
    (fun l db => mkDB l (db_games db) (db_teams db) (db_members db)
                   (db_rounds db) (db_categories db) (db_clues db)
                   (db_clueStates db) (db_responses db))
    user_id (fun i r => mkUser i (user_role r)).

Definition prisma_game : Model Game :=
  mkModel Game db_games
    (fun l db => mkDB (db_users db) l (db_teams db) (db_members db)
                   (db_rounds db) (db_categories db) (db_clues db)
                   (db_clueStates db) (db_responses db))
    game_id
    (fun i r => mkGame i (game_title r) (game_hostId r) (game_teamLimit r)
                  (game_status r)).

Definition prisma_team : Model Team :=
  mkModel Team db_teams
    (fun l db => mkDB (db_users db) (db_games db) l (db_members db)
                   (db_rounds db) (db_categories db) (db_clues db)
                   (db_clueStates db) (db_responses db))
    team_id
    (fun i r => mkTeam i (team_gameId r) (team_name r) (team_order r)
                  (team_score r)).

Definition prisma_teamMember : Model TeamMember :=
  mkModel TeamMember db_members
    (fun l db => mkDB (db_users db) (db_games db) (db_teams db) l
                   (db_rounds db) (db_categories db) (db_clues db)
                   (db_clueStates db) (db_responses db))
    member_id
    (fun i r => mkTeamMember i (member_teamId r) (member_userId r)
                  (member_isCaptain r)).

Definition prisma_round : Model Round :=
  mkModel Round db_rounds
    (fun l db => mkDB (db_users db) (db_games db) (db_teams db)
                   (db_members db) l (db_categories db) (db_clues db)
                   (db_clueStates db) (db_responses db))
    round_id (fun i r => mkRound i (round_gameId r) (round_order r)).

Definition prisma_category : Model Category :=
  mkModel Category db_categories
    (fun l db => mkDB (db_users db) (db_games db) (db_teams db)
                   (db_members db) (db_rounds db) l (db_clues db)
                   (db_clueStates db) (db_responses db))
    category_id (fun i r => mkCategory i (category_roundId r)).

Definition prisma_clue : Model Clue :=
  mkModel Clue db_clues
    (fun l db => mkDB (db_users db) (db_games db) (db_teams db)
                   (db_members db) (db_rounds db) (db_categories db) l
                   (db_clueStates db) (db_responses db))
    clue_id (fun i r => mkClue i (clue_categoryId r) (clue_value r)).

Definition prisma_clueState : Model ClueState :=
  mkModel ClueState db_clueStates
    (fun l db => mkDB (db_users db) (db_games db) (db_teams db)
                   (db_members db) (db_rounds db) (db_categories db)
                   (db_clues db) l (db_responses db))
    cs_id
    (fun i r => mkClueState i (cs_clueId r) (cs_gameId r) (cs_state r)
                  (cs_pickedByTeamId r) (cs_resolvedById r)).

Definition prisma_teamResponse : Model TeamResponse :=
  mkModel TeamResponse db_responses
    (fun l db => mkDB (db_users db) (db_games db) (db_teams db)
                   (db_members db) (db_rounds db) (db_categories db)
                   (db_clues db) (db_clueStates db) l)
    resp_id
    (fun i r => mkTeamResponse i (resp_teamId r) (resp_clueId r)
                  (resp_submittedById r) (resp_submittedAnswer r)
                  (resp_isCorrect r) (resp_awardedValue r)
                  (resp_validatedById r) (resp_validatedAt r)).

(** ** Queries on a list of rows *)
Section Rows.
Context {R : Type}.

(** [findFirst({ where })]: the first row, in table order, that matches. *)
Definition first_where (P : R -> Prop) `{!forall r, Decision (P r)}
    (t : list R) : option R :=
  snd <$> list_find P t.

(** [findMany({ where })] *)
Definition many_where (P : R -> Prop) `{!forall r, Decision (P r)}
    (t : list R) : list R :=
  filter P t.

Definition update_where (P : R -> Prop) `{!forall r, Decision (P r)}
    (f : R -> R) (t : list R) : list R :=
  (fun r => if decide (P r) then f r else r) <$> t.

Definition delete_where (P : R -> Prop) `{!forall r, Decision (P r)}
    (t : list R) : list R :=
  filter (fun r => ~ P r) t.
End Rows.

(** ** The client's calls, as promises *)
Section Client.
Context {R : Type} (m : Model R).

Definition findUnique (k : string) : M (option R) :=
  gets (fun db => first_where (fun r => rid m r = k) (rows m db)).

Definition findFirst (P : R -> Prop) `{!forall r, Decision (P r)}
    : M (option R) :=
  gets (fun db => first_where P (rows m db)).

Definition findMany (P : R -> Prop) `{!forall r, Decision (P r)}
    : M (list R) :=
  gets (fun db => many_where P (rows m db)).

(** [update({ where: { id }, data })] rejects when no row has the id.
    The column types are the schema's, which is not part of the sources:
    a number is a [Z] here, and the refusal of one that its column does
    not hold is left out.  Where a statement says that a write of a number
    goes through, it assumes the number to be an [int_column] one. *)
Definition update (k : string) (f : R -> R) : M R :=
  fun db =>
    match first_where (fun r => rid m r = k) (rows m db) with
    | Some r =>
        (Ok (f r),
         set_rows m (update_where (fun r => rid m r = k) f (rows m db)) db)
    | None => (Err "Record to update not found.", db)
    end.

(** [delete({ where: { id } })] rejects when no row has the id. *)
Definition delete (k : string) : M R :=
  fun db =>
    match first_where (fun r => rid m r = k) (rows m db) with
    | Some r =>
        (Ok r, set_rows m (delete_where (fun r => rid m r = k) (rows m db)) db)
    | None => (Err "Record to delete does not exist.", db)
    end.

(** [create({ data })]: the store gives the row its id.  The schema's
    id default is not part of the sources, so the generator is a
    parameter: it sees the ids in use in the table.  Nor are the schema's
    relations: the refusal of a row that refers to a row that is not there
    is left out, and a statement that a [create] goes through assumes the
    rows referred to, where the service has not looked them up itself. *)
Definition create (genId : list string -> string) (data : R) : M R :=
  fun db =>
    let r := set_rid m (genId (rid m <$> rows m db)) data in
    (Ok r, set_rows m (rows m db ++ [r]) db).
End Client.

(** A relation that the schema declares as required and the query
    includes: the related row is there, or the query fails. *)
Definition required {A} (what : string) (o : option A) : M A :=
  match o with
  | Some a => ret a
  | None => throw ("Inconsistent query result: Field " ++ what ++ " is required to return data, got null instead.")
  end.

End Prisma.

Export Prisma.

Declare Scope promise_scope.
Delimit Scope promise_scope with promise.
Notation "x <- c1 ;; c2" := (bind c1 (fun x => c2))
  (at level 100, c1 at next level, right associativity) : promise_scope.
Notation "c1 ;; c2" := (bind c1 (fun _ => c2))
  (at level 100, right associativity) : promise_scope.
Local Open Scope promise_scope.

(* ===================================================================== *)
(** * game.service.ts *)
(* ===================================================================== *)

Module GameService.

Record CreateGameInput := mkCreateGameInput {
  cg_hostId : string;
  cg_title : string;
  cg_teamLimit : option Z }.

Record UpdateGameSettingsInput := mkUpdateGameSettingsInput {
  ug_title : option string;
  ug_teamLimit : option Z }.

Definition ensureHostAccess (game : Game) (actorId : string) : M unit :=
  if decide (game_hostId game <> actorId)
  then throw "Only the host can perform this action"
  else ret tt.

Definition createGame (genId : list string -> string)
    (input : CreateGameInput) : M Game :=
  let hostId := cg_hostId input in
  let title := cg_title input in
  let teamLimit := default 4 (cg_teamLimit input) in
  if Js.falsy (Js.trim title) then throw "Game title is required"
  else
    create prisma_game genId
      (mkGame "" (Js.trim title) hostId teamLimit LOBBY).

Definition getGameById (gameId : string) : M Game :=
  game <- findUnique prisma_game gameId ;;
  match game with
  | None => throw "Game not found"
  | Some game => ret game
  end.

Definition updateGameSettings (gameId : string)
    (data : UpdateGameSettingsInput) (actorId : string) : M Game :=
  game <- findUnique prisma_game gameId ;;
  match game with
  | None => throw "Game not found"
  | Some game =>
      ensureHostAccess game actorId ;;
      if decide (game_status game <> LOBBY)
      then throw "Game settings are locked once the game starts"
      else
        let nextTitle :=
          default (game_title game) (Js.trim <$> ug_title data) in
        let nextTeamLimit :=
          default (game_teamLimit game) (ug_teamLimit data) in
        if nextTeamLimit <? 1
        then throw "Team limit must be at least 1"
        else
          update prisma_game gameId
            (fun g => mkGame (game_id g) nextTitle (game_hostId g)
                        nextTeamLimit (game_status g))
  end.

Definition set_status (s : GameStatus) (g : Game) : Game :=
  mkGame (game_id g) (game_title g) (game_hostId g) (game_teamLimit g) s.

Definition startGame (gameId actorId : string) : M Game :=
  game <- findUnique prisma_game gameId ;;
  match game with
  | None => throw "Game not found"
  | Some game =>
      teams <- findMany prisma_team (fun t => team_gameId t = gameId) ;;
      ensureHostAccess game actorId ;;
      if decide (game_status game <> LOBBY)
      then throw "Game has already started"
      else if decide (length teams = 0%nat)
      then throw "Add at least one team before starting the game"
      else update prisma_game gameId (set_status IN_PROGRESS)
  end.

Definition finishGame (gameId actorId : string) : M Game :=
  game <- findUnique prisma_game gameId ;;
  match game with
  | None => throw "Game not found"
  | Some game =>
      ensureHostAccess game actorId ;;
      if decide (game_status game <> IN_PROGRESS)
      then throw "Game must be in progress to finish"
      else update prisma_game gameId (set_status FINISHED)
  end.

(** [prisma.game.delete]: what the schema cascades to is not among the
    sources; the model removes the game row. *)
Definition deleteGame (gameId actorId : string) : M unit :=
  game <- findUnique prisma_game gameId ;;
  match game with
  | None => throw "Game not found"
  | Some game =>
      ensureHostAccess game actorId ;;
      delete prisma_game gameId ;;
      ret tt
  end.

End GameService.

(* ===================================================================== *)
(** * The team service *)
(* ===================================================================== *)

Module TeamService.

Record CreateTeamInput := mkCreateTeamInput {
  ct_gameId : string;
  ct_name : string;
  ct_actorId : string;
  ct_makeCaptain : option bool }.

Record JoinTeamInput := mkJoinTeamInput {
  jt_teamId : string;
  jt_userId : string;
  jt_isCaptain : option bool }.

Record AdjustScoreInput := mkAdjustScoreInput {
  as_teamId : string;
  as_delta : Z;
  as_actorId : string }.

Definition ensureLobbyGame (game : Game) : M unit :=
  if decide (game_status game <> LOBBY)
  then throw "Teams can only be managed while the game is in the lobby state"
  else ret tt.

Definition ensureHostOrOperator (user : User) (action : string) : M unit :=
  if decide (user_role user <> HOST /\ user_role user <> OPERATOR)
  then throw (action ++ " requires host or operator privileges")
  else ret tt.

(** [orderBy: { order: "asc" }] *)
Definition order_le (a b : Team) : Prop := team_order a <= team_order b.

#[global] Instance order_le_dec : RelDecision order_le.
Proof. intros a b; unfold order_le; apply _. Defined.

Definition by_order (ts : list Team) : list Team := merge_sort order_le ts.

Definition set_order (o : Z) (t : Team) : Team :=
  mkTeam (team_id t) (team_gameId t) (team_name t) o (team_score t).

(** [score: { increment: delta }] *)
Definition increment_score (delta : Z) (t : Team) : Team :=
  mkTeam (team_id t) (team_gameId t) (team_name t) (team_order t)
    (team_score t + delta).

(** The team row is created with the column default of [score]; the nested
    [members.create] adds the captain's membership in the same write. *)
Definition createTeam (genId : list string -> string)
    (input : CreateTeamInput) : M Team :=
  let gameId := ct_gameId input in
  let name := ct_name input in
  let actorId := ct_actorId input in
  let makeCaptain := default true (ct_makeCaptain input) in
  if Js.falsy (Js.trim name) then throw "Team name is required"
  else
    game <- findUnique prisma_game gameId ;;
    teams <- findMany prisma_team (fun t => team_gameId t = gameId) ;;
    actor <- findUnique prisma_user actorId ;;
    match game with
    | None => throw "Game not found"
    | Some game =>
        match actor with
        | None => throw "Actor not found"
        | Some _ =>
            ensureLobbyGame game ;;
            if Z.of_nat (length teams) >=? game_teamLimit game
            then throw "Team limit reached for this game"
            else
              let nextOrder := Z.of_nat (length teams) + 1 in
              team <- create prisma_team genId
                        (mkTeam "" gameId (Js.trim name) nextOrder 0) ;;
              (if makeCaptain
               then
                 create prisma_teamMember genId
                   (mkTeamMember "" (team_id team) actorId true) ;;
                 ret tt
               else ret tt) ;;
              ret team
        end
    end.

Definition listTeams (gameId : string) : M (list Team) :=
  teams <- findMany prisma_team (fun t => team_gameId t = gameId) ;;
  ret (by_order teams).

Definition joinTeam (genId : list string -> string)
    (input : JoinTeamInput) : M Team :=
  let teamId := jt_teamId input in
  let userId := jt_userId input in
  let isCaptain := default false (jt_isCaptain input) in
  membership <- findFirst prisma_teamMember
                  (fun m => member_teamId m = teamId /\ member_userId m = userId) ;;
  match membership with
  | Some _ => throw "User already joined this team"
  | None =>
      team <- update prisma_team teamId (fun t => t) ;;
      create prisma_teamMember genId
        (mkTeamMember "" teamId userId isCaptain) ;;
      ret team
  end.

Definition leaveTeam (teamId userId : string) : M Team :=
  membership <- findFirst prisma_teamMember
                  (fun m => member_teamId m = teamId /\ member_userId m = userId) ;;
  match membership with
  | None => throw "Membership not found"
  | Some membership =>
      delete prisma_teamMember (member_id membership) ;;
      team <- findUnique prisma_team teamId ;;
      match team with
      | None => throw "Team not found"
      | Some team => ret team
      end
  end.

Definition removeTeam (teamId actorId : string) : M unit :=
  team <- findUnique prisma_team teamId ;;
  match team with
  | None => throw "Team not found"
  | Some team =>
      game <- (g <- findUnique prisma_game (team_gameId team) ;;
               required "game" g) ;;
      ensureLobbyGame game ;;
      if decide (game_hostId game <> actorId)
      then throw "Only the host can remove teams"
      else
        delete prisma_team teamId ;;
        (* Re-order remaining teams so the lobby display stays consistent *)
        teams <- findMany prisma_team
                   (fun t => team_gameId t = team_gameId team) ;;
        let teams := by_order teams in
        promise_all
          (imap (fun index t =>
                   update prisma_team (team_id t)
                     (set_order (Z.of_nat index + 1)))
                teams) ;;
        ret tt
  end.

Definition adjustScore (input : AdjustScoreInput) : M Team :=
  let teamId := as_teamId input in
  let delta := as_delta input in
  let actorId := as_actorId input in
  team <- findUnique prisma_team teamId ;;
  actor <- findUnique prisma_user actorId ;;
  match team with
  | None => throw "Team not found"
  | Some team =>
      game <- (g <- findUnique prisma_game (team_gameId team) ;;
               required "game" g) ;;
      match actor with
      | None => throw "Actor not found"
      | Some actor =>
          (if decide (game_hostId game <> actorId)
           then ensureHostOrOperator actor "Updating team score"
           else ret tt) ;;
          update prisma_team teamId (increment_score delta)
      end
  end.

End TeamService.

(* ===================================================================== *)
(** * The clue service *)
(* ===================================================================== *)

Module ClueService.

Record SelectClueInput := mkSelectClueInput {
  sc_clueId : string;
  sc_teamId : string;
  sc_actorId : string }.

Record UpdateClueStateInput := mkUpdateClueStateInput {
  uc_clueId : string;
  uc_state : ClueBoardState;
  uc_resolvedById : string }.

(** A clue with [category.round.game] included. *)
Record ClueWithContext := mkClueWithContext {
  cwc_clue : Clue;
  cwc_category : Category;
  cwc_round : Round;
  cwc_game : Game }.

Definition ensureGameInProgress (game : Game) : M unit :=
  if decide (game_status game <> IN_PROGRESS)
  then throw "Clues can only be selected while the game is in progress"
  else ret tt.

Definition loadClue (clueId : string) : M ClueWithContext :=
  clue <- findUnique prisma_clue clueId ;;
  match clue with
  | None => throw "Clue not found"
  | Some clue =>
      category <- (c <- findUnique prisma_category (clue_categoryId clue) ;;
                   required "category" c) ;;
      round <- (r <- findUnique prisma_round (category_roundId category) ;;
                required "round" r) ;;
      game <- (g <- findUnique prisma_game (round_gameId round) ;;
               required "game" g) ;;
      ret (mkClueWithContext clue category round game)
  end.

Definition getClueById := loadClue.

Definition selectClue (genId : list string -> string)
    (input : SelectClueInput) : M ClueState :=
  let clueId := sc_clueId input in
  let teamId := sc_teamId input in
  let actorId := sc_actorId input in
  clue <- loadClue clueId ;;
  ensureGameInProgress (cwc_game clue) ;;
  team <- findUnique prisma_team teamId ;;
  state <- findFirst prisma_clueState (fun s => cs_clueId s = clueId) ;;
  match team with
  | None => throw "Team not found"
  | Some team =>
      if decide (team_gameId team <> round_gameId (cwc_round clue))
      then throw "Team and clue do not belong to the same game"
      else
        isActorMember <- findFirst prisma_teamMember
          (fun m => member_teamId m = teamId /\ member_userId m = actorId) ;;
        match isActorMember with
        | None =>
            throw "Only team members can select a clue on behalf of their team"
        | Some _ =>
            match state with
            | Some state =>
                if decide (cs_state state <> AVAILABLE)
                then throw "Clue has already been taken"
                else
                  update prisma_clueState (cs_id state)
                    (fun s => mkClueState (cs_id s) (cs_clueId s) (cs_gameId s)
                                PENDING (Some teamId) (cs_resolvedById s))
            | None =>
                create prisma_clueState genId
                  (mkClueState "" clueId (round_gameId (cwc_round clue))
                     PENDING (Some teamId) None)
            end
        end
  end.

Definition updateClueState (input : UpdateClueStateInput)
    : M (ClueState * ClueWithContext) :=
  let clueId := uc_clueId input in
  let state := uc_state input in
  let resolvedById := uc_resolvedById input in
  clue <- loadClue clueId ;;
  operator <- findUnique prisma_user resolvedById ;;
  match operator with
  | None => throw "Operator not found"
  | Some _ =>
      existingState <- findFirst prisma_clueState
                         (fun s => cs_clueId s = clueId) ;;
      match existingState with
      | None => throw "Clue state not found"
      | Some existingState =>
          updated <- update prisma_clueState (cs_id existingState)
            (fun s => mkClueState (cs_id s) (cs_clueId s) (cs_gameId s)
                        state (cs_pickedByTeamId s) (Some resolvedById)) ;;
          ret (updated, clue)
      end
  end.

Definition resetClueState (genId : list string -> string)
    (clueId actorId : string) : M ClueState :=
  clue <- loadClue clueId ;;
  operator <- findUnique prisma_user actorId ;;
  match operator with
  | None => throw "Operator not found"
  | Some _ =>
      state <- findFirst prisma_clueState (fun s => cs_clueId s = clueId) ;;
      match state with
      | None =>
          create prisma_clueState genId
            (mkClueState "" clueId (round_gameId (cwc_round clue))
               AVAILABLE None None)
      | Some state =>
          update prisma_clueState (cs_id state)
            (fun s => mkClueState (cs_id s) (cs_clueId s) (cs_gameId s)
                        AVAILABLE None None)
      end
  end.

End ClueService.

(* ===================================================================== *)
(** * The response service *)
(* ===================================================================== *)

Module ResponseService.

Record SubmitResponseInput := mkSubmitResponseInput {
  sr_clueId : string;
  sr_teamId : string;
  sr_submittedById : string;
  sr_answer : string }.

Record ValidateResponseInput := mkValidateResponseInput {
  vr_responseId : string;
  vr_isCorrect : bool;
  vr_awardedValue : option Z;
  vr_operatorId : string }.

Definition ensureOperator (user : User) : M unit :=
  if decide (user_role user <> OPERATOR /\ user_role user <> HOST)
  then throw "Only operators or hosts can validate responses"
  else ret tt.

Definition submitResponse (genId : list string -> string)
    (input : SubmitResponseInput) : M TeamResponse :=
  let clueId := sr_clueId input in
  let teamId := sr_teamId input in
  let submittedById := sr_submittedById input in
  let answer := sr_answer input in
  membership <- findFirst prisma_teamMember
    (fun m => member_teamId m = teamId /\ member_userId m = submittedById) ;;
  match membership with
  | None => throw "Only team members can submit answers for their team"
  | Some _ =>
      create prisma_teamResponse genId
        (mkTeamResponse "" teamId clueId submittedById answer
           None None None None)
  end.

Definition listResponsesForClue (clueId : string) : M (list TeamResponse) :=
  findMany prisma_teamResponse (fun r => resp_clueId r = clueId).

(** [awardedValue ?? (isCorrect ? clue.value : -clue.value)] *)
Definition scoreDelta (awardedValue : option Z) (isCorrect : bool)
    (clue : Clue) : Z :=
  default (if isCorrect then clue_value clue else - clue_value clue)
    awardedValue.

(** The three writes of [validateResponse], the callback handed to
    [$transaction].  [now] is the reading of [new Date()]. *)
Definition validateResponse_tx (now : Z) (input : ValidateResponseInput)
    (response : TeamResponse) (scoreDelta : Z) : M TeamResponse :=
  let responseId := vr_responseId input in
  let isCorrect := vr_isCorrect input in
  let operatorId := vr_operatorId input in
  updatedResponse <- update prisma_teamResponse responseId
    (fun r => mkTeamResponse (resp_id r) (resp_teamId r) (resp_clueId r)
                (resp_submittedById r) (resp_submittedAnswer r)
                (Some isCorrect) (Some scoreDelta) (Some operatorId)
                (Some now)) ;;
  (if decide (scoreDelta <> 0)
   then
     update prisma_team (resp_teamId response)
       (TeamService.increment_score scoreDelta) ;;
     ret tt
   else ret tt) ;;
  clueState <- findFirst prisma_clueState
                 (fun s => cs_clueId s = resp_clueId response) ;;
  match clueState with
  | Some clueState =>
      update prisma_clueState (cs_id clueState)
        (fun s => mkClueState (cs_id s) (cs_clueId s) (cs_gameId s)
                    (if isCorrect then CORRECT else INCORRECT)
                    (cs_pickedByTeamId s) (Some operatorId)) ;;
      ret updatedResponse
  | None => ret updatedResponse
  end.

Definition validateResponse (now : Z) (input : ValidateResponseInput)
    : M TeamResponse :=
  let responseId := vr_responseId input in
  let isCorrect := vr_isCorrect input in
  let awardedValue := vr_awardedValue input in
  let operatorId := vr_operatorId input in
  operator <- findUnique prisma_user operatorId ;;
  match operator with
  | None => throw "Operator not found"
  | Some operator =>
      ensureOperator operator ;;
      response <- findUnique prisma_teamResponse responseId ;;
      match response with
      | None => throw "Response not found"
      | Some response =>
          clue <- (c <- findUnique prisma_clue (resp_clueId response) ;;
                   required "clue" c) ;;
          let scoreDelta := scoreDelta awardedValue isCorrect clue in
          transaction (validateResponse_tx now input response scoreDelta)
      end
  end.

End ResponseService.

Export GameService TeamService ClueService ResponseService.

(* ===================================================================== *)
(** * The round service *)
(* ===================================================================== *)

Module RoundService.

Definition ensureHost (game : Game) (actorId : string) : M unit :=
  if decide (game_hostId game <> actorId)
  then throw "Only the host can manage rounds"
  else ret tt.

(** [orderBy: { order: "asc" }] *)
Definition round_le (a b : Round) : Prop := round_order a <= round_order b.

#[global] Instance round_le_dec : RelDecision round_le.
Proof. intros a b; unfold round_le; apply _. Defined.

(** Rounds of equal order come in an order that the store chooses; the
    sort fixes one, and what is proved of [listRounds] and [deleteRound]
    does not depend on which. *)
Definition by_round_order (rs : list Round) : list Round :=
  merge_sort round_le rs.

Definition set_round_order (o : Z) (r : Round) : Round :=
  mkRound (round_id r) (round_gameId r) o.

Definition listRounds (gameId : string) : M (list Round) :=
  rounds <- findMany prisma_round (fun r => round_gameId r = gameId) ;;
  ret (by_round_order rounds).

Definition deleteRound (roundId actorId : string) : M unit :=
  round <- findUnique prisma_round roundId ;;
  match round with
  | None => throw "Round not found"
  | Some round =>
      game <- (g <- findUnique prisma_game (round_gameId round) ;;
               required "game" g) ;;
      ensureHost game actorId ;;
      if decide (game_status game <> LOBBY)
      then throw "Cannot delete rounds once the game has started"
      else
        delete prisma_round roundId ;;
        remainingRounds <- findMany prisma_round
                             (fun r => round_gameId r = round_gameId round) ;;
        let remainingRounds := by_round_order remainingRounds in
        promise_all
          (imap (fun index r =>
                   update prisma_round (round_id r)
                     (set_round_order (Z.of_nat index + 1)))
                remainingRounds) ;;
        ret tt
  end.

Definition updateRoundOrder (roundId : string) (newOrder : Z)
    (actorId : string) : M Round :=
  round <- findUnique prisma_round roundId ;;
  match round with
  | None => throw "Round not found"
  | Some round =>
      game <- (g <- findUnique prisma_game (round_gameId round) ;;
               required "game" g) ;;
      ensureHost game actorId ;;
      if decide (game_status game <> LOBBY)
      then throw "Cannot reorder rounds once the game has started"
      else update prisma_round roundId (set_round_order newOrder)
  end.

End RoundService.

Export RoundService.

(* ===================================================================== *)
(** * Vocabulary of the statements *)
(* ===================================================================== *)

(** The values an [Int] column holds: 32-bit signed integers.  The store
    refuses the write of any other, which the client above does not
    model; a statement that a write goes through assumes the value
    written to be one of these. *)
Definition int_column (z : Z) : Prop := -2147483648 <= z <= 2147483647.

(** The position of a team, by id, in a list of teams. *)
Definition rank_in (ts : list Team) (k : string) : option nat :=
  fst <$> list_find (fun t => team_id t = k) ts.

(** What the re-ordering loop of [removeTeam], run over [ts] with indices
    starting at [k], makes of one row. *)
Definition renumbered (k : nat) (ts : list Team) (r : Team) : Team :=
  match rank_in ts (team_id r) with
  | Some i => set_order (Z.of_nat (k + i) + 1) r
  | None => r
  end.

(** The clue's category, round and game are there: the relations that
    [loadClue] includes are required ones. *)
Definition references_ok (db : DB) : Prop :=
  Forall (fun c => is_Some (first_where
            (fun x => category_id x = clue_categoryId c) (db_categories db)))
    (db_clues db) /\
  Forall (fun c => is_Some (first_where
            (fun x => round_id x = category_roundId c) (db_rounds db)))
    (db_categories db) /\
  Forall (fun r => is_Some (first_where
            (fun x => game_id x = round_gameId r) (db_games db)))
    (db_rounds db).

(** The rewrites of [validateResponse]: of the response, and of a state
    row of its clue. *)
Definition validated (now : Z) (input : ValidateResponseInput) (delta : Z)
    (r : TeamResponse) : TeamResponse :=
  mkTeamResponse (resp_id r) (resp_teamId r) (resp_clueId r)
    (resp_submittedById r) (resp_submittedAnswer r)
    (Some (vr_isCorrect input)) (Some delta) (Some (vr_operatorId input))
    (Some now).

Definition resolved (input : ValidateResponseInput) (s : ClueState)
    : ClueState :=
  mkClueState (cs_id s) (cs_clueId s) (cs_gameId s)
    (if vr_isCorrect input then CORRECT else INCORRECT)
    (cs_pickedByTeamId s) (Some (vr_operatorId input)).

(** The three tables after the three writes. *)
Definition responses_after (now : Z) (input : ValidateResponseInput)
    (delta : Z) (db : DB) : list TeamResponse :=
  update_where (fun r => resp_id r = vr_responseId input)
    (validated now input delta) (db_responses db).

Definition teams_after (teamId : string) (delta : Z) (db : DB) : list Team :=
  if decide (delta <> 0)
  then update_where (fun t => team_id t = teamId) (increment_score delta)
         (db_teams db)
  else db_teams db.

Definition clueStates_after (input : ValidateResponseInput) (clueId : string)
    (db : DB) : list ClueState :=
  match first_where (fun s => cs_clueId s = clueId) (db_clueStates db) with
  | Some s =>
      update_where (fun x => cs_id x = cs_id s) (resolved input)
        (db_clueStates db)
  | None => db_clueStates db
  end.

(** The database after a [validateResponse] that returns. *)
Definition after_validate (now : Z) (input : ValidateResponseInput)
    (response : TeamResponse) (delta : Z) (db : DB) : DB :=
  mkDB (db_users db) (db_games db)
    (teams_after (resp_teamId response) delta db)
    (db_members db) (db_rounds db) (db_categories db) (db_clues db)
    (clueStates_after input (resp_clueId response) db)
    (responses_after now input delta db).

(** A clue is taken when the state row found for it is not AVAILABLE. *)
Definition taken_in (clueId : string) (states : list ClueState) : Prop :=
  exists s,
    first_where (fun s => cs_clueId s = clueId) states = Some s /\
    cs_state s <> AVAILABLE.

Definition taken (clueId : string) (db : DB) : Prop :=
  taken_in clueId (db_clueStates db).

(** The calls of a game in progress. *)
Inductive call :=
| SelectClue (input : SelectClueInput)
| UpdateClueState (input : UpdateClueStateInput)
| ResetClueState (clueId actorId : string)
| SubmitResponse (input : SubmitResponseInput)
| ValidateResponse (now : Z) (input : ValidateResponseInput)
| AdjustScore (input : AdjustScoreInput).

(** The database after a call, whether the call returned or threw. *)
Definition perform (genId : list string -> string) (c : call) (db : DB)
    : DB :=
  match c with
  | SelectClue input => snd (selectClue genId input db)
  | UpdateClueState input => snd (updateClueState input db)
  | ResetClueState clueId actorId => snd (resetClueState genId clueId actorId db)
  | SubmitResponse input => snd (submitResponse genId input db)
  | ValidateResponse now input => snd (validateResponse now input db)
  | AdjustScore input => snd (adjustScore input db)
  end.

Definition perform_all (genId : list string -> string) (cs : list call)
    (db : DB) : DB :=
  foldl (fun db c => perform genId c db) db cs.

(** The calls that can hand a clue back: a reset of its state, and an edit
    of its state to AVAILABLE. *)
Definition frees (clueId : string) (c : call) : Prop :=
  match c with
  | ResetClueState k _ => k = clueId
  | UpdateClueState input =>
      uc_clueId input = clueId /\ uc_state input = AVAILABLE
  | _ => False
  end.

(** The gate on a clue: its state table is keyed by id and the clue is
    taken. *)
Definition gate_shut (clueId : string) (db : DB) : Prop :=
  NoDup (cs_id <$> db_clueStates db) /\ taken clueId db.

(** The calls of the game service that keep the game. *)
Inductive gameCall :=
| CreateGame (input : CreateGameInput)
| UpdateGameSettings (gameId : string) (data : UpdateGameSettingsInput)
    (actorId : string)
| StartGame (gameId actorId : string)
| FinishGame (gameId actorId : string).

Definition perform_game (genId : list string -> string) (c : gameCall)
    (db : DB) : DB :=
  match c with
  | CreateGame input => snd (createGame genId input db)
  | UpdateGameSettings gameId data actorId =>
      snd (updateGameSettings gameId data actorId db)
  | StartGame gameId actorId => snd (startGame gameId actorId db)
  | FinishGame gameId actorId => snd (finishGame gameId actorId db)
  end.

(** The status that [findUnique] reads for a game. *)
Definition status_of (db : DB) (gameId : string) : option GameStatus :=
  game_status <$> first_where (fun g => game_id g = gameId) (db_games db).

(** LOBBY, then IN_PROGRESS, then FINISHED. *)
Definition status_rank (s : GameStatus) : nat :=
  match s with
  | LOBBY => 0
  | IN_PROGRESS => 1
  | FINISHED => 2
  end.

(** The game that [updateGameSettings] writes. *)
Definition settings_applied (data : UpdateGameSettingsInput) (game : Game)
    : Game :=
  mkGame (game_id game)
    (default (game_title game) (Js.trim <$> ug_title data))
    (game_hostId game)
    (default (game_teamLimit game) (ug_teamLimit data))
    (game_status game).

(** The calls of the team service that make and unmake memberships. *)
Inductive teamCall :=
| CreateTeam (input : CreateTeamInput)
| JoinTeam (input : JoinTeamInput)
| LeaveTeam (teamId userId : string).

Definition perform_team (genId : list string -> string) (c : teamCall)
    (db : DB) : DB :=
  match c with
  | CreateTeam input => snd (createTeam genId input db)
  | JoinTeam input => snd (joinTeam genId input db)
  | LeaveTeam teamId userId => snd (leaveTeam teamId userId db)
  end.

(** Who is on which team. *)
Definition member_pair (m : TeamMember) : string * string :=
  (member_teamId m, member_userId m).

(** No user is on a team twice, and every membership is of a team that is
    there. *)
Definition memberships_ok (db : DB) : Prop :=
  NoDup (member_pair <$> db_members db) /\
  Forall (fun m => member_teamId m ∈ team_id <$> db_teams db) (db_members db).

(** Every game has at most as many teams as its limit. *)
Definition within_limits (db : DB) : Prop :=
  forall gameId game,
    first_where (fun g => game_id g = gameId) (db_games db) = Some game ->
    Z.of_nat (length (many_where (fun t => team_gameId t = gameId)
                        (db_teams db))) <= game_teamLimit game.

(** The team that [createTeam] adds, and the database with it. *)
Definition new_team (genId : list string -> string) (input : CreateTeamInput)
    (db : DB) : Team :=
  mkTeam (genId (team_id <$> db_teams db)) (ct_gameId input)
    (Js.trim (ct_name input))
    (Z.of_nat (length (many_where (fun t => team_gameId t = ct_gameId input)
                         (db_teams db))) + 1)
    0.

Definition with_new_team (genId : list string -> string)
    (input : CreateTeamInput) (db : DB) : DB :=
  let t := new_team genId input db in
  let db1 := set_rows prisma_team (db_teams db ++ [t]) db in
  if default true (ct_makeCaptain input)
  then set_rows prisma_teamMember
         (db_members db ++
          [mkTeamMember (genId (member_id <$> db_members db)) (team_id t)
             (ct_actorId input) true]) db1
  else db1.

(** The calls on the games and the teams. *)
Inductive lobbyCall :=
| OfGame (c : gameCall)
| OfTeam (c : teamCall)
| RemoveTeam (teamId actorId : string)
| ScoreTeam (input : AdjustScoreInput)
| DeleteGame (gameId actorId : string).

(** The database after a call, whether the call returned or threw. *)
Definition perform_lobby (genId : list string -> string) (c : lobbyCall)
    (db : DB) : DB :=
  match c with
  | OfGame c => perform_game genId c db
  | OfTeam c => perform_team genId c db
  | RemoveTeam teamId actorId => snd (removeTeam teamId actorId db)
  | ScoreTeam input => snd (adjustScore input db)
  | DeleteGame gameId actorId => snd (deleteGame gameId actorId db)
  end.

(** The teams that [listTeams] reads for a game. *)
Definition lineup (db : DB) (gameId : string) : list Team :=
  by_order (many_where (fun t => team_gameId t = gameId) (db_teams db)).

(** The teams of every game are numbered 1, 2, ..., N. *)
Definition orders_contiguous (db : DB) : Prop :=
  forall gameId,
    team_order <$> lineup db gameId
    = seqZ 1 (Z.of_nat (length (lineup db gameId))).

(** A game that has left the lobby has a team. *)
Definition started_have_teams (db : DB) : Prop :=
  forall gameId game,
    first_where (fun g => game_id g = gameId) (db_games db) = Some game ->
    game_status game <> LOBBY ->
    lineup db gameId <> [].

(** The place of the round with id [k] in the list [rs]. *)
Definition round_rank_in (rs : list Round) (k : string) : option nat :=
  fst <$> list_find (fun r => round_id r = k) rs.

(** What the re-ordering loop of [deleteRound], run over [rs] with indices
    starting at [k], makes of one row. *)
Definition round_renumbered (k : nat) (rs : list Round) (r : Round) : Round :=
  match round_rank_in rs (round_id r) with
  | Some i => set_round_order (Z.of_nat (k + i) + 1) r
  | None => r
  end.

(* ===================================================================== *)
(** * A game night, used to run the services *)
(* ===================================================================== *)

Module Scenario.

(** An id generator for the runs below: an id longer than every id in
    use. *)
Fixpoint zeros (n : nat) : string :=
  match n with
  | O => ""
  | S n => String "0" (zeros n)
  end.

Definition genId (used : list string) : string :=
  String "n" (zeros (max_list (String.length <$> used))).

Definition people : list User :=
  [ mkUser "u-host" HOST; mkUser "u-op" OPERATOR;
    mkUser "u-alice" PLAYER; mkUser "u-bob" PLAYER ].

Definition board (status : GameStatus) (teams : list Team)
    (states : list ClueState) (responses : list TeamResponse) : DB :=
  mkDB people
    [ mkGame "g1" "Quiz night" "u-host" 2 status ]
    teams
    [ mkTeamMember "m1" "tA" "u-alice" true;
      mkTeamMember "m2" "tB" "u-bob" true ]
    [ mkRound "r1" "g1" 1 ]
    [ mkCategory "cat1" "r1" ]
    [ mkClue "c1" "cat1" 200; mkClue "c2" "cat1" 400 ]
    states responses.

Definition teamA : Team := mkTeam "tA" "g1" "Team A" 1 0.
Definition teamB : Team := mkTeam "tB" "g1" "Team B" 2 0.
Definition teamC : Team := mkTeam "tC" "g1" "Team C" 3 0.

Definition lobby1 : DB := board LOBBY [teamA] [] [].
Definition lobby : DB := board LOBBY [teamA; teamB] [] [].
Definition lobby3 : DB := board LOBBY [teamC; teamA; teamB] [] [].
Definition playing : DB := board IN_PROGRESS [teamA; teamB] [] [].

Definition answered : DB :=
  board IN_PROGRESS [teamA; teamB]
    [ mkClueState "s1" "c1" "g1" PENDING (Some "tA") None ]
    [ mkTeamResponse "a1" "tA" "c1" "u-alice" "What is Rocq?"
        None None None None ].

(** The game night next to a second game with a team of its own. *)
Definition two_games : DB :=
  mkDB people
    [ mkGame "g1" "Quiz night" "u-host" 2 IN_PROGRESS;
      mkGame "g2" "Other night" "u-host" 2 IN_PROGRESS ]
    [ teamA; teamB; mkTeam "tZ" "g2" "Team Z" 1 0 ]
    [ mkTeamMember "m1" "tA" "u-alice" true;
      mkTeamMember "m2" "tB" "u-bob" true;
      mkTeamMember "m3" "tZ" "u-bob" true ]
    [ mkRound "r1" "g1" 1 ]
    [ mkCategory "cat1" "r1" ]
    [ mkClue "c1" "cat1" 200; mkClue "c2" "cat1" 400 ]
    [] [].

(** A store whose response has lost its team row, to make the second
    write of [validateResponse] fail. *)
Definition orphaned : DB :=
  board IN_PROGRESS [teamB]
    [ mkClueState "s1" "c1" "g1" PENDING (Some "tA") None ]
    [ mkTeamResponse "a1" "tA" "c1" "u-alice" "What is Rocq?"
        None None None None ].

(** A lobby with three rounds of the game, out of order and with a gap,
    and a round of another game. *)
Definition rounds3 : DB :=
  mkDB people
    [ mkGame "g1" "Quiz night" "u-host" 2 LOBBY;
      mkGame "g2" "Other night" "u-op" 2 LOBBY ]
    [ teamA ]
    [ mkTeamMember "m1" "tA" "u-alice" true ]
    [ mkRound "r3" "g1" 7; mkRound "r1" "g1" 1; mkRound "q1" "g2" 4;
      mkRound "r2" "g1" 2 ]
    [ mkCategory "cat1" "r1" ]
    [ mkClue "c1" "cat1" 200; mkClue "c2" "cat1" 400 ]
    [] [].

End Scenario.

(* ===================================================================== *)
(** * Properties *)
(* ===================================================================== *)

(** ** Strings *)

Example trim_both_ends : Js.trim (String "009"%char "  Team B  ") = "Team B".
Proof. reflexivity. Qed.

Example trim_keeps_inner_space : Js.trim " a  b " = "a  b".
Proof. reflexivity. Qed.

Example trim_blank : Js.falsy (Js.trim (String "010"%char "   ")) = true.
Proof. reflexivity. Qed.

(** ** Rows *)

Section RowFacts.
Context {R : Type}.
Implicit Types (t : list R) (r : R).

Lemma first_where_cons (P : R -> Prop) `{!forall r, Decision (P r)} r t :
  first_where P (r :: t) = if decide (P r) then Some r else first_where P t.
Proof.
  unfold first_where; cbn [list_find].
  destruct (decide (P r)); [reflexivity|].
  destruct (list_find P t) as [[i x]|]; reflexivity.
Qed.

Lemma first_where_Some (P : R -> Prop) `{!forall r, Decision (P r)} t r :
  first_where P t = Some r -> P r /\ r ∈ t.
Proof.
  induction t as [|x t IH]; [discriminate|].
  rewrite first_where_cons. destruct (decide (P x)); intros E.
  - injection E as <-. split; [assumption|left].
  - destruct (IH E). split; [assumption|by right].
Qed.

Lemma first_where_None (P : R -> Prop) `{!forall r, Decision (P r)} t :
  first_where P t = None <-> Forall (fun r => ~ P r) t.
Proof.
  induction t as [|x t IH]; [split; [constructor|reflexivity]|].
  rewrite first_where_cons, Forall_cons. destruct (decide (P x)).
  - split; [discriminate|]. intros [? _]. contradiction.
  - rewrite IH. tauto.
Qed.

Lemma first_where_app (P : R -> Prop) `{!forall r, Decision (P r)} t1 t2 :
  first_where P (t1 ++ t2) =
  match first_where P t1 with
  | Some r => Some r
  | None => first_where P t2
  end.
Proof.
  induction t1 as [|x t1 IH]; [reflexivity|].
  cbn [app]. rewrite !first_where_cons. destruct (decide (P x)); auto.
Qed.

(** A rewrite of the rows that keeps the condition of the query keeps
    the position of the row the query finds. *)
Lemma first_where_fmap (P : R -> Prop) `{!forall r, Decision (P r)}
    (g : R -> R) t :
  (forall r, P (g r) <-> P r) ->
  first_where P (g <$> t) = g <$> first_where P t.
Proof.
  intros Hg. induction t as [|x t IH]; [reflexivity|].
  rewrite fmap_cons, !first_where_cons.
  destruct (decide (P (g x))) as [Hx|Hx], (decide (P x)) as [Hx'|Hx'].
  - reflexivity.
  - exfalso. apply Hx', Hg, Hx.
  - exfalso. apply Hx, Hg, Hx'.
  - apply IH.
Qed.

Lemma first_where_update (P Q : R -> Prop) `{!forall r, Decision (P r)}
    `{!forall r, Decision (Q r)} (f : R -> R) t :
  (forall r, P (f r) <-> P r) ->
  first_where P (update_where Q f t) =
  (fun r => if decide (Q r) then f r else r) <$> first_where P t.
Proof.
  intros Hf. unfold update_where. apply first_where_fmap.
  intros r. destruct (decide (Q r)); [apply Hf|reflexivity].
Qed.

Lemma length_update_where (Q : R -> Prop) `{!forall r, Decision (Q r)}
    (f : R -> R) t :
  length (update_where Q f t) = length t.
Proof. unfold update_where. apply length_fmap. Qed.

Lemma first_where_is_Some (P : R -> Prop) `{!forall r, Decision (P r)}
    (t : list R) r :
  r ∈ t -> P r -> is_Some (first_where P t).
Proof.
  intros Hr HP. destruct (first_where P t) eqn:E; [eauto|].
  apply first_where_None in E. rewrite Forall_forall in E.
  exfalso. exact (E r Hr HP).
Qed.

Lemma many_where_fmap (P : R -> Prop) `{!forall r, Decision (P r)}
    (g : R -> R) (t : list R) :
  (forall r, P (g r) <-> P r) ->
  many_where P (g <$> t) = g <$> many_where P t.
Proof.
  intros Hg. unfold many_where.
  induction t as [|x t IH]; [reflexivity|].
  rewrite fmap_cons, !filter_cons.
  destruct (decide (P (g x))) as [H1|H1], (decide (P x)) as [H2|H2];
    rewrite ?fmap_cons, IH; try reflexivity; exfalso.
  - apply H2, Hg, H1.
  - apply H1, Hg, H2.
Qed.

Lemma first_where_update_other (key : R -> string) (k k' : string)
    (f : R -> R) (t : list R) :
  (forall r, key (f r) = key r) -> k <> k' ->
  first_where (fun r => key r = k) (update_where (fun r => key r = k') f t)
  = first_where (fun r => key r = k) t.
Proof.
  intros Hf Hk. rewrite first_where_update by (intros r; rewrite Hf; tauto).
  destruct (first_where _ t) as [x|] eqn:E; [|reflexivity].
  destruct (first_where_Some _ _ _ E) as [Hx _]. cbn.
  rewrite decide_False by congruence. reflexivity.
Qed.

Lemma first_where_update_same (P : R -> Prop)
    `{!forall r, Decision (P r)} (f : R -> R) (t : list R) r :
  (forall r, P (f r) <-> P r) ->
  first_where P t = Some r ->
  first_where P (update_where P f t) = Some (f r).
Proof.
  intros Hf E. rewrite first_where_update by assumption. rewrite E. cbn.
  destruct (first_where_Some _ _ _ E) as [Hr _].
  rewrite decide_True by assumption. reflexivity.
Qed.

End RowFacts.

(** ** Keys *)

Section KeyFacts.
Context {R K : Type} `{EqDecision K} (key : R -> K).

(** Rows of a table with a primary key are told apart by the key. *)
Lemma NoDup_key_eq (t : list R) a b :
  NoDup (key <$> t) -> a ∈ t -> b ∈ t -> key a = key b -> a = b.
Proof.
  intros Hnd Ha Hb E.
  apply list_elem_of_lookup in Ha as [i Hi], Hb as [j Hj].
  assert (i = j) as ->.
  { eapply (NoDup_lookup _ _ _ _ Hnd); rewrite list_lookup_fmap.
    - rewrite Hi. reflexivity.
    - rewrite Hj. cbn. rewrite E. reflexivity. }
  congruence.
Qed.

Lemma first_where_key (t : list R) r :
  NoDup (key <$> t) -> r ∈ t ->
  first_where (fun x => key x = key r) t = Some r.
Proof.
  intros Hnd Hr.
  destruct (first_where_is_Some (fun x => key x = key r) t r Hr)
    as [x Ex]; [reflexivity|].
  rewrite Ex. f_equal.
  destruct (first_where_Some _ _ _ Ex) as [E Hx].
  eapply NoDup_key_eq; eauto.
Qed.
End KeyFacts.

Ltac case_first :=
  match goal with
  | |- context [@first_where ?R ?P ?D ?t] =>
      destruct (@first_where R P D t) eqn:?
  end.

(** Unfolding the promises of a service down to its queries. *)
Ltac run :=
  unfold required, bind, findUnique, findFirst, findMany, gets, modify, ret,
    throw;
  cbn [rows set_rows rid set_rid
       prisma_user prisma_game prisma_team prisma_teamMember prisma_round
       prisma_category prisma_clue prisma_clueState prisma_teamResponse
       db_users db_games db_teams db_members db_rounds db_categories
       db_clues db_clueStates db_responses].

(** ** The client *)

Section ClientFacts.
Context {R : Type} (m : Model R).

Lemma update_ok k f db r :
  first_where (fun r => rid m r = k) (rows m db) = Some r ->
  update m k f db =
  (Ok (f r), set_rows m (update_where (fun r => rid m r = k) f (rows m db)) db).
Proof. intros E. unfold update. rewrite E. reflexivity. Qed.

(** A transaction that throws leaves the database as it found it. *)
Lemma transaction_rollback {A} (body : M A) db e db' :
  transaction body db = (Err e, db') -> db' = db.
Proof.
  unfold transaction. destruct (body db) as [[a|e'] db1]; congruence.
Qed.

Lemma transaction_commit {A} (body : M A) db a db' :
  transaction body db = (Ok a, db') <-> body db = (Ok a, db').
Proof.
  unfold transaction. destruct (body db) as [[a'|e'] db1];
    split; congruence.
Qed.

End ClientFacts.

(** ** The game service *)

Section GameFacts.

(** C4, as the code has it.  [startGame] succeeds exactly when the game
    exists, the actor is its host, its status is LOBBY and it has at least
    one team; the game it returns, which is the game then stored under the
    id, has status IN_PROGRESS. *)
Theorem startGame_iff db gameId actorId :
  ((exists g' db', startGame gameId actorId db = (Ok g', db')) <->
   exists game,
     first_where (fun g => game_id g = gameId) (db_games db) = Some game /\
     game_hostId game = actorId /\
     game_status game = LOBBY /\
     (1 <= length (many_where (fun t => team_gameId t = gameId)
                     (db_teams db)))%nat)
  /\ (forall g' db', startGame gameId actorId db = (Ok g', db') ->
      game_status g' = IN_PROGRESS /\
      first_where (fun g => game_id g = gameId) (db_games db') = Some g').
Proof.
  unfold startGame, bind, findUnique, findMany, gets, ensureHostAccess,
    throw, ret.
  cbn [rows prisma_game prisma_team rid].
  destruct (first_where _ (db_games db)) as [game|] eqn:Eg.
  2:{ split; [split; [intros (? & ? & [=])|intros (? & [=] & _)]
             |intros ? ? [=]]. }
  destruct (decide (game_hostId game <> actorId)) as [Hh|Hh].
  { split; [split; [intros (? & ? & [=])
                   |intros (? & [= <-] & ? & _); contradiction]
           |intros ? ? [=]]. }
  apply dec_stable in Hh.
  destruct (decide (game_status game <> LOBBY)) as [Hs|Hs].
  { split; [split; [intros (? & ? & [=])
                   |intros (? & [= <-] & ? & ? & _); contradiction]
           |intros ? ? [=]]. }
  apply dec_stable in Hs.
  destruct (decide (length _ = 0%nat)) as [Hn|Hn].
  { split; [split; [intros (? & ? & [=])
                   |intros (? & [= <-] & ? & ? & ?); lia]
           |intros ? ? [=]]. }
  rewrite (update_ok prisma_game gameId _ db game Eg).
  cbn [rows set_rows prisma_game rid].
  split.
  - split; [intros _|intros _; eauto].
    exists game. repeat split; auto; lia.
  - intros g' db' [= <- <-]. split; [reflexivity|].
    cbn [db_games]. rewrite first_where_update by reflexivity.
    rewrite Eg. cbn. destruct (first_where_Some _ _ _ Eg) as [-> _].
    rewrite decide_True by reflexivity. reflexivity.
Qed.

(** C4, as the claim has it, fails: a game in LOBBY with two teams is not
    started by an actor who is not its host. *)
Lemma startGame_host_only_counterexample :
  exists game,
    first_where (fun g => game_id g = "g1") (db_games Scenario.lobby)
      = Some game /\
    game_status game = LOBBY /\
    (1 <= length (many_where (fun t => team_gameId t = "g1")
                    (db_teams Scenario.lobby)))%nat /\
    ~ exists g' db', startGame "g1" "u-alice" Scenario.lobby = (Ok g', db').
Proof.
  eexists. split; [reflexivity|]. split; [reflexivity|].
  split; [vm_compute; lia|].
  intros (g' & db' & H). vm_compute in H. discriminate H.
Qed.

(** C10.  For a host that is a user, [createGame] with a title that is
    not blank succeeds for every team limit the column holds, zero and
    negative ones included, and the row it adds carries that limit;
    without a limit the row carries 4.  The bound is
    [updateGameSettings]'s alone: there a resulting limit below 1 is
    refused. *)
Theorem createGame_teamLimit_unchecked genId db hostId title (limit : Z) :
  Js.trim title <> "" ->
  is_Some (first_where (fun u => user_id u = hostId) (db_users db)) ->
  int_column limit ->
  (exists g,
     createGame genId (mkCreateGameInput hostId title (Some limit)) db
       = (Ok g, set_rows prisma_game (db_games db ++ [g]) db) /\
     game_teamLimit g = limit /\
     game_status g = LOBBY /\
     game_hostId g = hostId /\
     game_title g = Js.trim title) /\
  (exists g,
     createGame genId (mkCreateGameInput hostId title None) db
       = (Ok g, set_rows prisma_game (db_games db ++ [g]) db) /\
     game_teamLimit g = 4) /\
  (forall db0 gameId game data,
     first_where (fun g => game_id g = gameId) (db_games db0) = Some game ->
     game_status game = LOBBY ->
     default (game_teamLimit game) (ug_teamLimit data) < 1 ->
     updateGameSettings gameId data (game_hostId game) db0
       = (Err "Team limit must be at least 1", db0)).
Proof.
  intros Ht _ _.
  unfold createGame, Js.falsy. cbn [cg_title cg_teamLimit cg_hostId].
  rewrite bool_decide_eq_false_2 by assumption.
  split; [|split].
  - eexists. split; [reflexivity|]. cbn. auto.
  - eexists. split; [reflexivity|]. reflexivity.
  - intros db0 gameId game data Eg Hs Hl.
    unfold updateGameSettings, bind, findUnique, gets, ensureHostAccess,
      throw, ret.
    cbn [rows prisma_game rid]. rewrite Eg.
    rewrite decide_False by (intros H; apply H; reflexivity).
    rewrite decide_False by (intros H; apply H; assumption).
    apply Z.ltb_lt in Hl. rewrite Hl. reflexivity.
Qed.

Lemma createGame_teamLimit_unchecked_witness :
  exists g db',
    createGame Scenario.genId
      (mkCreateGameInput "u-host" " Finals " (Some (-3))) Scenario.lobby
      = (Ok g, db') /\
    game_teamLimit g = -3.
Proof.
  destruct (createGame_teamLimit_unchecked Scenario.genId Scenario.lobby
              "u-host" " Finals " (-3)) as [(g & E & Hl & _) _].
  - discriminate.
  - eexists. reflexivity.
  - unfold int_column. lia.
  - exists g. eexists. split; [exact E|exact Hl].
Defined.

End GameFacts.

(** ** The team service *)

Section TeamFacts.

(** C5.  In a LOBBY game, for an existing actor and a name that is not
    blank: with as many teams as the limit (or more) [createTeam] throws
    the team-limit error and writes nothing; with fewer it adds one team,
    whose order is the previous count plus one. *)
Theorem createTeam_limit genId db input game actor :
  Js.trim (ct_name input) <> "" ->
  first_where (fun g => game_id g = ct_gameId input) (db_games db)
    = Some game ->
  game_status game = LOBBY ->
  first_where (fun u => user_id u = ct_actorId input) (db_users db)
    = Some actor ->
  let n := length (many_where (fun t => team_gameId t = ct_gameId input)
                     (db_teams db)) in
  (Z.of_nat n = game_teamLimit game ->
   createTeam genId input db = (Err "Team limit reached for this game", db))
  /\
  (game_teamLimit game <= Z.of_nat n ->
   createTeam genId input db = (Err "Team limit reached for this game", db))
  /\
  (Z.of_nat n < game_teamLimit game ->
   exists t db',
     createTeam genId input db = (Ok t, db') /\
     team_order t = Z.of_nat n + 1 /\
     team_gameId t = ct_gameId input /\
     team_name t = Js.trim (ct_name input) /\
     db_teams db' = (db_teams db ++ [t])%list /\
     length (many_where (fun t => team_gameId t = ct_gameId input)
               (db_teams db')) = S n).
Proof.
  intros Hname Eg Hs Ea n.
  assert (
    createTeam genId input db =
    if Z.of_nat n >=? game_teamLimit game
    then (Err "Team limit reached for this game", db)
    else
      (team <- create prisma_team genId
                 (mkTeam "" (ct_gameId input) (Js.trim (ct_name input))
                    (Z.of_nat n + 1) 0) ;;
       (if default true (ct_makeCaptain input)
        then create prisma_teamMember genId
               (mkTeamMember "" (team_id team) (ct_actorId input) true) ;;
             ret tt
        else ret tt) ;;
       ret team) db) as Hrun.
  { unfold createTeam, Js.falsy.
    rewrite bool_decide_eq_false_2 by assumption.
    unfold bind at 1 2 3, findUnique, findMany, gets.
    cbn [rows prisma_game prisma_team prisma_user rid]. rewrite Eg, Ea.
    unfold ensureLobbyGame. rewrite decide_False by (intros H; apply H, Hs).
    unfold bind at 1, ret at 1. fold n.
    destruct (Z.of_nat n >=? game_teamLimit game); reflexivity. }
  assert (forall a b : Z, (a >=? b) = true <-> b <= a) as Hge
    by (intros; rewrite Z.geb_leb; apply Z.leb_le).
  split; [|split].
  - intros Hn. rewrite Hrun. rewrite (proj2 (Hge (Z.of_nat n) (game_teamLimit game))) by lia. reflexivity.
  - intros Hn. rewrite Hrun. rewrite (proj2 (Hge (Z.of_nat n) (game_teamLimit game))) by lia. reflexivity.
  - intros Hn. rewrite Hrun.
    destruct (Z.of_nat n >=? game_teamLimit game) eqn:E;
      [apply Hge in E; lia|].
    unfold bind, create, ret.
    cbn [rows set_rows prisma_team prisma_teamMember rid set_rid].
    set (t := mkTeam _ _ _ _ _).
    assert (length (many_where (fun t0 => team_gameId t0 = ct_gameId input)
                      ((db_teams db ++ [t])%list)) = S n) as Hlen.
    { unfold many_where. rewrite filter_app, length_app.
      rewrite filter_cons_True by reflexivity.
      rewrite filter_nil. cbn [length]. unfold n, many_where. lia. }
    destruct (default true (ct_makeCaptain input));
      exists t; eexists; (split; [reflexivity|]); cbn; auto.
Qed.

Lemma createTeam_limit_witness :
  createTeam Scenario.genId (mkCreateTeamInput "g1" "Team C" "u-bob" None)
    Scenario.lobby
  = (Err "Team limit reached for this game", Scenario.lobby) /\
  exists t db',
    createTeam Scenario.genId (mkCreateTeamInput "g1" " Team B " "u-bob" None)
      Scenario.lobby1 = (Ok t, db') /\
    team_order t = 2 /\
    team_name t = "Team B".
Proof.
  split.
  - refine (proj1 (createTeam_limit Scenario.genId Scenario.lobby
                     (mkCreateTeamInput "g1" "Team C" "u-bob" None)
                     (mkGame "g1" "Quiz night" "u-host" 2 LOBBY)
                     (mkUser "u-bob" PLAYER) _ _ _ _) _);
      solve [discriminate | reflexivity].
  - destruct (createTeam_limit Scenario.genId Scenario.lobby1
                (mkCreateTeamInput "g1" " Team B " "u-bob" None)
                (mkGame "g1" "Quiz night" "u-host" 2 LOBBY)
                (mkUser "u-bob" PLAYER)) as (_ & _ & Hbelow);
      try solve [discriminate | reflexivity].
    destruct Hbelow as (t & db' & Hrun & Ho & _ & Hn & _);
      [vm_compute; reflexivity|].
    exists t, db'. split; [exact Hrun|]. split; [exact Ho|exact Hn].
Defined.

#[local] Instance order_le_total : Total order_le.
Proof. intros a b. unfold order_le. lia. Qed.

#[local] Instance order_le_trans : Transitive order_le.
Proof. intros a b c. unfold order_le. lia. Qed.

Lemma rank_in_cons t ts k :
  rank_in (t :: ts) k =
  if decide (team_id t = k) then Some 0%nat else S <$> rank_in ts k.
Proof.
  unfold rank_in. cbn [list_find].
  destruct (decide (team_id t = k)); [reflexivity|].
  destruct (list_find _ ts) as [[i x]|]; reflexivity.
Qed.

Lemma rank_in_None ts k : k ∉ team_id <$> ts -> rank_in ts k = None.
Proof.
  induction ts as [|t ts IH]; [reflexivity|].
  rewrite fmap_cons, not_elem_of_cons, rank_in_cons. intros [Hk Hts].
  rewrite decide_False by congruence. rewrite IH by assumption. reflexivity.
Qed.

Lemma rank_in_lookup ts i t :
  NoDup (team_id <$> ts) -> ts !! i = Some t ->
  rank_in ts (team_id t) = Some i.
Proof.
  intros Hnd Hi. unfold rank_in.
  destruct (list_find (fun t0 => team_id t0 = team_id t) ts)
    as [[j x]|] eqn:E.
  - apply list_find_Some in E as (Hj & Hx & _). cbn. f_equal.
    eapply (NoDup_lookup _ _ _ _ Hnd); rewrite list_lookup_fmap.
    + rewrite Hj. cbn. rewrite Hx. reflexivity.
    + rewrite Hi. reflexivity.
  - apply list_find_None in E. rewrite Forall_lookup in E.
    exfalso. apply (E i t Hi). reflexivity.
Qed.

Lemma renumbered_id k ts r : team_id (renumbered k ts r) = team_id r.
Proof. unfold renumbered. destruct (rank_in _ _); reflexivity. Qed.

Lemma renumbered_gameId k ts r :
  team_gameId (renumbered k ts r) = team_gameId r.
Proof. unfold renumbered. destruct (rank_in _ _); reflexivity. Qed.

(** One step of the loop followed by the rest is the loop. *)
Lemma renumbered_step k t ts r :
  team_id t ∉ team_id <$> ts ->
  renumbered (S k) ts
    (if decide (team_id r = team_id t)
     then set_order (Z.of_nat (k + 0) + 1) r else r)
  = renumbered k (t :: ts) r.
Proof.
  intros Hnd. unfold renumbered at 2. rewrite rank_in_cons.
  destruct (decide (team_id r = team_id t)) as [E|E].
  - rewrite decide_True by congruence.
    unfold renumbered. cbn [set_order team_id]. rewrite E.
    rewrite rank_in_None by assumption. reflexivity.
  - rewrite decide_False by congruence.
    unfold renumbered. destruct (rank_in ts (team_id r)) as [i|];
      [|reflexivity].
    cbn. do 2 f_equal. lia.
Qed.

Lemma team_rows_same db : set_rows prisma_team (db_teams db) db = db.
Proof. destruct db; reflexivity. Qed.

(** The re-ordering loop: every update goes through, and the table that
    results is the old one with each listed team renumbered. *)
Lemma promise_all_renumber ts : forall k db,
  NoDup (team_id <$> ts) ->
  (forall t, t ∈ ts ->
     is_Some (first_where (fun r => team_id r = team_id t) (db_teams db))) ->
  exists rs,
    promise_all
      (imap (fun index t =>
               update prisma_team (team_id t)
                 (set_order (Z.of_nat (k + index) + 1))) ts) db
    = (Ok rs, set_rows prisma_team (renumbered k ts <$> db_teams db) db).
Proof.
  induction ts as [|t ts IH]; intros k db Hnd Hin.
  - exists []. cbn [imap promise_all].
    rewrite (list_fmap_ext (renumbered k []) id (db_teams db))
      by (intros; reflexivity).
    rewrite list_fmap_id, team_rows_same. reflexivity.
  - rewrite fmap_cons, NoDup_cons in Hnd. destruct Hnd as [Ht Hnd].
    rewrite imap_cons. cbn [promise_all].
    destruct (Hin t) as [r Er]; [left|].
    rewrite (update_ok prisma_team (team_id t) _ db r Er).
    cbn [rows set_rows prisma_team rid].
    rewrite (imap_ext _ (fun index t0 =>
               update prisma_team (team_id t0)
                 (set_order (Z.of_nat (S k + index) + 1))))
      by (intros i x _; cbn; do 3 f_equal; lia).
    edestruct (IH (S k)) as [rs Hrs]; [exact Hnd| |eexists; rewrite Hrs].
    + intros t' Ht'. cbn [db_teams].
      rewrite first_where_update by reflexivity.
      destruct (Hin t') as [r' ->]; [by right|]. eexists; reflexivity.
    + f_equal. cbn. f_equal.
      unfold update_where. rewrite <- list_fmap_compose.
      apply list_fmap_ext. intros i x _. cbn.
      apply renumbered_step. assumption.
Qed.

Lemma StronglySorted_lookup_le {A} (R : relation A) (l : list A) i j x y :
  StronglySorted R l -> l !! i = Some x -> l !! j = Some y ->
  (i < j)%nat -> R x y.
Proof.
  intros Hl. revert i j. induction Hl as [|a l Hl IH Ha]; intros i j.
  - rewrite lookup_nil. discriminate.
  - destruct i as [|i], j as [|j]; cbn; intros Hi Hj Hlt; try lia.
    + injection Hi as <-. rewrite Forall_forall in Ha.
      apply Ha. eapply list_elem_of_lookup_2; eauto.
    + eapply (IH i j); eauto; lia.
Qed.

Lemma Sorted_seqZ (n : nat) : forall m, Sorted Z.le (seqZ m (Z.of_nat n)).
Proof.
  induction n as [|n IH]; intros m.
  - rewrite seqZ_nil by lia. constructor.
  - rewrite seqZ_cons by lia.
    replace (Z.pred (Z.of_nat (S n))) with (Z.of_nat n) by lia.
    constructor; [apply IH|].
    destruct n as [|n]; [rewrite seqZ_nil by lia; constructor|].
    rewrite seqZ_cons by lia. constructor. lia.
Qed.

(** Renumbering a duplicate-free list of teams along itself numbers it
    [k+1, k+2, ...]. *)
Lemma renumbered_self k (ts : list Team) :
  NoDup (team_id <$> ts) ->
  team_order <$> (renumbered k ts <$> ts)
  = seqZ (Z.of_nat k + 1) (Z.of_nat (length ts)).
Proof.
  intros Hnd. apply list_eq. intros i.
  rewrite !list_lookup_fmap.
  destruct (ts !! i) as [t|] eqn:E; cbn.
  - unfold renumbered. rewrite (rank_in_lookup ts i t Hnd E). cbn.
    symmetry. apply lookup_seqZ. split; [lia|].
    apply lookup_lt_Some in E. lia.
  - symmetry. apply lookup_seqZ_ge. apply lookup_ge_None in E. lia.
Qed.

Lemma NoDup_ids_filter (P : Team -> Prop) `{!forall t, Decision (P t)}
    (ts : list Team) :
  NoDup (team_id <$> ts) -> NoDup (team_id <$> filter P ts).
Proof.
  intros Hnd. apply (sublist_NoDup _ (team_id <$> ts)); [exact Hnd|].
  apply fmap_sublist, sublist_filter.
Qed.

(** What [removeTeam] leaves behind when it goes through. *)
Lemma removeTeam_run db teamId actorId team game :
  NoDup (team_id <$> db_teams db) ->
  first_where (fun t => team_id t = teamId) (db_teams db) = Some team ->
  first_where (fun g => game_id g = team_gameId team) (db_games db)
    = Some game ->
  game_status game = LOBBY ->
  game_hostId game = actorId ->
  let rest := delete_where (fun t => team_id t = teamId) (db_teams db) in
  let teams :=
    by_order (many_where (fun t => team_gameId t = team_gameId team) rest) in
  removeTeam teamId actorId db
  = (Ok tt, set_rows prisma_team (renumbered 0 teams <$> rest) db).
Proof.
  intros Hnd Et Eg Hs Hh rest teams.
  unfold removeTeam, ensureLobbyGame. run. rewrite Et. run. rewrite Eg. run.
  rewrite decide_False by (intros H; apply H, Hs). run.
  rewrite decide_False by (intros H; apply H, Hh). run.
  unfold delete. run. rewrite Et. run. fold rest. fold teams.
  set (db1 := mkDB _ _ _ _ _ _ _ _ _).
  assert (NoDup (team_id <$> rest)) as Hnd1.
  { apply NoDup_ids_filter, Hnd. }
  assert (teams ≡ₚ many_where (fun t => team_gameId t = team_gameId team) rest)
    as Hperm by apply merge_sort_Permutation.
  destruct (promise_all_renumber teams 0 db1) as [rs Hrs].
  - rewrite Hperm. apply NoDup_ids_filter, Hnd1.
  - intros t Ht. rewrite Hperm in Ht.
    apply list_elem_of_filter in Ht as [_ Ht].
    eapply first_where_is_Some; [exact Ht|reflexivity].
  - cbn [Nat.add] in Hrs. rewrite Hrs. reflexivity.
Qed.

(** C6.  With the team table keyed by id, [removeTeam] by the host of a
    LOBBY game goes through; the table keeps its other rows in place;
    [listTeams] of that game then reads the orders 1, 2, ..., N; and two
    remaining teams of the game whose orders were strictly ordered before
    are strictly ordered, the same way, after. *)
Theorem removeTeam_renumbers db teamId actorId team game :
  NoDup (team_id <$> db_teams db) ->
  first_where (fun t => team_id t = teamId) (db_teams db) = Some team ->
  first_where (fun g => game_id g = team_gameId team) (db_games db)
    = Some game ->
  game_status game = LOBBY ->
  game_hostId game = actorId ->
  exists db',
    removeTeam teamId actorId db = (Ok tt, db') /\
    team_id <$> db_teams db'
      = team_id <$> delete_where (fun t => team_id t = teamId) (db_teams db) /\
    (exists remaining,
       listTeams (team_gameId team) db' = (Ok remaining, db') /\
       team_order <$> remaining = seqZ 1 (Z.of_nat (length remaining))) /\
    (forall t1 t2,
       t1 ∈ db_teams db -> t2 ∈ db_teams db ->
       team_gameId t1 = team_gameId team ->
       team_gameId t2 = team_gameId team ->
       team_id t1 <> teamId -> team_id t2 <> teamId ->
       team_order t1 < team_order t2 ->
       exists t1' t2',
         first_where (fun t => team_id t = team_id t1) (db_teams db')
           = Some t1' /\
         first_where (fun t => team_id t = team_id t2) (db_teams db')
           = Some t2' /\
         team_order t1' < team_order t2').
Proof.
  intros Hnd Et Eg Hs Hh.
  pose proof (removeTeam_run db teamId actorId team game Hnd Et Eg Hs Hh)
    as Hrun. cbv zeta in Hrun.
  set (rest := delete_where (fun t => team_id t = teamId) (db_teams db)) in *.
  set (g := team_gameId team) in *.
  set (teams := by_order (many_where (fun t => team_gameId t = g) rest)) in *.
  assert (NoDup (team_id <$> rest)) as Hnd1.
  { apply NoDup_ids_filter, Hnd. }
  assert (teams ≡ₚ many_where (fun t => team_gameId t = g) rest) as Hperm
    by apply merge_sort_Permutation.
  assert (NoDup (team_id <$> teams)) as Hnd2.
  { rewrite Hperm. apply NoDup_ids_filter, Hnd1. }
  assert (StronglySorted order_le teams) as Hsorted
    by (apply (StronglySorted_merge_sort order_le)).
  eexists. split; [exact Hrun|].
  cbn [set_rows prisma_team db_teams]. split; [|split].
  - rewrite <- list_fmap_compose. apply list_fmap_ext.
    intros i x _. apply renumbered_id.
  - eexists. split.
    { unfold listTeams, bind, findMany, gets, ret.
      cbn [rows prisma_team db_teams set_rows]. reflexivity. }
    rewrite many_where_fmap
      by (intros r; rewrite renumbered_gameId; reflexivity).
    fold g.
    set (G := many_where (fun t => team_gameId t = g) rest) in *.
    assert (by_order (renumbered 0 teams <$> G) ≡ₚ renumbered 0 teams <$> teams)
      as Hp.
    { unfold by_order at 1. rewrite merge_sort_Permutation.
      apply fmap_Permutation. symmetry. exact Hperm. }
    assert (length (by_order (renumbered 0 teams <$> G)) = length teams)
      as Hlen by (rewrite Hp, length_fmap; reflexivity).
    rewrite Hlen.
    apply (Sorted_unique Z.le).
    + eapply Sorted_fmap; [|apply (Sorted_merge_sort order_le)].
      intros x y Hxy. exact Hxy.
    + apply Sorted_seqZ.
    + rewrite Hp. rewrite (renumbered_self 0 teams Hnd2). reflexivity.
  - intros t1 t2 H1 H2 Hg1 Hg2 Hid1 Hid2 Hlt.
    assert (forall t, t ∈ db_teams db -> team_gameId t = g ->
              team_id t <> teamId ->
              t ∈ rest /\ exists i, teams !! i = Some t /\
              first_where (fun r => team_id r = team_id t)
                (renumbered 0 teams <$> rest)
              = Some (set_order (Z.of_nat i + 1) t)) as Hfind.
    { intros t Ht Hg Hid.
      assert (t ∈ rest) as Hr
        by (apply list_elem_of_filter; split; assumption).
      split; [exact Hr|].
      assert (t ∈ teams) as Hts
        by (rewrite Hperm; apply list_elem_of_filter; split; assumption).
      apply list_elem_of_lookup in Hts as [i Hi]. exists i. split; [exact Hi|].
      rewrite first_where_fmap
        by (intros r; rewrite renumbered_id; reflexivity).
      rewrite (first_where_key team_id rest t Hnd1 Hr). cbn. f_equal.
      unfold renumbered. rewrite (rank_in_lookup teams i t Hnd2 Hi).
      reflexivity. }
    destruct (Hfind t1 H1 Hg1 Hid1) as (_ & i1 & Hi1 & E1).
    destruct (Hfind t2 H2 Hg2 Hid2) as (_ & i2 & Hi2 & E2).
    eexists _, _. split; [exact E1|]. split; [exact E2|].
    cbn [set_order team_order].
    destruct (decide (i1 < i2)%nat) as [Hi|Hi]; [lia|exfalso].
    destruct (decide (i1 = i2)) as [->|Hne].
    + rewrite Hi1 in Hi2. injection Hi2 as ->. lia.
    + assert (order_le t2 t1) as Hle
        by (eapply (StronglySorted_lookup_le order_le teams i2 i1);
              eauto; lia).
      unfold order_le in Hle. lia.
Qed.

Lemma removeTeam_renumbers_witness :
  exists db',
    removeTeam "tA" "u-host" Scenario.lobby3 = (Ok tt, db') /\
    exists remaining,
      listTeams "g1" db' = (Ok remaining, db') /\
      team_order <$> remaining = seqZ 1 (Z.of_nat (length remaining)).
Proof.
  destruct (removeTeam_renumbers Scenario.lobby3 "tA" "u-host"
              Scenario.teamA (mkGame "g1" "Quiz night" "u-host" 2 LOBBY))
    as (db' & Hrun & _ & Hlist & _).
  - apply (bool_decide_unpack _). vm_compute. exact I.
  - reflexivity.
  - reflexivity.
  - reflexivity.
  - reflexivity.
  - exists db'. split; [exact Hrun|exact Hlist].
Defined.

End TeamFacts.

(** ** The clue service *)

Section ClueFacts.

(** [loadClue] only reads. *)
Lemma loadClue_pure clueId db : snd (loadClue clueId db) = db.
Proof.
  unfold loadClue. run.
  repeat (case_first; [|reflexivity]). reflexivity.
Qed.

Lemma loadClue_Ok clueId db ctx :
  fst (loadClue clueId db) = Ok ctx -> loadClue clueId db = (Ok ctx, db).
Proof.
  intros H. rewrite (surjective_pairing (loadClue clueId db)).
  rewrite H, loadClue_pure. reflexivity.
Qed.

Lemma loadClue_exists db clueId :
  references_ok db ->
  (exists ctx, loadClue clueId db = (Ok ctx, db)) <->
  is_Some (first_where (fun c => clue_id c = clueId) (db_clues db)).
Proof.
  intros (Hc & Hk & Hr). unfold loadClue. run.
  destruct (first_where _ (db_clues db)) as [c|] eqn:Ec.
  2:{ split; [intros (? & [=])|intros [? [=]]]. }
  split; [eauto|intros _].
  rewrite Forall_forall in Hc. rewrite Forall_forall in Hk.
  rewrite Forall_forall in Hr.
  destruct (Hc c) as [k Ek]; [eapply first_where_Some, Ec|]. rewrite Ek. run.
  destruct (Hk k) as [r Er]; [eapply first_where_Some, Ek|]. rewrite Er. run.
  destruct (Hr r) as [g Eg]; [eapply first_where_Some, Er|]. rewrite Eg. run.
  eauto.
Qed.

(** C7.  For an existing clue and an existing actor [resetClueState]
    goes through, and the row it returns is AVAILABLE with no picking team
    and no resolver: a new row when the clue had none, a row rewritten in
    place otherwise, whatever it held.  With the table keyed by id, the
    row returned is the clue's, and it is the row then found for the
    clue. *)
Theorem resetClueState_available genId db clueId actorId ctx actor :
  fst (loadClue clueId db) = Ok ctx ->
  first_where (fun u => user_id u = actorId) (db_users db) = Some actor ->
  exists s db',
    resetClueState genId clueId actorId db = (Ok s, db') /\
    cs_state s = AVAILABLE /\
    cs_pickedByTeamId s = None /\
    cs_resolvedById s = None /\
    match first_where (fun x => cs_clueId x = clueId) (db_clueStates db) with
    | None => db_clueStates db' = (db_clueStates db ++ [s])%list
    | Some old => length (db_clueStates db') = length (db_clueStates db)
    end /\
    (NoDup (cs_id <$> db_clueStates db) ->
     cs_clueId s = clueId /\
     first_where (fun x => cs_clueId x = clueId) (db_clueStates db')
       = Some s).
Proof.
  intros Hclue Ea. apply loadClue_Ok in Hclue.
  unfold resetClueState. run. rewrite Hclue, Ea.
  destruct (first_where _ (db_clueStates db)) as [old|] eqn:Es.
  - destruct (first_where_Some _ _ _ Es) as [Hc Hin].
    destruct (first_where_is_Some (fun r => cs_id r = cs_id old)
                (db_clueStates db) old Hin eq_refl) as [r Er].
    rewrite (update_ok prisma_clueState (cs_id old) _ db r Er). run.
    eexists _, _. split; [reflexivity|].
    cbn [cs_state cs_pickedByTeamId cs_resolvedById cs_clueId cs_id]. run.
    split; [reflexivity|]. split; [reflexivity|]. split; [reflexivity|].
    split; [apply length_update_where|].
    intros Hnd. rewrite (first_where_key cs_id _ old Hnd Hin) in Er.
    injection Er as <-. split; [exact Hc|].
    rewrite first_where_update by reflexivity. rewrite Es.
    cbn [fmap option_fmap option_map].
    rewrite decide_True by reflexivity. reflexivity.
  - unfold create. run.
    eexists _, _. split; [reflexivity|].
    cbn [cs_state cs_pickedByTeamId cs_resolvedById cs_clueId cs_id]. run.
    split; [reflexivity|]. split; [reflexivity|]. split; [reflexivity|].
    split; [reflexivity|]. intros _. split; [reflexivity|].
    rewrite first_where_app, Es, first_where_cons.
    rewrite decide_True by reflexivity. reflexivity.
Qed.

Lemma resetClueState_available_witness :
  exists s db',
    resetClueState Scenario.genId "c1" "u-op" Scenario.answered
      = (Ok s, db') /\
    cs_state s = AVAILABLE /\
    cs_pickedByTeamId s = None /\
    cs_resolvedById s = None /\
    first_where (fun x => cs_clueId x = "c1") (db_clueStates db') = Some s.
Proof.
  destruct (resetClueState_available Scenario.genId Scenario.answered
              "c1" "u-op"
              (mkClueWithContext (mkClue "c1" "cat1" 200)
                 (mkCategory "cat1" "r1") (mkRound "r1" "g1" 1)
                 (mkGame "g1" "Quiz night" "u-host" 2 IN_PROGRESS))
              (mkUser "u-op" OPERATOR))
    as (s & db' & Hrun & Hs & Hp & Hr & _ & Hkey).
  - reflexivity.
  - reflexivity.
  - exists s, db'. repeat (split; [assumption|]).
    apply Hkey. apply (bool_decide_unpack _). vm_compute. exact I.
Defined.

(** C8.  With the clue's context in place, [updateClueState] goes through
    exactly when the clue exists, a user with the id [resolvedById] exists,
    whatever the role, and the clue has a state row; neither the row's
    state nor the new one matters.  It then rewrites the state and the
    resolver of a row in place, and in no case adds a row. *)
Theorem updateClueState_iff db input :
  references_ok db ->
  ((exists res db', updateClueState input db = (Ok res, db')) <->
   is_Some (first_where (fun c => clue_id c = uc_clueId input) (db_clues db)) /\
   is_Some (first_where (fun u => user_id u = uc_resolvedById input)
              (db_users db)) /\
   is_Some (first_where (fun s => cs_clueId s = uc_clueId input)
              (db_clueStates db))) /\
  (forall res db',
     updateClueState input db = (Ok res, db') ->
     cs_state (fst res) = uc_state input /\
     cs_resolvedById (fst res) = Some (uc_resolvedById input) /\
     (NoDup (cs_id <$> db_clueStates db) ->
      exists old,
        first_where (fun s => cs_clueId s = uc_clueId input)
          (db_clueStates db) = Some old /\
        fst res = mkClueState (cs_id old) (cs_clueId old) (cs_gameId old)
                    (uc_state input) (cs_pickedByTeamId old)
                    (Some (uc_resolvedById input)) /\
        first_where (fun s => cs_clueId s = uc_clueId input)
          (db_clueStates db') = Some (fst res))) /\
  length (db_clueStates (snd (updateClueState input db)))
    = length (db_clueStates db).
Proof.
  intros Hrefs.
  pose proof (loadClue_exists db (uc_clueId input) Hrefs) as Hload.
  unfold updateClueState. run.
  pose proof (loadClue_pure (uc_clueId input) db) as Hp.
  destruct (loadClue (uc_clueId input) db) as [[ctx|e] db1] eqn:El;
    cbn [snd] in Hp; subst db1.
  2:{ split; [split|split];
        [intros (? & ? & [=])| |intros ? ? [=]|reflexivity].
      intros (Hc & _). apply Hload in Hc as [? [=]]. }
  destruct (first_where _ (db_users db)) as [u|] eqn:Eu.
  2:{ split; [split|split];
        [intros (? & ? & [=])| |intros ? ? [=]|reflexivity].
      intros (_ & [? [=]] & _). }
  destruct (first_where _ (db_clueStates db)) as [old|] eqn:Es.
  2:{ split; [split|split];
        [intros (? & ? & [=])| |intros ? ? [=]|reflexivity].
      intros (_ & _ & [? [=]]). }
  destruct (first_where_Some _ _ _ Es) as [Hcl Hin].
  destruct (first_where_is_Some (fun r => cs_id r = cs_id old)
              (db_clueStates db) old Hin eq_refl) as [r Er].
  rewrite (update_ok prisma_clueState (cs_id old) _ db r Er). run.
  split; [split; [intros _|intros _; eauto]|split].
  - split; [apply Hload; eauto|]. split; eauto.
  - intros res db' [= <- <-]. cbn [fst cs_state cs_resolvedById]. run.
    split; [reflexivity|]. split; [reflexivity|].
    intros Hnd. rewrite (first_where_key cs_id _ old Hnd Hin) in Er.
    injection Er as <-. exists old. split; [reflexivity|].
    split; [reflexivity|].
    rewrite first_where_update by reflexivity. rewrite Es.
    cbn [fmap option_fmap option_map].
    rewrite decide_True by reflexivity. reflexivity.
  - cbn [snd]. run. apply length_update_where.
Qed.

Lemma updateClueState_iff_witness :
  exists res db',
    updateClueState (mkUpdateClueStateInput "c1" AVAILABLE "u-alice")
      Scenario.answered = (Ok res, db').
Proof.
  apply (updateClueState_iff Scenario.answered
           (mkUpdateClueStateInput "c1" AVAILABLE "u-alice")).
  - unfold references_ok. repeat split;
      apply (bool_decide_unpack _); vm_compute; exact I.
  - repeat split; eexists; reflexivity.
Defined.

End ClueFacts.

(** ** The response service *)

Section ResponseFacts.

Lemma ensureOperator_ok (operator : User) :
  user_role operator = OPERATOR \/ user_role operator = HOST ->
  ~ (user_role operator <> OPERATOR /\ user_role operator <> HOST).
Proof. intros [E|E] [H1 H2]; contradiction. Qed.

(** [validateResponse] returns when the operator, the response, its clue
    and, for a score that moves, its team are there; the three tables then
    carry the three writes. *)
Lemma validateResponse_run now input db operator response clue :
  first_where (fun u => user_id u = vr_operatorId input) (db_users db)
    = Some operator ->
  user_role operator = OPERATOR \/ user_role operator = HOST ->
  first_where (fun r => resp_id r = vr_responseId input) (db_responses db)
    = Some response ->
  first_where (fun c => clue_id c = resp_clueId response) (db_clues db)
    = Some clue ->
  let delta := scoreDelta (vr_awardedValue input) (vr_isCorrect input) clue in
  (delta <> 0 ->
   is_Some (first_where (fun t => team_id t = resp_teamId response)
              (db_teams db))) ->
  validateResponse now input db
  = (Ok (validated now input delta response),
     after_validate now input response delta db).
Proof.
  intros Eo Hrole Er Ec delta Ht.
  unfold validateResponse, ensureOperator. run. rewrite Eo.
  rewrite decide_False by (apply ensureOperator_ok, Hrole).
  rewrite Er, Ec. fold delta.
  unfold transaction, validateResponse_tx. run.
  rewrite (update_ok prisma_teamResponse (vr_responseId input) _ db
             response Er). run.
  unfold after_validate, teams_after, clueStates_after, responses_after.
  destruct (decide (delta <> 0)) as [Hd|Hd].
  - destruct (Ht Hd) as [team Et]. unfold update at 1. run. rewrite Et. run.
    destruct (first_where _ (db_clueStates db)) as [s|] eqn:Es;
      [|reflexivity].
    unfold update. run.
    destruct (first_where_Some _ _ _ Es) as [_ Hin].
    destruct (first_where_is_Some (fun r => cs_id r = cs_id s)
                (db_clueStates db) s Hin eq_refl) as [x ->].
    reflexivity.
  - run.
    destruct (first_where _ (db_clueStates db)) as [s|] eqn:Es;
      [|destruct db; reflexivity].
    unfold update. run.
    destruct (first_where_Some _ _ _ Es) as [_ Hin].
    destruct (first_where_is_Some (fun r => cs_id r = cs_id s)
                (db_clueStates db) s Hin eq_refl) as [x ->].
    destruct db; reflexivity.
Qed.

(** A [validateResponse] that throws leaves the database as it was. *)
Lemma validateResponse_throws now input db e db' :
  validateResponse now input db = (Err e, db') -> db' = db.
Proof.
  unfold validateResponse, ensureOperator. run.
  destruct (first_where _ (db_users db)) as [operator|]; [|congruence].
  destruct (decide _); [congruence|].
  destruct (first_where _ (db_responses db)) as [response|]; [|congruence].
  destruct (first_where _ (db_clues db)) as [clue|]; [|congruence].
  apply transaction_rollback.
Qed.

(** A [validateResponse] that returns found what it needs. *)
Lemma validateResponse_returns now input db r' db' :
  validateResponse now input db = (Ok r', db') ->
  exists operator response clue,
    first_where (fun u => user_id u = vr_operatorId input) (db_users db)
      = Some operator /\
    (user_role operator = OPERATOR \/ user_role operator = HOST) /\
    first_where (fun r => resp_id r = vr_responseId input) (db_responses db)
      = Some response /\
    first_where (fun c => clue_id c = resp_clueId response) (db_clues db)
      = Some clue /\
    (scoreDelta (vr_awardedValue input) (vr_isCorrect input) clue <> 0 ->
     is_Some (first_where (fun t => team_id t = resp_teamId response)
                (db_teams db))).
Proof.
  unfold validateResponse, ensureOperator. run.
  destruct (first_where _ (db_users db)) as [operator|] eqn:Eo; [|congruence].
  destruct (decide _) as [Hr|Hr]; [congruence|].
  destruct (first_where _ (db_responses db)) as [response|] eqn:Er;
    [|congruence].
  destruct (first_where _ (db_clues db)) as [clue|] eqn:Ec; [|congruence].
  set (delta := scoreDelta _ _ _).
  intros Hrun. exists operator, response, clue.
  split; [reflexivity|]. split.
  { destruct (user_role operator); auto.
    exfalso. apply Hr. split; discriminate. }
  split; [reflexivity|]. split; [exact Ec|]. fold delta. intros Hd.
  destruct (first_where (fun t => team_id t = resp_teamId response)
              (db_teams db)) as [team|] eqn:Et; [eauto|exfalso].
  revert Hrun. unfold transaction, validateResponse_tx. run.
  rewrite (update_ok prisma_teamResponse (vr_responseId input) _ db
             response Er). run.
  rewrite decide_True by assumption.
  unfold update at 1. run. rewrite Et. discriminate.
Qed.

(** C2.  For an operator or host and an existing response, whose clue
    and team rows are there, [validateResponse] returns; the delta is the
    awarded value when one is given, else the clue's value, negated for a
    wrong answer; the team's score moves by the delta and no other team
    moves; the response row then holds [isCorrect] and the delta as
    [awardedValue].  The two numbers written, the delta and the new score,
    are taken to be ones their columns hold. *)
Theorem validateResponse_score now input db operator response clue team :
  first_where (fun u => user_id u = vr_operatorId input) (db_users db)
    = Some operator ->
  user_role operator = OPERATOR \/ user_role operator = HOST ->
  first_where (fun r => resp_id r = vr_responseId input) (db_responses db)
    = Some response ->
  first_where (fun c => clue_id c = resp_clueId response) (db_clues db)
    = Some clue ->
  first_where (fun t => team_id t = resp_teamId response) (db_teams db)
    = Some team ->
  let delta :=
    match vr_awardedValue input with
    | Some awardedValue => awardedValue
    | None => if vr_isCorrect input then clue_value clue
              else - clue_value clue
    end in
  int_column delta ->
  int_column (team_score team + delta) ->
  exists r' db',
    validateResponse now input db = (Ok r', db') /\
    (exists team',
       first_where (fun t => team_id t = resp_teamId response) (db_teams db')
         = Some team' /\
       team_score team' = team_score team + delta) /\
    (forall k, k <> resp_teamId response ->
       first_where (fun t => team_id t = k) (db_teams db')
       = first_where (fun t => team_id t = k) (db_teams db)) /\
    first_where (fun r => resp_id r = vr_responseId input) (db_responses db')
      = Some r' /\
    resp_isCorrect r' = Some (vr_isCorrect input) /\
    resp_awardedValue r' = Some delta.
Proof.
  intros Eo Hrole Er Ec Et delta _ _.
  assert (delta = scoreDelta (vr_awardedValue input) (vr_isCorrect input) clue)
    as Hdelta by (unfold delta, scoreDelta; destruct (vr_awardedValue input);
                  reflexivity).
  rewrite Hdelta. clear Hdelta delta.
  eexists _, _. split.
  { apply (validateResponse_run now input db operator response clue);
      try assumption. intros _. rewrite Et. eauto. }
  unfold after_validate, teams_after, responses_after. run.
  set (delta := scoreDelta _ _ _).
  split; [|split; [|split; [|split; reflexivity]]].
  - destruct (decide (delta <> 0)) as [Hd|Hd].
    + eexists. split.
      * apply first_where_update_same; [reflexivity|exact Et].
      * reflexivity.
    + exists team. split; [exact Et|]. lia.
  - intros k Hk. destruct (decide (delta <> 0)); [|reflexivity].
    apply first_where_update_other; [reflexivity|exact Hk].
  - apply first_where_update_same; [reflexivity|exact Er].
Qed.

Lemma validateResponse_score_witness :
  exists r' db' team',
    validateResponse 17 (mkValidateResponseInput "a1" false None "u-op")
      Scenario.answered = (Ok r', db') /\
    first_where (fun t => team_id t = "tA") (db_teams db') = Some team' /\
    team_score team' = 0 + - 200.
Proof.
  destruct (validateResponse_score 17
              (mkValidateResponseInput "a1" false None "u-op")
              Scenario.answered (mkUser "u-op" OPERATOR)
              (mkTeamResponse "a1" "tA" "c1" "u-alice" "What is Rocq?"
                 None None None None)
              (mkClue "c1" "cat1" 200) Scenario.teamA)
    as (r' & db' & Hrun & (team' & Et & Hs) & _).
  - reflexivity.
  - left. reflexivity.
  - reflexivity.
  - reflexivity.
  - reflexivity.
  - unfold int_column. cbn. lia.
  - unfold int_column. cbn. lia.
  - exists r', db', team'. split; [exact Hrun|]. split; [exact Et|exact Hs].
Defined.

(** C9.  [validateResponse] does not ask whether the response has been
    validated before: on any response, validated or not, two calls in a
    row with [isCorrect] true and no awarded value both return, and the
    team's score ends two clue values higher.  The numbers written, the
    clue's value and the score after each call, are taken to be ones their
    columns hold. *)
Theorem validateResponse_twice now1 now2 db responseId operatorId
    operator response clue team :
  first_where (fun u => user_id u = operatorId) (db_users db)
    = Some operator ->
  user_role operator = OPERATOR \/ user_role operator = HOST ->
  first_where (fun r => resp_id r = responseId) (db_responses db)
    = Some response ->
  first_where (fun c => clue_id c = resp_clueId response) (db_clues db)
    = Some clue ->
  first_where (fun t => team_id t = resp_teamId response) (db_teams db)
    = Some team ->
  int_column (clue_value clue) ->
  int_column (team_score team + clue_value clue) ->
  int_column (team_score team + 2 * clue_value clue) ->
  let input := mkValidateResponseInput responseId true None operatorId in
  exists r1 db1 r2 db2 team2,
    validateResponse now1 input db = (Ok r1, db1) /\
    resp_isCorrect r1 = Some true /\
    validateResponse now2 input db1 = (Ok r2, db2) /\
    first_where (fun t => team_id t = resp_teamId response) (db_teams db2)
      = Some team2 /\
    team_score team2 = team_score team + 2 * clue_value clue.
Proof.
  intros Eo Hrole Er Ec Et _ _ _ input.
  assert (scoreDelta (vr_awardedValue input) (vr_isCorrect input) clue
          = clue_value clue) as Hdelta by reflexivity.
  set (delta := clue_value clue) in *.
  (* the first call *)
  pose proof (validateResponse_run now1 input db operator response clue
                Eo Hrole Er Ec) as Hrun1.
  cbv zeta in Hrun1. rewrite Hdelta in Hrun1.
  assert (is_Some (first_where (fun t => team_id t = resp_teamId response)
                     (db_teams db))) as Hteam by (rewrite Et; eauto).
  specialize (Hrun1 (fun _ => Hteam)).
  set (r1 := validated now1 input delta response) in *.
  set (db1 := after_validate now1 input response delta db) in *.
  assert (first_where (fun r => resp_id r = responseId) (db_responses db1)
          = Some r1) as Er1
    by (apply first_where_update_same; [reflexivity|exact Er]).
  assert (exists team1,
            first_where (fun t => team_id t = resp_teamId response)
              (db_teams db1) = Some team1 /\
            team_score team1 = team_score team + delta) as (team1 & Et1 & Hs1).
  { unfold db1, after_validate, teams_after. cbn [db_teams].
    destruct (decide (delta <> 0)) as [Hd|Hd].
    - eexists. split;
        [apply first_where_update_same; [reflexivity|exact Et]|reflexivity].
    - exists team. split; [exact Et|lia]. }
  (* the second call, on the response the first one has validated *)
  pose proof (validateResponse_run now2 input db1 operator r1 clue
                Eo Hrole Er1 Ec) as Hrun2.
  cbv zeta in Hrun2. rewrite Hdelta in Hrun2.
  assert (is_Some (first_where (fun t => team_id t = resp_teamId response)
                     (db_teams db1))) as Hteam1 by (rewrite Et1; eauto).
  specialize (Hrun2 (fun _ => Hteam1)).
  eexists r1, db1, _, _.
  assert (exists team2,
            first_where (fun t => team_id t = resp_teamId response)
              (db_teams (after_validate now2 input r1 delta db1))
              = Some team2 /\
            team_score team2 = team_score team1 + delta)
    as (team2 & Et2 & Hs2).
  { unfold after_validate at 1, teams_after. cbn [db_teams resp_teamId r1 validated].
    destruct (decide (delta <> 0)) as [Hd|Hd].
    - eexists. split;
        [apply first_where_update_same; [reflexivity|exact Et1]|reflexivity].
    - exists team1. split; [exact Et1|lia]. }
  exists team2. split; [exact Hrun1|]. split; [reflexivity|].
  split; [exact Hrun2|]. split; [exact Et2|]. lia.
Qed.

Lemma validateResponse_twice_witness :
  exists r1 db1 r2 db2 team2,
    validateResponse 17 (mkValidateResponseInput "a1" true None "u-op")
      Scenario.answered = (Ok r1, db1) /\
    validateResponse 18 (mkValidateResponseInput "a1" true None "u-op")
      db1 = (Ok r2, db2) /\
    first_where (fun t => team_id t = "tA") (db_teams db2) = Some team2 /\
    team_score team2 = 0 + 2 * 200.
Proof.
  destruct (validateResponse_twice 17 18 Scenario.answered "a1" "u-op"
              (mkUser "u-op" OPERATOR)
              (mkTeamResponse "a1" "tA" "c1" "u-alice" "What is Rocq?"
                 None None None None)
              (mkClue "c1" "cat1" 200) Scenario.teamA)
    as (r1 & db1 & r2 & db2 & team2 & H1 & _ & H2 & Ht & Hs).
  - reflexivity.
  - left. reflexivity.
  - reflexivity.
  - reflexivity.
  - reflexivity.
  - unfold int_column. cbn. lia.
  - unfold int_column. cbn. lia.
  - unfold int_column. cbn. lia.
  - exists r1, db1, r2, db2, team2. repeat (split; [assumption|]). exact Hs.
Defined.

(** C3.  [validateResponse] is all or nothing.  When it throws, the
    database is the one it was called on.  When it returns, the response
    row holds the verdict, the team carries the delta whenever the delta
    is not zero, and the clue's state row, when the clue has one, is
    CORRECT or INCORRECT with the operator as resolver.  On the game night
    whose response has lost its team, the three writes run on their own
    throw after the response has been rewritten; wrapped in the
    transaction, [validateResponse] throws the same error and nothing is
    written. *)
Theorem validateResponse_atomic now input db :
  (forall e db', validateResponse now input db = (Err e, db') -> db' = db) /\
  (forall r' db',
     validateResponse now input db = (Ok r', db') ->
     exists response clue,
       first_where (fun r => resp_id r = vr_responseId input)
         (db_responses db) = Some response /\
       first_where (fun c => clue_id c = resp_clueId response) (db_clues db)
         = Some clue /\
       let delta :=
         scoreDelta (vr_awardedValue input) (vr_isCorrect input) clue in
       r' = validated now input delta response /\
       first_where (fun r => resp_id r = vr_responseId input)
         (db_responses db') = Some r' /\
       (delta <> 0 ->
        exists team,
          first_where (fun t => team_id t = resp_teamId response)
            (db_teams db) = Some team /\
          first_where (fun t => team_id t = resp_teamId response)
            (db_teams db') = Some (increment_score delta team)) /\
       (delta = 0 -> db_teams db' = db_teams db) /\
       match first_where (fun s => cs_clueId s = resp_clueId response)
               (db_clueStates db) with
       | Some s =>
           first_where (fun s => cs_clueId s = resp_clueId response)
             (db_clueStates db') = Some (resolved input s)
       | None => db_clueStates db' = db_clueStates db
       end) /\
  (let input0 := mkValidateResponseInput "a1" true None "u-op" in
   let response0 :=
     mkTeamResponse "a1" "tA" "c1" "u-alice" "What is Rocq?"
       None None None None in
   validateResponse 17 input0 Scenario.orphaned
     = (Err "Record to update not found.", Scenario.orphaned) /\
   exists partial,
     validateResponse_tx 17 input0 response0 200 Scenario.orphaned
       = (Err "Record to update not found.", partial) /\
     db_responses partial = [validated 17 input0 200 response0]).
Proof.
  split; [|split].
  - intros e db'. apply validateResponse_throws.
  - intros r' db' Hrun.
    destruct (validateResponse_returns now input db r' db' Hrun)
      as (operator & response & clue & Eo & Hrole & Er & Ec & Ht).
    pose proof (validateResponse_run now input db operator response clue
                  Eo Hrole Er Ec Ht) as Hrun'.
    rewrite Hrun in Hrun'. injection Hrun' as -> ->.
    exists response, clue. split; [exact Er|]. split; [exact Ec|].
    cbv zeta. set (delta := scoreDelta _ _ _) in *.
    unfold after_validate, teams_after, clueStates_after, responses_after.
    run. split; [reflexivity|]. split.
    { apply first_where_update_same; [reflexivity|exact Er]. }
    split; [|split].
    + intros Hd. destruct (Ht Hd) as [team Et]. exists team.
      split; [exact Et|]. rewrite decide_True by assumption.
      apply first_where_update_same; [reflexivity|exact Et].
    + intros Hd. rewrite decide_False by (intros H; apply H, Hd).
      reflexivity.
    + destruct (first_where _ (db_clueStates db)) as [s|] eqn:Es;
        [|reflexivity].
      rewrite first_where_update by reflexivity. rewrite Es. cbn.
      rewrite decide_True by reflexivity. reflexivity.
  - cbv zeta. split; [vm_compute; reflexivity|].
    eexists. split; vm_compute; reflexivity.
Qed.

Lemma validateResponse_atomic_witness :
  (forall e db',
     validateResponse 17 (mkValidateResponseInput "a1" true None "u-op")
       Scenario.orphaned = (Err e, db') ->
     db' = Scenario.orphaned) /\
  exists e,
    validateResponse 17 (mkValidateResponseInput "a1" true None "u-op")
      Scenario.orphaned = (Err e, Scenario.orphaned).
Proof.
  split.
  - apply (validateResponse_atomic 17
             (mkValidateResponseInput "a1" true None "u-op")
             Scenario.orphaned).
  - eexists. vm_compute. reflexivity.
Defined.

End ResponseFacts.

(** ** The id generator of the game night *)

Lemma zeros_length n : String.length (Scenario.zeros n) = n.
Proof.
  induction n as [|n IH]; [reflexivity|]. cbn. rewrite IH. reflexivity.
Qed.

Lemma scenario_genId_fresh used : Scenario.genId used ∉ used.
Proof.
  intros Hin.
  assert (String.length (Scenario.genId used) ∈ String.length <$> used)
    as Hlen by (apply list_elem_of_fmap; eauto).
  apply max_list_elem_of_le in Hlen.
  unfold Scenario.genId in Hlen. cbn [String.length] in Hlen.
  rewrite zeros_length in Hlen. lia.
Qed.

(** ** The single-claim gate *)

Section GateFacts.

Lemma taken_in_update clueId (Q : ClueState -> Prop)
    `{!forall s, Decision (Q s)} (f : ClueState -> ClueState) states :
  (forall s, cs_clueId (f s) = cs_clueId s) ->
  (forall s, cs_state (f s) <> AVAILABLE) ->
  taken_in clueId states -> taken_in clueId (update_where Q f states).
Proof.
  intros Hc Hs (s & Es & Hne). unfold taken_in.
  rewrite first_where_update by (intros r; rewrite Hc; reflexivity).
  rewrite Es. cbn. destruct (decide (Q s)); eauto.
Qed.

(** With the table keyed by id, rewriting the row of one clue leaves the
    row found for another clue as it is. *)
Lemma taken_in_update_other clueId k (x : ClueState)
    (f : ClueState -> ClueState) states :
  NoDup (cs_id <$> states) ->
  (forall s, cs_clueId (f s) = cs_clueId s) ->
  first_where (fun s => cs_clueId s = k) states = Some x ->
  k <> clueId ->
  taken_in clueId states ->
  taken_in clueId (update_where (fun s => cs_id s = cs_id x) f states).
Proof.
  intros Hnd Hc Ex Hk (s & Es & Hne). exists s. split; [|exact Hne].
  rewrite first_where_update by (intros r; rewrite Hc; reflexivity).
  rewrite Es. cbn.
  destruct (first_where_Some _ _ _ Ex) as [Hxk Hx].
  destruct (first_where_Some _ _ _ Es) as [Hsc Hs].
  rewrite decide_False; [reflexivity|].
  intros Hid. apply Hk. rewrite <- Hxk, <- Hsc. f_equal.
  symmetry. exact (NoDup_key_eq cs_id states s x Hnd Hs Hx Hid).
Qed.

Lemma taken_in_app clueId states more :
  taken_in clueId states -> taken_in clueId (states ++ more).
Proof.
  intros (s & Es & Hne). exists s. rewrite first_where_app, Es. auto.
Qed.

Lemma ids_update_where (Q : ClueState -> Prop) `{!forall s, Decision (Q s)}
    (f : ClueState -> ClueState) states :
  (forall s, cs_id (f s) = cs_id s) ->
  cs_id <$> update_where Q f states = cs_id <$> states.
Proof.
  intros Hf. unfold update_where. rewrite <- list_fmap_compose.
  apply list_fmap_ext. intros i s _. cbn.
  destruct (decide (Q s)); [apply Hf|reflexivity].
Qed.

Lemma ids_create (genId : list string -> string) states (s : ClueState) :
  (forall used, genId used ∉ used) ->
  cs_id s = genId (cs_id <$> states) ->
  NoDup (cs_id <$> states) -> NoDup (cs_id <$> (states ++ [s])%list).
Proof.
  intros Hfresh Hid Hnd. rewrite fmap_app. apply NoDup_app.
  split; [exact Hnd|]. split.
  - intros k Hk Hin. cbn in Hin. apply list_elem_of_singleton in Hin.
    subst k. rewrite Hid in Hk. exact (Hfresh _ Hk).
  - cbn. apply NoDup_singleton.
Qed.

(** On a taken clue [selectClue] throws, whoever calls, and writes nothing;
    a call that passes the checks made before the gate is thrown out by
    the gate. *)
Lemma selectClue_taken genId db clueId teamId actorId :
  taken clueId db ->
  (exists e,
     selectClue genId (mkSelectClueInput clueId teamId actorId) db
       = (Err e, db)) /\
  (forall ctx team mem,
     fst (loadClue clueId db) = Ok ctx ->
     game_status (cwc_game ctx) = IN_PROGRESS ->
     first_where (fun t => team_id t = teamId) (db_teams db) = Some team ->
     team_gameId team = round_gameId (cwc_round ctx) ->
     first_where (fun m => member_teamId m = teamId /\ member_userId m = actorId)
       (db_members db) = Some mem ->
     selectClue genId (mkSelectClueInput clueId teamId actorId) db
       = (Err "Clue has already been taken", db)).
Proof.
  intros (s & Es & Hne).
  unfold selectClue, ensureGameInProgress. cbn [sc_clueId sc_teamId sc_actorId].
  run.
  pose proof (loadClue_pure clueId db) as Hp.
  destruct (loadClue clueId db) as [[ctx|e] db1] eqn:El;
    cbn [snd] in Hp; subst db1.
  2:{ split; [eauto|]. intros ? ? ? [=]. }
  run.
  destruct (decide (game_status (cwc_game ctx) <> IN_PROGRESS)) as [Hg|Hg].
  { split; [eauto|]. intros ? ? ? [= <-] ?. contradiction. }
  run. rewrite Es.
  destruct (first_where _ (db_teams db)) as [team|] eqn:Et.
  2:{ split; [eauto|]. intros ? ? ? _ _ [=]. }
  destruct (decide (team_gameId team <> round_gameId (cwc_round ctx)))
    as [Hsame|Hsame].
  { split; [eauto|]. intros ? ? ? [= <-] _ [= <-] ?. contradiction. }
  destruct (first_where _ (db_members db)) as [mem|] eqn:Em.
  2:{ split; [eauto|]. intros ? ? ? _ _ _ _ [=]. }
  rewrite decide_True by assumption. split; [eauto|]. reflexivity.
Qed.

Section Keeps.
Variable genId : list string -> string.
Hypothesis genId_fresh : forall used, genId used ∉ used.
Variable clueId : string.

Lemma selectClue_keeps input db :
  gate_shut clueId db -> gate_shut clueId (snd (selectClue genId input db)).
Proof.
  intros Hgate. pose proof Hgate as [Hnd Ht].
  unfold selectClue, ensureGameInProgress. run.
  pose proof (loadClue_pure (sc_clueId input) db) as Hp.
  destruct (loadClue (sc_clueId input) db) as [[ctx|e] db1] eqn:El;
    cbn [snd] in Hp; subst db1; [|exact Hgate].
  run. destruct (decide _); [exact Hgate|]. run.
  destruct (first_where _ (db_teams db)) as [team|]; [|exact Hgate].
  destruct (decide _); [exact Hgate|].
  destruct (first_where _ (db_members db)) as [mem|]; [|exact Hgate].
  destruct (first_where _ (db_clueStates db)) as [state|] eqn:Es.
  - destruct (decide _); [exact Hgate|].
    unfold update. run.
    destruct (first_where (fun r => cs_id r = cs_id state)
                (db_clueStates db)); [|exact Hgate].
    cbn [snd]. unfold gate_shut, taken. run. split.
    + rewrite ids_update_where by reflexivity. exact Hnd.
    + apply taken_in_update; [reflexivity|discriminate|exact Ht].
  - unfold create. run. cbn [snd]. unfold gate_shut, taken. run. split.
    + apply (ids_create genId); [exact genId_fresh|reflexivity|exact Hnd].
    + apply taken_in_app, Ht.
Qed.

Lemma updateClueState_keeps input db :
  ~ (uc_clueId input = clueId /\ uc_state input = AVAILABLE) ->
  gate_shut clueId db -> gate_shut clueId (snd (updateClueState input db)).
Proof.
  intros Hfree Hgate. pose proof Hgate as [Hnd Ht].
  unfold updateClueState. run.
  pose proof (loadClue_pure (uc_clueId input) db) as Hp.
  destruct (loadClue (uc_clueId input) db) as [[ctx|e] db1] eqn:El;
    cbn [snd] in Hp; subst db1; [|exact Hgate].
  run.
  destruct (first_where _ (db_users db)) as [u|]; [|exact Hgate].
  destruct (first_where _ (db_clueStates db)) as [x|] eqn:Ex;
    [|exact Hgate].
  unfold update. run.
  destruct (first_where (fun r => cs_id r = cs_id x) (db_clueStates db));
    [|exact Hgate].
  cbn [snd]. unfold gate_shut, taken. run. split.
  - rewrite ids_update_where by reflexivity. exact Hnd.
  - destruct (decide (uc_clueId input = clueId)) as [Hk|Hk].
    + apply taken_in_update; [reflexivity| |exact Ht].
      intros s Hs. apply Hfree. split; [exact Hk|exact Hs].
    + eapply taken_in_update_other; eauto.
Qed.

Lemma resetClueState_keeps k actorId db :
  k <> clueId ->
  gate_shut clueId db ->
  gate_shut clueId (snd (resetClueState genId k actorId db)).
Proof.
  intros Hk Hgate. pose proof Hgate as [Hnd Ht].
  unfold resetClueState. run.
  pose proof (loadClue_pure k db) as Hp.
  destruct (loadClue k db) as [[ctx|e] db1] eqn:El;
    cbn [snd] in Hp; subst db1; [|exact Hgate].
  run.
  destruct (first_where _ (db_users db)) as [u|]; [|exact Hgate].
  destruct (first_where _ (db_clueStates db)) as [x|] eqn:Ex.
  - unfold update. run.
    destruct (first_where (fun r => cs_id r = cs_id x) (db_clueStates db));
      [|exact Hgate].
    cbn [snd]. unfold gate_shut, taken. run. split.
    + rewrite ids_update_where by reflexivity. exact Hnd.
    + eapply taken_in_update_other; eauto.
  - unfold create. run. cbn [snd]. unfold gate_shut, taken. run. split.
    + apply (ids_create genId); [exact genId_fresh|reflexivity|exact Hnd].
    + apply taken_in_app, Ht.
Qed.

Lemma validateResponse_keeps now input db :
  gate_shut clueId db ->
  gate_shut clueId (snd (validateResponse now input db)).
Proof.
  intros Hgate. pose proof Hgate as [Hnd Ht].
  destruct (validateResponse now input db) as [[r'|e] db'] eqn:Hrun.
  - destruct (validateResponse_returns now input db r' db' Hrun)
      as (operator & response & clue & Eo & Hrole & Er & Ec & Hteam).
    rewrite (validateResponse_run now input db operator response clue
               Eo Hrole Er Ec Hteam) in Hrun.
    injection Hrun as _ <-. cbn [snd].
    unfold gate_shut, taken, after_validate, clueStates_after. run.
    destruct (first_where _ (db_clueStates db)); [|exact Hgate]. split.
    + rewrite ids_update_where by reflexivity. exact Hnd.
    + apply taken_in_update; [reflexivity| |exact Ht].
      intros s. cbn. destruct (vr_isCorrect input); discriminate.
  - apply validateResponse_throws in Hrun. subst db'. exact Hgate.
Qed.

Lemma submitResponse_keeps input db :
  gate_shut clueId db ->
  gate_shut clueId (snd (submitResponse genId input db)).
Proof.
  intros Hgate. unfold submitResponse. run.
  destruct (first_where _ (db_members db)); exact Hgate.
Qed.

Lemma adjustScore_keeps input db :
  gate_shut clueId db -> gate_shut clueId (snd (adjustScore input db)).
Proof.
  intros Hgate. unfold adjustScore, ensureHostOrOperator. run.
  destruct (first_where _ (db_teams db)) as [team|] eqn:Et; [|exact Hgate].
  destruct (first_where _ (db_games db)) as [game|]; [|exact Hgate].
  destruct (first_where _ (db_users db)) as [actor|]; [|exact Hgate].
  destruct (decide (game_hostId game <> as_actorId input));
    [destruct (decide _); [exact Hgate|]|];
    run; unfold update; run; rewrite Et; exact Hgate.
Qed.

Lemma perform_all_keeps calls : forall db,
  Forall (fun c => ~ frees clueId c) calls ->
  gate_shut clueId db -> gate_shut clueId (perform_all genId calls db).
Proof.
  induction calls as [|c calls IH]; intros db Hcalls Hgate; [exact Hgate|].
  apply Forall_cons in Hcalls as [Hc Hcalls].
  apply IH; [exact Hcalls|]. destruct c; cbn [perform frees] in *.
  - apply selectClue_keeps, Hgate.
  - apply updateClueState_keeps; assumption.
  - apply resetClueState_keeps; assumption.
  - apply submitResponse_keeps, Hgate.
  - apply validateResponse_keeps, Hgate.
  - apply adjustScore_keeps, Hgate.
Qed.

End Keeps.

(** The first selection of a clue adds its state row. *)
Lemma selectClue_creates genId db input ctx team mem :
  fst (loadClue (sc_clueId input) db) = Ok ctx ->
  game_status (cwc_game ctx) = IN_PROGRESS ->
  first_where (fun s => cs_clueId s = sc_clueId input) (db_clueStates db)
    = None ->
  first_where (fun t => team_id t = sc_teamId input) (db_teams db)
    = Some team ->
  team_gameId team = round_gameId (cwc_round ctx) ->
  first_where (fun m => member_teamId m = sc_teamId input /\
                        member_userId m = sc_actorId input)
    (db_members db) = Some mem ->
  let s := mkClueState (genId (cs_id <$> db_clueStates db)) (sc_clueId input)
             (round_gameId (cwc_round ctx)) PENDING
             (Some (sc_teamId input)) None in
  selectClue genId input db
  = (Ok s, set_rows prisma_clueState (db_clueStates db ++ [s]) db).
Proof.
  intros Hclue Hg Es Et Hsame Em. apply loadClue_Ok in Hclue.
  unfold selectClue, ensureGameInProgress. run. rewrite Hclue.
  rewrite decide_False by (intros H; apply H, Hg).
  rewrite Et, Es. rewrite decide_False by (intros H; apply H, Hsame).
  rewrite Em. reflexivity.
Qed.

(** C1, as the code has it.  The store hands out new ids and keys the
    state table by id.  On a clue with no state row, in a game in
    progress, a member of a team of that game selects the clue:
    [selectClue] adds the row, PENDING and picked by the team.  From then
    on, through any calls other than a [resetClueState] of the clue and an
    [updateClueState] of the clue to AVAILABLE, a [selectClue] on the clue
    throws and writes nothing, for any team and any actor; one that passes
    the checks on game, team and membership throws the already-taken
    error. *)
Theorem selectClue_single_claim genId db input ctx team mem :
  (forall used, genId used ∉ used) ->
  NoDup (cs_id <$> db_clueStates db) ->
  fst (loadClue (sc_clueId input) db) = Ok ctx ->
  game_status (cwc_game ctx) = IN_PROGRESS ->
  first_where (fun s => cs_clueId s = sc_clueId input) (db_clueStates db)
    = None ->
  first_where (fun t => team_id t = sc_teamId input) (db_teams db)
    = Some team ->
  team_gameId team = round_gameId (cwc_round ctx) ->
  first_where (fun m => member_teamId m = sc_teamId input /\
                        member_userId m = sc_actorId input)
    (db_members db) = Some mem ->
  exists s db1,
    selectClue genId input db = (Ok s, db1) /\
    cs_state s = PENDING /\
    cs_pickedByTeamId s = Some (sc_teamId input) /\
    cs_clueId s = sc_clueId input /\
    db_clueStates db1 = (db_clueStates db ++ [s])%list /\
    first_where (fun s => cs_clueId s = sc_clueId input) (db_clueStates db1)
      = Some s /\
    forall (calls : list call) teamId' actorId',
      Forall (fun c => ~ frees (sc_clueId input) c) calls ->
      let db2 := perform_all genId calls db1 in
      let again := mkSelectClueInput (sc_clueId input) teamId' actorId' in
      (exists e, selectClue genId again db2 = (Err e, db2)) /\
      (forall ctx' team' mem',
         fst (loadClue (sc_clueId input) db2) = Ok ctx' ->
         game_status (cwc_game ctx') = IN_PROGRESS ->
         first_where (fun t => team_id t = teamId') (db_teams db2)
           = Some team' ->
         team_gameId team' = round_gameId (cwc_round ctx') ->
         first_where (fun m => member_teamId m = teamId' /\
                               member_userId m = actorId')
           (db_members db2) = Some mem' ->
         selectClue genId again db2
           = (Err "Clue has already been taken", db2)).
Proof.
  intros Hfresh Hnd Hclue Hg Es Et Hsame Em.
  pose proof (selectClue_creates genId db input ctx team mem
                Hclue Hg Es Et Hsame Em) as Hrun.
  cbv zeta in Hrun. set (s := mkClueState _ _ _ _ _ _) in Hrun.
  exists s. eexists. split; [exact Hrun|]. run.
  split; [reflexivity|]. split; [reflexivity|]. split; [reflexivity|].
  split; [reflexivity|].
  assert (first_where (fun x => cs_clueId x = sc_clueId input)
            (db_clueStates db ++ [s]) = Some s) as Hfound.
  { rewrite first_where_app, Es, first_where_cons.
    rewrite decide_True by reflexivity. reflexivity. }
  split; [exact Hfound|].
  intros calls teamId' actorId' Hcalls. cbv zeta.
  apply selectClue_taken.
  apply (perform_all_keeps genId Hfresh (sc_clueId input) calls);
    [exact Hcalls|].
  split.
  - run. apply (ids_create genId); [exact Hfresh|reflexivity|exact Hnd].
  - exists s. split; [exact Hfound|discriminate].
Qed.

Lemma selectClue_single_claim_witness :
  exists s db1,
    selectClue Scenario.genId (mkSelectClueInput "c1" "tA" "u-alice")
      Scenario.playing = (Ok s, db1) /\
    cs_state s = PENDING /\
    cs_pickedByTeamId s = Some "tA" /\
    selectClue Scenario.genId (mkSelectClueInput "c1" "tB" "u-bob") db1
      = (Err "Clue has already been taken", db1).
Proof.
  destruct (selectClue_single_claim Scenario.genId Scenario.playing
              (mkSelectClueInput "c1" "tA" "u-alice")
              (mkClueWithContext (mkClue "c1" "cat1" 200)
                 (mkCategory "cat1" "r1") (mkRound "r1" "g1" 1)
                 (mkGame "g1" "Quiz night" "u-host" 2 IN_PROGRESS))
              Scenario.teamA (mkTeamMember "m1" "tA" "u-alice" true))
    as (s & db1 & Hrun & Hs & Hp & _ & _ & _ & Hgate).
  - exact scenario_genId_fresh.
  - constructor.
  - reflexivity.
  - reflexivity.
  - reflexivity.
  - reflexivity.
  - reflexivity.
  - reflexivity.
  - exists s, db1. split; [exact Hrun|]. split; [exact Hs|].
    split; [exact Hp|].
    destruct (Hgate [] "tB" "u-bob") as [_ Htaken]; [constructor|].
    cbn [perform_all foldl] in Htaken.
    injection Hrun as <- <-.
    apply (Htaken (mkClueWithContext (mkClue "c1" "cat1" 200)
                     (mkCategory "cat1" "r1") (mkRound "r1" "g1" 1)
                     (mkGame "g1" "Quiz night" "u-host" 2 IN_PROGRESS))
             Scenario.teamB (mkTeamMember "m2" "tB" "u-bob" true));
      reflexivity.
Defined.

(** C1, as the claim has it, fails twice over.  After team A has picked
    the clue, a team of another game is turned away with another error
    than the gate's; and with no reset, once a player has edited the
    state back to AVAILABLE through [updateClueState], team B picks the
    clue. *)
Lemma selectClue_gate_counterexample :
  exists s db1,
    selectClue Scenario.genId (mkSelectClueInput "c1" "tA" "u-alice")
      Scenario.two_games = (Ok s, db1) /\
    cs_state s = PENDING /\
    selectClue Scenario.genId (mkSelectClueInput "c1" "tZ" "u-bob") db1
      = (Err "Team and clue do not belong to the same game", db1) /\
    exists r db2 s' db3,
      updateClueState (mkUpdateClueStateInput "c1" AVAILABLE "u-bob") db1
        = (Ok r, db2) /\
      selectClue Scenario.genId (mkSelectClueInput "c1" "tB" "u-bob") db2
        = (Ok s', db3) /\
      cs_state s' = PENDING /\
      cs_pickedByTeamId s' = Some "tB".
Proof.
  eexists _, _. split; [vm_compute; reflexivity|].
  split; [reflexivity|]. split; [vm_compute; reflexivity|].
  eexists _, _, _, _. split; [vm_compute; reflexivity|].
  split; [vm_compute; reflexivity|]. split; reflexivity.
Qed.

End GateFacts.

(* ===================================================================== *)
(** * More of the services *)
(* ===================================================================== *)

(** ** Trimmed strings *)

Section TrimFacts.

Lemma trimEnd_cons_keep c r :
  Js.is_ws c = false ->
  Js.trimEnd (String c r) = String c (Js.trimEnd r).
Proof.
  intros Hc. cbn [Js.trimEnd]. rewrite Hc.
  destruct (Js.trimEnd r); reflexivity.
Qed.

Lemma trimEnd_step c r :
  Js.trimEnd (String c r) =
  match Js.trimEnd r with
  | EmptyString => if Js.is_ws c then EmptyString else String c EmptyString
  | r' => String c r'
  end.
Proof. reflexivity. Qed.

Lemma trimEnd_idem s : Js.trimEnd (Js.trimEnd s) = Js.trimEnd s.
Proof.
  induction s as [|c r IH]; [reflexivity|].
  rewrite trimEnd_step. destruct (Js.trimEnd r) as [|c' r'] eqn:E.
  - destruct (Js.is_ws c) eqn:Hc; [reflexivity|].
    rewrite trimEnd_step. cbn [Js.trimEnd]. rewrite Hc. reflexivity.
  - rewrite trimEnd_step, IH. reflexivity.
Qed.

Lemma trimStart_head s :
  Js.trimStart s = "" \/
  exists c r, Js.trimStart s = String c r /\ Js.is_ws c = false.
Proof.
  induction s as [|c r IH]; [left; reflexivity|].
  cbn [Js.trimStart]. destruct (Js.is_ws c) eqn:Hc; [exact IH|].
  right. eauto.
Qed.

(** [trim] removes all there is to remove. *)
Lemma trim_idem s : Js.trim (Js.trim s) = Js.trim s.
Proof.
  unfold Js.trim. destruct (trimStart_head s) as [->|(c & r & -> & Hc)];
    [reflexivity|].
  rewrite (trimEnd_cons_keep c r Hc). cbn [Js.trimStart]. rewrite Hc.
  rewrite <- (trimEnd_cons_keep c r Hc). apply trimEnd_idem.
Qed.

End TrimFacts.

(** ** Deleted rows *)

Section DeleteFacts.
Context {R : Type} (key : R -> string).

Lemma first_where_delete_same (k : string) (t : list R) :
  first_where (fun r => key r = k) (delete_where (fun r => key r = k) t)
  = None.
Proof.
  apply first_where_None, Forall_forall. intros r Hr.
  apply list_elem_of_filter in Hr as [Hne _]. exact Hne.
Qed.

Lemma first_where_delete_other (k k' : string) (t : list R) :
  k <> k' ->
  first_where (fun r => key r = k) (delete_where (fun r => key r = k') t)
  = first_where (fun r => key r = k) t.
Proof.
  intros Hk. unfold delete_where. induction t as [|x t IH]; [reflexivity|].
  rewrite filter_cons. destruct (decide (key x <> k')) as [Hx|Hx].
  - rewrite !first_where_cons. destruct (decide (key x = k)); auto.
  - apply dec_stable in Hx. rewrite first_where_cons.
    rewrite decide_False by congruence. exact IH.
Qed.

End DeleteFacts.

(** ** The game service, continued *)

Section GameMore.

(** What a [startGame] that returns has found and written. *)
Lemma startGame_returns db gameId actorId g' db' :
  startGame gameId actorId db = (Ok g', db') ->
  exists game,
    first_where (fun g => game_id g = gameId) (db_games db) = Some game /\
    game_hostId game = actorId /\
    game_status game = LOBBY /\
    g' = set_status IN_PROGRESS game /\
    db' = set_rows prisma_game
            (update_where (fun g => game_id g = gameId)
               (set_status IN_PROGRESS) (db_games db)) db.
Proof.
  unfold startGame, ensureHostAccess. run.
  destruct (first_where _ (db_games db)) as [game|] eqn:Eg; [|discriminate].
  destruct (decide (game_hostId game <> actorId)) as [Hh|Hh]; [discriminate|].
  apply dec_stable in Hh.
  destruct (decide (game_status game <> LOBBY)) as [Hs|Hs]; [discriminate|].
  apply dec_stable in Hs.
  destruct (decide (length _ = 0%nat)); [discriminate|].
  rewrite (update_ok prisma_game gameId _ db game Eg). run.
  intros [= <- <-]. exists game. auto.
Qed.

Lemma finishGame_returns db gameId actorId g' db' :
  finishGame gameId actorId db = (Ok g', db') ->
  exists game,
    first_where (fun g => game_id g = gameId) (db_games db) = Some game /\
    game_hostId game = actorId /\
    game_status game = IN_PROGRESS /\
    g' = set_status FINISHED game /\
    db' = set_rows prisma_game
            (update_where (fun g => game_id g = gameId)
               (set_status FINISHED) (db_games db)) db.
Proof.
  unfold finishGame, ensureHostAccess. run.
  destruct (first_where _ (db_games db)) as [game|] eqn:Eg; [|discriminate].
  destruct (decide (game_hostId game <> actorId)) as [Hh|Hh]; [discriminate|].
  apply dec_stable in Hh.
  destruct (decide (game_status game <> IN_PROGRESS)) as [Hs|Hs];
    [discriminate|].
  apply dec_stable in Hs.
  rewrite (update_ok prisma_game gameId _ db game Eg). run.
  intros [= <- <-]. exists game. auto.
Qed.

Lemma finishGame_run db gameId game :
  first_where (fun g => game_id g = gameId) (db_games db) = Some game ->
  game_status game = IN_PROGRESS ->
  finishGame gameId (game_hostId game) db
  = (Ok (set_status FINISHED game),
     set_rows prisma_game
       (update_where (fun g => game_id g = gameId) (set_status FINISHED)
          (db_games db)) db).
Proof.
  intros Eg Hs. unfold finishGame, ensureHostAccess. run. rewrite Eg.
  rewrite decide_False by (intros H; apply H; reflexivity).
  rewrite decide_False by (intros H; apply H, Hs).
  rewrite (update_ok prisma_game gameId _ db game Eg). reflexivity.
Qed.

(** X1.  [finishGame] returns exactly when the game exists, the actor is
    its host and its status is IN_PROGRESS; the game it returns, which is
    the game then stored under the id, is FINISHED, with the title, host
    and team limit it had. *)
Theorem finishGame_iff db gameId actorId :
  ((exists g' db', finishGame gameId actorId db = (Ok g', db')) <->
   exists game,
     first_where (fun g => game_id g = gameId) (db_games db) = Some game /\
     game_hostId game = actorId /\
     game_status game = IN_PROGRESS) /\
  (forall g' db',
     finishGame gameId actorId db = (Ok g', db') ->
     game_status g' = FINISHED /\
     first_where (fun g => game_id g = gameId) (db_games db') = Some g' /\
     exists game,
       first_where (fun g => game_id g = gameId) (db_games db) = Some game /\
       game_title g' = game_title game /\
       game_hostId g' = game_hostId game /\
       game_teamLimit g' = game_teamLimit game).
Proof.
  split; [split|].
  - intros (g' & db' & Hrun).
    destruct (finishGame_returns _ _ _ _ _ Hrun) as (game & ? & ? & ? & _).
    eauto.
  - intros (game & Eg & <- & Hs). rewrite (finishGame_run db gameId game Eg Hs).
    eauto.
  - intros g' db' Hrun.
    destruct (finishGame_returns _ _ _ _ _ Hrun)
      as (game & Eg & _ & _ & -> & ->).
    split; [reflexivity|]. split; [|exists game; auto].
    run. apply first_where_update_same; [reflexivity|exact Eg].
Qed.

Lemma updateGameSettings_run db gameId data game :
  first_where (fun g => game_id g = gameId) (db_games db) = Some game ->
  game_status game = LOBBY ->
  1 <= default (game_teamLimit game) (ug_teamLimit data) ->
  updateGameSettings gameId data (game_hostId game) db
  = (Ok (settings_applied data game),
     set_rows prisma_game
       (update_where (fun g => game_id g = gameId)
          (fun g => mkGame (game_id g)
                      (default (game_title game) (Js.trim <$> ug_title data))
                      (game_hostId g)
                      (default (game_teamLimit game) (ug_teamLimit data))
                      (game_status g))
          (db_games db)) db).
Proof.
  intros Eg Hs Hl. unfold updateGameSettings, ensureHostAccess. run.
  rewrite Eg. rewrite decide_False by (intros H; apply H; reflexivity).
  rewrite decide_False by (intros H; apply H, Hs).
  destruct (Z.ltb_spec (default (game_teamLimit game) (ug_teamLimit data)) 1);
    [lia|].
  rewrite (update_ok prisma_game gameId _ db game Eg). reflexivity.
Qed.

Lemma updateGameSettings_returns db gameId data actorId g' db' :
  updateGameSettings gameId data actorId db = (Ok g', db') ->
  exists game,
    first_where (fun g => game_id g = gameId) (db_games db) = Some game /\
    game_hostId game = actorId /\
    game_status game = LOBBY /\
    1 <= default (game_teamLimit game) (ug_teamLimit data).
Proof.
  unfold updateGameSettings, ensureHostAccess. run.
  destruct (first_where _ (db_games db)) as [game|] eqn:Eg; [|discriminate].
  destruct (decide (game_hostId game <> actorId)) as [Hh|Hh]; [discriminate|].
  apply dec_stable in Hh.
  destruct (decide (game_status game <> LOBBY)) as [Hs|Hs]; [discriminate|].
  apply dec_stable in Hs.
  destruct (Z.ltb_spec (default (game_teamLimit game) (ug_teamLimit data)) 1);
    [discriminate|].
  intros _. exists game. auto.
Qed.

(** The game service's status and settings calls write nothing when they
    throw. *)
Lemma startGame_throws db gameId actorId e db' :
  startGame gameId actorId db = (Err e, db') -> db' = db.
Proof.
  unfold startGame, ensureHostAccess. run.
  destruct (first_where _ (db_games db)) as [game|] eqn:Eg; [|congruence].
  repeat (destruct (decide _); [congruence|]).
  rewrite (update_ok prisma_game gameId _ db game Eg). discriminate.
Qed.

Lemma finishGame_throws db gameId actorId e db' :
  finishGame gameId actorId db = (Err e, db') -> db' = db.
Proof.
  unfold finishGame, ensureHostAccess. run.
  destruct (first_where _ (db_games db)) as [game|] eqn:Eg; [|congruence].
  repeat (destruct (decide _); [congruence|]).
  rewrite (update_ok prisma_game gameId _ db game Eg). discriminate.
Qed.

Lemma updateGameSettings_throws db gameId data actorId e db' :
  updateGameSettings gameId data actorId db = (Err e, db') -> db' = db.
Proof.
  unfold updateGameSettings, ensureHostAccess. run.
  destruct (first_where _ (db_games db)) as [game|] eqn:Eg; [|congruence].
  repeat (destruct (decide _); [congruence|]).
  destruct (_ <? 1); [congruence|].
  rewrite (update_ok prisma_game gameId _ db game Eg). discriminate.
Qed.

(** X2.  With a new limit, when one is given, that the column holds:
    [updateGameSettings] returns exactly when the game exists, the actor
    is its host, its status is LOBBY and the limit that results, the new
    one or else the old one, is at least 1.  The game it returns is the
    stored one: the new title trimmed, or the old title; the limit that
    results; id, host and status as they were.  The number of teams the
    game has plays no part. *)
Theorem updateGameSettings_iff db gameId data actorId :
  ((forall limit, ug_teamLimit data = Some limit -> int_column limit) ->
   ((exists g' db', updateGameSettings gameId data actorId db = (Ok g', db'))
    <->
    exists game,
      first_where (fun g => game_id g = gameId) (db_games db) = Some game /\
      game_hostId game = actorId /\
      game_status game = LOBBY /\
      1 <= default (game_teamLimit game) (ug_teamLimit data))) /\
  (forall g' db',
     updateGameSettings gameId data actorId db = (Ok g', db') ->
     exists game,
       first_where (fun g => game_id g = gameId) (db_games db) = Some game /\
       g' = mkGame (game_id game)
              (default (game_title game) (Js.trim <$> ug_title data))
              (game_hostId game)
              (default (game_teamLimit game) (ug_teamLimit data))
              (game_status game) /\
       first_where (fun g => game_id g = gameId) (db_games db') = Some g' /\
       db_teams db' = db_teams db).
Proof.
  split; [intros _; split|].
  - intros (g' & db' & Hrun).
    exact (updateGameSettings_returns _ _ _ _ _ _ Hrun).
  - intros (game & Eg & <- & Hs & Hl).
    rewrite (updateGameSettings_run db gameId data game Eg Hs Hl). eauto.
  - intros g' db' Hrun.
    destruct (updateGameSettings_returns _ _ _ _ _ _ Hrun)
      as (game & Eg & <- & Hs & Hl).
    rewrite (updateGameSettings_run db gameId data game Eg Hs Hl) in Hrun.
    injection Hrun as <- <-. exists game. split; [exact Eg|].
    split; [reflexivity|]. split; [|reflexivity]. run.
    rewrite first_where_update by reflexivity. rewrite Eg. cbn.
    destruct (first_where_Some _ _ _ Eg) as [Hid _].
    rewrite decide_True by exact Hid. reflexivity.
Qed.

Lemma updateGameSettings_iff_witness :
  exists g' db',
    updateGameSettings "g1" (mkUpdateGameSettingsInput None (Some 5))
      "u-host" Scenario.lobby = (Ok g', db').
Proof.
  assert (forall limit,
            ug_teamLimit (mkUpdateGameSettingsInput None (Some 5)) = Some limit ->
            int_column limit) as Hfits
    by (intros limit [= <-]; unfold int_column; lia).
  apply (proj2 (proj1 (updateGameSettings_iff Scenario.lobby "g1"
                         (mkUpdateGameSettingsInput None (Some 5)) "u-host")
                  Hfits)).
  exists (mkGame "g1" "Quiz night" "u-host" 2 LOBBY).
  split; [reflexivity|]. split; [reflexivity|]. split; [reflexivity|].
  cbn. lia.
Defined.

(** X3.  A title of white space only is refused by [createGame] and taken
    by [updateGameSettings], which stores the empty title. *)
Theorem updateGameSettings_blank_title genId db gameId game title :
  first_where (fun g => game_id g = gameId) (db_games db) = Some game ->
  game_status game = LOBBY ->
  1 <= game_teamLimit game ->
  Js.trim title = "" ->
  createGame genId (mkCreateGameInput (game_hostId game) title None) db
    = (Err "Game title is required", db) /\
  exists g' db',
    updateGameSettings gameId (mkUpdateGameSettingsInput (Some title) None)
      (game_hostId game) db = (Ok g', db') /\
    game_title g' = "" /\
    first_where (fun g => game_id g = gameId) (db_games db') = Some g'.
Proof.
  intros Eg Hs Hl Ht. split.
  - unfold createGame, Js.falsy. cbn [cg_title]. rewrite Ht. reflexivity.
  - rewrite (updateGameSettings_run db gameId
               (mkUpdateGameSettingsInput (Some title) None) game Eg Hs Hl).
    eexists _, _. split; [reflexivity|]. split; [cbn; exact Ht|]. run.
    rewrite first_where_update by reflexivity. rewrite Eg. cbn.
    destruct (first_where_Some _ _ _ Eg) as [Hid _].
    rewrite decide_True by exact Hid. reflexivity.
Qed.

Lemma updateGameSettings_blank_title_witness :
  exists g' db',
    updateGameSettings "g1" (mkUpdateGameSettingsInput (Some "   ") None)
      "u-host" Scenario.lobby = (Ok g', db') /\
    game_title g' = "".
Proof.
  destruct (updateGameSettings_blank_title Scenario.genId Scenario.lobby "g1"
              (mkGame "g1" "Quiz night" "u-host" 2 LOBBY) "   ")
    as (_ & g' & db' & Hrun & Ht & _).
  - reflexivity.
  - reflexivity.
  - vm_compute. discriminate.
  - reflexivity.
  - exists g', db'. split; [exact Hrun|exact Ht].
Defined.

(** X4.  [deleteGame] returns exactly when the game exists and the actor
    is its host, whatever the status; the id then names no game, and every
    other id names the game it named. *)
Theorem deleteGame_iff db gameId actorId :
  ((exists db', deleteGame gameId actorId db = (Ok tt, db')) <->
   exists game,
     first_where (fun g => game_id g = gameId) (db_games db) = Some game /\
     game_hostId game = actorId) /\
  (forall db',
     deleteGame gameId actorId db = (Ok tt, db') ->
     getGameById gameId db' = (Err "Game not found", db') /\
     forall k, k <> gameId ->
       first_where (fun g => game_id g = k) (db_games db')
       = first_where (fun g => game_id g = k) (db_games db)).
Proof.
  unfold deleteGame, getGameById, ensureHostAccess. run.
  destruct (first_where _ (db_games db)) as [game|] eqn:Eg.
  2:{ split; [split; [intros (? & [=])|intros (? & [=] & _)]|intros ? [=]]. }
  destruct (decide (game_hostId game <> actorId)) as [Hh|Hh].
  { split; [split; [intros (? & [=])|intros (? & [= <-] & ?); contradiction]
           |intros ? [=]]. }
  apply dec_stable in Hh. unfold delete. run. rewrite Eg.
  split; [split; eauto|].
  intros db' [= <-]. run. split.
  - rewrite (first_where_delete_same game_id). reflexivity.
  - intros k Hk. apply (first_where_delete_other game_id). exact Hk.
Qed.

(** One call of the game service moves the status of a game one step
    forward or not at all. *)
Lemma perform_game_step genId c db gameId s :
  status_of db gameId = Some s ->
  exists s',
    status_of (perform_game genId c db) gameId = Some s' /\
    (s' = s \/ (s = LOBBY /\ s' = IN_PROGRESS) \/
     (s = IN_PROGRESS /\ s' = FINISHED)).
Proof.
  unfold status_of. intros Hs.
  destruct (first_where (fun g => game_id g = gameId) (db_games db))
    as [game0|] eqn:E0; [|discriminate].
  injection Hs as <-.
  destruct (first_where_Some _ _ _ E0) as [Hid0 _].
  assert (forall db', db' = db ->
            exists s',
              game_status <$> first_where (fun g => game_id g = gameId)
                                (db_games db') = Some s' /\
              (s' = game_status game0 \/
               (game_status game0 = LOBBY /\ s' = IN_PROGRESS) \/
               (game_status game0 = IN_PROGRESS /\ s' = FINISHED))) as Hsame.
  { intros db' ->. rewrite E0. eauto. }
  destruct c as [input|gid data actorId|gid actorId|gid actorId];
    cbn [perform_game].
  - unfold createGame. destruct (Js.falsy _); [apply Hsame; reflexivity|].
    unfold create. run. cbn [snd]. run.
    rewrite first_where_app, E0. eauto.
  - destruct (updateGameSettings gid data actorId db) as [[g'|e] db'] eqn:Hrun;
      [|apply Hsame; exact (updateGameSettings_throws _ _ _ _ _ _ Hrun)].
    destruct (updateGameSettings_returns _ _ _ _ _ _ Hrun)
      as (game & Eg & <- & Hl & Hlim).
    rewrite (updateGameSettings_run db gid data game Eg Hl Hlim) in Hrun.
    injection Hrun as _ <-. cbn [snd]. run.
    rewrite first_where_update by reflexivity. rewrite E0. cbn.
    destruct (decide (game_id game0 = gid)); eauto.
  - destruct (startGame gid actorId db) as [[g'|e] db'] eqn:Hrun;
      [|apply Hsame; exact (startGame_throws _ _ _ _ _ Hrun)].
    destruct (startGame_returns _ _ _ _ _ Hrun)
      as (game & Eg & _ & Hl & _ & ->).
    cbn [snd]. run. rewrite first_where_update by reflexivity.
    rewrite E0. cbn. destruct (decide (game_id game0 = gid)) as [Hg|Hg].
    + assert (gid = gameId) as -> by congruence.
      assert (game0 = game) as -> by congruence.
      cbn. eexists. split; [reflexivity|]. right. left. auto.
    + eauto.
  - destruct (finishGame gid actorId db) as [[g'|e] db'] eqn:Hrun;
      [|apply Hsame; exact (finishGame_throws _ _ _ _ _ Hrun)].
    destruct (finishGame_returns _ _ _ _ _ Hrun)
      as (game & Eg & _ & Hl & _ & ->).
    cbn [snd]. run. rewrite first_where_update by reflexivity.
    rewrite E0. cbn. destruct (decide (game_id game0 = gid)) as [Hg|Hg].
    + assert (gid = gameId) as -> by congruence.
      assert (game0 = game) as -> by congruence.
      cbn. eexists. split; [reflexivity|]. right. right. auto.
    + eauto.
Qed.

(** X5.  Through any calls of [createGame], [updateGameSettings],
    [startGame] and [finishGame], by anyone, on any games, a game stays
    there and its status never goes back: LOBBY, then IN_PROGRESS, then
    FINISHED. *)
Theorem game_status_never_goes_back genId (calls : list gameCall) :
  forall db gameId s,
    status_of db gameId = Some s ->
    exists s',
      status_of (foldl (fun db c => perform_game genId c db) db calls) gameId
        = Some s' /\
      (status_rank s <= status_rank s')%nat.
Proof.
  induction calls as [|c calls IH]; intros db gameId s Hs.
  - exists s. split; [exact Hs|lia].
  - destruct (perform_game_step genId c db gameId s Hs) as (s1 & Hs1 & Hstep).
    destruct (IH _ gameId s1 Hs1) as (s' & Hs' & Hle).
    exists s'. split; [exact Hs'|].
    destruct Hstep as [->|[[-> ->]|[-> ->]]]; cbn in *; lia.
Qed.

Lemma game_status_never_goes_back_witness :
  exists s',
    status_of
      (foldl (fun db c => perform_game Scenario.genId c db) Scenario.lobby
         [ StartGame "g1" "u-host"; StartGame "g1" "u-host";
           UpdateGameSettings "g1" (mkUpdateGameSettingsInput None (Some 5))
             "u-host";
           FinishGame "g1" "u-host"; StartGame "g1" "u-host" ]) "g1"
      = Some s' /\
    (status_rank LOBBY <= status_rank s')%nat.
Proof.
  apply (game_status_never_goes_back Scenario.genId). reflexivity.
Defined.

(** X6.  With an id the game table does not hold yet, a host that is a
    user and a team limit that the column holds, the game that
    [createGame] returns is the one [getGameById] returns for its id, and
    the games that were there are still found. *)
Theorem createGame_getGameById genId db input :
  Js.trim (cg_title input) <> "" ->
  genId (game_id <$> db_games db) ∉ game_id <$> db_games db ->
  is_Some (first_where (fun u => user_id u = cg_hostId input) (db_users db)) ->
  int_column (default 4 (cg_teamLimit input)) ->
  exists g db',
    createGame genId input db = (Ok g, db') /\
    getGameById (game_id g) db' = (Ok g, db') /\
    forall k game,
      first_where (fun x => game_id x = k) (db_games db) = Some game ->
      getGameById k db' = (Ok game, db').
Proof.
  intros Ht Hfresh _ _. unfold createGame, Js.falsy.
  rewrite bool_decide_eq_false_2 by assumption.
  unfold create, getGameById. run.
  eexists _, _. split; [reflexivity|]. cbn [game_id]. run. split.
  - rewrite first_where_app.
    destruct (first_where _ (db_games db)) as [x|] eqn:E.
    + exfalso. destruct (first_where_Some _ _ _ E) as [Hid Hin].
      apply Hfresh. rewrite <- Hid. apply list_elem_of_fmap. eauto.
    + rewrite first_where_cons. rewrite decide_True by reflexivity.
      reflexivity.
  - intros k game E. rewrite first_where_app, E. reflexivity.
Qed.

Lemma createGame_getGameById_witness :
  exists g db',
    createGame Scenario.genId (mkCreateGameInput "u-host" " Finals " None)
      Scenario.lobby = (Ok g, db') /\
    getGameById (game_id g) db' = (Ok g, db').
Proof.
  destruct (createGame_getGameById Scenario.genId Scenario.lobby
              (mkCreateGameInput "u-host" " Finals " None))
    as (g & db' & Hrun & Hget & _).
  - discriminate.
  - apply scenario_genId_fresh.
  - eexists. reflexivity.
  - unfold int_column. cbn. lia.
  - exists g, db'. split; [exact Hrun|exact Hget].
Defined.

(** X7.  Once [startGame] has returned, the game is closed to the lobby's
    calls, each of which throws and writes nothing: [startGame] again, by
    anyone; [updateGameSettings], by anyone; [createTeam] in the game;
    [removeTeam] of a team of the game, which throws the lobby error
    before it looks at the actor; and, for the host, [deleteRound] and
    [updateRoundOrder] of a round of the game. *)
Theorem startGame_locks db gameId actorId g' db' :
  startGame gameId actorId db = (Ok g', db') ->
  (forall actor, exists e, startGame gameId actor db' = (Err e, db')) /\
  (forall data actor,
     exists e, updateGameSettings gameId data actor db' = (Err e, db')) /\
  (forall genId input,
     ct_gameId input = gameId ->
     exists e, createTeam genId input db' = (Err e, db')) /\
  (forall teamId actor team,
     first_where (fun t => team_id t = teamId) (db_teams db') = Some team ->
     team_gameId team = gameId ->
     removeTeam teamId actor db'
     = (Err "Teams can only be managed while the game is in the lobby state",
        db')) /\
  (forall roundId round,
     first_where (fun r => round_id r = roundId) (db_rounds db')
       = Some round ->
     round_gameId round = gameId ->
     deleteRound roundId actorId db'
     = (Err "Cannot delete rounds once the game has started", db') /\
     forall newOrder,
       updateRoundOrder roundId newOrder actorId db'
       = (Err "Cannot reorder rounds once the game has started", db')).
Proof.
  intros Hrun.
  destruct (startGame_returns _ _ _ _ _ Hrun)
    as (game & Eg & Hh & _ & -> & ->).
  assert (first_where (fun g => game_id g = gameId)
            (db_games (set_rows prisma_game
               (update_where (fun g => game_id g = gameId)
                  (set_status IN_PROGRESS) (db_games db)) db))
          = Some (set_status IN_PROGRESS game)) as Eg'.
  { run. apply first_where_update_same; [reflexivity|exact Eg]. }
  set (db' := set_rows prisma_game _ db) in *. clearbody db'.
  set (game' := set_status IN_PROGRESS game) in *.
  assert (game_status game' <> LOBBY) as Hs by discriminate.
  assert (game_hostId game' = actorId) as Hh' by exact Hh.
  clearbody game'. split; [|split; [|split; [|split]]].
  - intros actor. unfold startGame, ensureHostAccess. run. rewrite Eg'.
    destruct (decide _); [eauto|]. rewrite decide_True by exact Hs. eauto.
  - intros data actor. unfold updateGameSettings, ensureHostAccess. run.
    rewrite Eg'. destruct (decide _); [eauto|].
    rewrite decide_True by exact Hs. eauto.
  - intros genId input <-. unfold createTeam, ensureLobbyGame.
    destruct (Js.falsy _); [eauto|]. run. rewrite Eg'.
    destruct (first_where _ (db_users db')); [|eauto].
    rewrite decide_True by exact Hs. eauto.
  - intros teamId actor team Et <-. unfold removeTeam, ensureLobbyGame. run.
    rewrite Et. run. rewrite Eg'. run. rewrite decide_True by exact Hs.
    reflexivity.
  - intros roundId round Er <-. split; [|intros newOrder].
    + unfold deleteRound, ensureHost. run. rewrite Er. run. rewrite Eg'. run.
      rewrite decide_False by (intros Hne; apply Hne, Hh'). run.
      rewrite decide_True by exact Hs. reflexivity.
    + unfold updateRoundOrder, ensureHost. run. rewrite Er. run.
      rewrite Eg'. run.
      rewrite decide_False by (intros Hne; apply Hne, Hh'). run.
      rewrite decide_True by exact Hs. reflexivity.
Qed.

Lemma startGame_locks_witness :
  exists g' db',
    startGame "g1" "u-host" Scenario.lobby = (Ok g', db') /\
    removeTeam "tA" "u-host" db'
    = (Err "Teams can only be managed while the game is in the lobby state",
       db') /\
    deleteRound "r1" "u-host" db'
    = (Err "Cannot delete rounds once the game has started", db').
Proof.
  eexists _, _. split; [reflexivity|].
  pose proof (startGame_locks Scenario.lobby "g1" "u-host" _ _ eq_refl)
    as (_ & _ & _ & Hteam & Hround).
  split.
  - apply (Hteam "tA" "u-host" Scenario.teamA); reflexivity.
  - apply (Hround "r1" (mkRound "r1" "g1" 1)); reflexivity.
Defined.

(** X8.  The title that [createGame] stores and the name that
    [createTeam] stores are never blank and carry no white space at
    either end: trimming them changes nothing. *)
Theorem stored_names_trimmed genId db :
  (forall input g db',
     createGame genId input db = (Ok g, db') ->
     game_title g <> "" /\ Js.trim (game_title g) = game_title g) /\
  (forall input t db',
     createTeam genId input db = (Ok t, db') ->
     team_name t <> "" /\ Js.trim (team_name t) = team_name t).
Proof.
  split.
  - intros input g db'. unfold createGame, Js.falsy.
    destruct (bool_decide_reflect (Js.trim (cg_title input) = ""))
      as [Hb|Hb]; [discriminate|].
    unfold create. run. intros [= <- _]. cbn [set_rid prisma_game game_title].
    split; [exact Hb|apply trim_idem].
  - intros input t db'. unfold createTeam, Js.falsy, ensureLobbyGame.
    destruct (bool_decide_reflect (Js.trim (ct_name input) = ""))
      as [Hb|Hb]; [discriminate|].
    run.
    destruct (first_where _ (db_games db)) as [game|]; [|discriminate].
    destruct (first_where _ (db_users db)) as [actor|]; [|discriminate].
    destruct (decide _); [discriminate|].
    destruct (_ >=? _); [discriminate|].
    unfold create. run.
    destruct (default true (ct_makeCaptain input)); run;
      intros [= <- _]; cbn [team_name]; (split; [exact Hb|apply trim_idem]).
Qed.

Lemma stored_names_trimmed_witness :
  exists g db',
    createGame Scenario.genId
      (mkCreateGameInput "u-host" "  Grand  final " None) Scenario.lobby
      = (Ok g, db') /\
    game_title g = "Grand  final" /\
    Js.trim (game_title g) = game_title g.
Proof.
  eexists _, _. split; [reflexivity|]. split; [reflexivity|].
  refine (proj2 (proj1 (stored_names_trimmed Scenario.genId Scenario.lobby)
                   (mkCreateGameInput "u-host" "  Grand  final " None)
                   _ _ eq_refl)).
Defined.

End GameMore.

(** ** The team service, continued *)

Section TeamMore.

Lemma update_where_same {R} (Q : R -> Prop) `{!forall r, Decision (Q r)}
    (t : list R) :
  update_where Q (fun r => r) t = t.
Proof.
  unfold update_where. rewrite <- (list_fmap_id t) at 2.
  apply list_fmap_ext. intros i r _. destruct (decide (Q r)); reflexivity.
Qed.

Lemma filter_all {R} (P : R -> Prop) `{!forall r, Decision (P r)}
    (t : list R) :
  Forall P t -> filter P t = t.
Proof.
  induction 1 as [|x t Hx _ IH]; [reflexivity|].
  rewrite filter_cons_True by assumption. rewrite IH. reflexivity.
Qed.

(** What [joinTeam] writes when it returns: one membership row. *)
Lemma joinTeam_run genId db input team :
  first_where (fun m => member_teamId m = jt_teamId input /\
                        member_userId m = jt_userId input) (db_members db)
    = None ->
  first_where (fun t => team_id t = jt_teamId input) (db_teams db)
    = Some team ->
  joinTeam genId input db
  = (Ok team,
     set_rows prisma_teamMember
       (db_members db ++
        [mkTeamMember (genId (member_id <$> db_members db)) (jt_teamId input)
           (jt_userId input) (default false (jt_isCaptain input))])
       db).
Proof.
  intros Em Et. unfold joinTeam. run. rewrite Em.
  rewrite (update_ok prisma_team (jt_teamId input) _ db team Et). run.
  unfold create. run. rewrite update_where_same.
  destruct db; reflexivity.
Qed.

Lemma joinTeam_returns genId db input t db' :
  joinTeam genId input db = (Ok t, db') ->
  first_where (fun m => member_teamId m = jt_teamId input /\
                        member_userId m = jt_userId input) (db_members db)
    = None /\
  first_where (fun t => team_id t = jt_teamId input) (db_teams db) = Some t.
Proof.
  unfold joinTeam. run.
  destruct (first_where _ (db_members db)) as [m|] eqn:Em; [discriminate|].
  unfold update. run.
  destruct (first_where _ (db_teams db)) as [team|] eqn:Et; [|discriminate].
  unfold create. run. intros [= <- _]. auto.
Qed.

Lemma joinTeam_throws genId db input e db' :
  joinTeam genId input db = (Err e, db') -> db' = db.
Proof.
  unfold joinTeam. run.
  destruct (first_where _ (db_members db)) as [m|] eqn:Em; [congruence|].
  unfold update. run.
  destruct (first_where _ (db_teams db)) as [team|] eqn:Et; [|congruence].
  unfold create. run. discriminate.
Qed.

(** X9.  For a user that exists, [joinTeam] returns exactly when the user
    is not yet on the team and the team exists; the code asks nothing of
    the user's role nor of the game.  It then adds one membership, captain
    only if asked, and leaves the teams alone; and a second [joinTeam] of
    the same user to the same team throws and writes nothing. *)
Theorem joinTeam_iff genId db input :
  (is_Some (first_where (fun u => user_id u = jt_userId input) (db_users db)) ->
   ((exists t db', joinTeam genId input db = (Ok t, db')) <->
    first_where (fun m => member_teamId m = jt_teamId input /\
                          member_userId m = jt_userId input) (db_members db)
      = None /\
    is_Some (first_where (fun t => team_id t = jt_teamId input)
               (db_teams db)))) /\
  (forall t db',
     joinTeam genId input db = (Ok t, db') ->
     first_where (fun t => team_id t = jt_teamId input) (db_teams db)
       = Some t /\
     db_teams db' = db_teams db /\
     (exists m,
        db_members db' = (db_members db ++ [m])%list /\
        member_teamId m = jt_teamId input /\
        member_userId m = jt_userId input /\
        member_isCaptain m = default false (jt_isCaptain input)) /\
     forall genId' isCaptain,
       joinTeam genId'
         (mkJoinTeamInput (jt_teamId input) (jt_userId input) isCaptain) db'
       = (Err "User already joined this team", db')).
Proof.
  split; [intros _; split|].
  - intros (t & db' & Hrun).
    destruct (joinTeam_returns _ _ _ _ _ Hrun) as [Em Et].
    split; [exact Em|]. rewrite Et. eauto.
  - intros (Em & team & Et). rewrite (joinTeam_run genId db input team Em Et).
    eauto.
  - intros t db' Hrun.
    destruct (joinTeam_returns _ _ _ _ _ Hrun) as [Em Et].
    rewrite (joinTeam_run genId db input t Em Et) in Hrun.
    injection Hrun as <-. split; [exact Et|]. split; [reflexivity|].
    split; [eexists; split; [reflexivity|]; auto|].
    intros genId' isCaptain. unfold joinTeam.
    cbn [jt_teamId jt_userId]. run.
    rewrite first_where_app, Em, first_where_cons.
    rewrite decide_True by (split; reflexivity). reflexivity.
Qed.

Lemma joinTeam_iff_witness :
  exists t db',
    joinTeam Scenario.genId (mkJoinTeamInput "tA" "u-bob" None) Scenario.lobby
      = (Ok t, db').
Proof.
  assert (is_Some (first_where (fun u => user_id u = "u-bob")
                     (db_users Scenario.lobby))) as Huser
    by (eexists; reflexivity).
  apply (proj2 (proj1 (joinTeam_iff Scenario.genId Scenario.lobby
                         (mkJoinTeamInput "tA" "u-bob" None)) Huser)).
  split; [reflexivity|]. eexists. reflexivity.
Defined.

(** What [leaveTeam] does when the user is on the team. *)
Lemma leaveTeam_run db teamId userId m team :
  first_where (fun m => member_teamId m = teamId /\ member_userId m = userId)
    (db_members db) = Some m ->
  first_where (fun t => team_id t = teamId) (db_teams db) = Some team ->
  leaveTeam teamId userId db
  = (Ok team,
     set_rows prisma_teamMember
       (delete_where (fun x => member_id x = member_id m) (db_members db)) db).
Proof.
  intros Em Et. unfold leaveTeam. run. rewrite Em. unfold delete. run.
  destruct (first_where_Some _ _ _ Em) as [_ Hin].
  destruct (first_where_is_Some (fun x => member_id x = member_id m)
              (db_members db) m Hin eq_refl) as [x ->].
  run. rewrite Et. reflexivity.
Qed.

(** X10.  A user, one that exists, who joins a team and then leaves it:
    both calls return the team, and the membership table is back to what
    it was.  The store is taken to hand the new membership an id that is
    not in use. *)
Theorem joinTeam_leaveTeam genId db input team :
  genId (member_id <$> db_members db) ∉ member_id <$> db_members db ->
  is_Some (first_where (fun u => user_id u = jt_userId input) (db_users db)) ->
  first_where (fun m => member_teamId m = jt_teamId input /\
                        member_userId m = jt_userId input) (db_members db)
    = None ->
  first_where (fun t => team_id t = jt_teamId input) (db_teams db)
    = Some team ->
  exists db1 db2,
    joinTeam genId input db = (Ok team, db1) /\
    leaveTeam (jt_teamId input) (jt_userId input) db1 = (Ok team, db2) /\
    db_members db2 = db_members db /\
    db_teams db2 = db_teams db /\
    leaveTeam (jt_teamId input) (jt_userId input) db2
    = (Err "Membership not found", db2).
Proof.
  intros Hfresh _ Em Et.
  rewrite (joinTeam_run genId db input team Em Et).
  set (m := mkTeamMember _ _ _ _).
  eexists _, _. split; [reflexivity|].
  assert (first_where (fun x => member_teamId x = jt_teamId input /\
                                member_userId x = jt_userId input)
            (db_members db ++ [m]) = Some m) as Em1.
  { rewrite first_where_app, Em, first_where_cons.
    rewrite decide_True by (split; reflexivity). reflexivity. }
  assert (delete_where (fun x => member_id x = member_id m)
            (db_members db ++ [m]) = db_members db) as Hdel.
  { unfold delete_where. rewrite filter_app.
    rewrite filter_cons_False by (intros H; apply H; reflexivity).
    rewrite filter_nil, app_nil_r. apply filter_all, Forall_forall.
    intros x Hx Hid. apply Hfresh. cbn in Hid. rewrite <- Hid.
    apply list_elem_of_fmap. eauto. }
  split.
  - rewrite (leaveTeam_run _ (jt_teamId input) (jt_userId input) m team);
      [reflexivity|exact Em1|exact Et].
  - run. rewrite Hdel. split; [reflexivity|]. split; [reflexivity|].
    unfold leaveTeam. run. rewrite Em. reflexivity.
Qed.

Lemma joinTeam_leaveTeam_witness :
  exists db1 db2,
    joinTeam Scenario.genId (mkJoinTeamInput "tB" "u-alice" None)
      Scenario.lobby = (Ok Scenario.teamB, db1) /\
    leaveTeam "tB" "u-alice" db1 = (Ok Scenario.teamB, db2) /\
    db_members db2 = db_members Scenario.lobby.
Proof.
  destruct (joinTeam_leaveTeam Scenario.genId Scenario.lobby
              (mkJoinTeamInput "tB" "u-alice" None) Scenario.teamB)
    as (db1 & db2 & H1 & H2 & Hm & _).
  - apply scenario_genId_fresh.
  - eexists. reflexivity.
  - reflexivity.
  - reflexivity.
  - exists db1, db2. split; [exact H1|]. split; [exact H2|exact Hm].
Defined.

(** X11.  [leaveTeam] throws and writes nothing when the user is not on
    the team.  When the user is, on a team that exists, it returns the
    team; with no user on a team twice and the memberships keyed by id,
    the user is then off the team and every other membership is still
    there. *)
Theorem leaveTeam_removes db teamId userId :
  (first_where (fun m => member_teamId m = teamId /\ member_userId m = userId)
     (db_members db) = None ->
   leaveTeam teamId userId db = (Err "Membership not found", db)) /\
  (forall m team,
     first_where (fun m => member_teamId m = teamId /\
                           member_userId m = userId) (db_members db)
       = Some m ->
     first_where (fun t => team_id t = teamId) (db_teams db) = Some team ->
     NoDup (member_pair <$> db_members db) ->
     NoDup (member_id <$> db_members db) ->
     exists db',
       leaveTeam teamId userId db = (Ok team, db') /\
       first_where (fun m => member_teamId m = teamId /\
                             member_userId m = userId) (db_members db')
         = None /\
       (forall x, x ∈ db_members db -> x <> m -> x ∈ db_members db') /\
       db_teams db' = db_teams db).
Proof.
  split.
  - intros Em. unfold leaveTeam. run. rewrite Em. reflexivity.
  - intros m team Em Et Hpairs Hids.
    rewrite (leaveTeam_run db teamId userId m team Em Et).
    eexists. split; [reflexivity|]. run.
    destruct (first_where_Some _ _ _ Em) as [[Ht Hu] Hin].
    split; [|split; [|reflexivity]].
    + apply first_where_None, Forall_forall. intros x Hx [Hxt Hxu].
      apply list_elem_of_filter in Hx as [Hne Hx]. apply Hne.
      f_equal. apply (NoDup_key_eq member_pair (db_members db) x m Hpairs Hx Hin).
      unfold member_pair. congruence.
    + intros x Hx Hne. apply list_elem_of_filter. split; [|exact Hx].
      intros Hid. apply Hne.
      exact (NoDup_key_eq member_id (db_members db) x m Hids Hx Hin Hid).
Qed.

Lemma leaveTeam_removes_witness :
  exists db',
    leaveTeam "tA" "u-alice" Scenario.lobby = (Ok Scenario.teamA, db') /\
    first_where (fun m => member_teamId m = "tA" /\ member_userId m = "u-alice")
      (db_members db') = None.
Proof.
  destruct (proj2 (leaveTeam_removes Scenario.lobby "tA" "u-alice")
              (mkTeamMember "m1" "tA" "u-alice" true) Scenario.teamA)
    as (db' & Hrun & Hgone & _).
  - reflexivity.
  - reflexivity.
  - apply (bool_decide_unpack _). vm_compute. exact I.
  - apply (bool_decide_unpack _). vm_compute. exact I.
  - exists db'. split; [exact Hrun|exact Hgone].
Defined.

Lemma createTeam_run genId db input game actor :
  Js.trim (ct_name input) <> "" ->
  first_where (fun g => game_id g = ct_gameId input) (db_games db)
    = Some game ->
  first_where (fun u => user_id u = ct_actorId input) (db_users db)
    = Some actor ->
  game_status game = LOBBY ->
  Z.of_nat (length (many_where (fun t => team_gameId t = ct_gameId input)
                      (db_teams db))) < game_teamLimit game ->
  createTeam genId input db
  = (Ok (new_team genId input db), with_new_team genId input db).
Proof.
  intros Hname Eg Ea Hs Hn. unfold createTeam, Js.falsy, ensureLobbyGame.
  rewrite bool_decide_eq_false_2 by assumption. run. rewrite Eg, Ea.
  rewrite decide_False by (intros H; apply H, Hs).
  destruct (Z.geb_spec (Z.of_nat (length (many_where
              (fun t => team_gameId t = ct_gameId input) (db_teams db))))
              (game_teamLimit game)); [lia|].
  unfold create, with_new_team, new_team. run.
  destruct (default true (ct_makeCaptain input)); reflexivity.
Qed.

Lemma createTeam_returns genId db input t db' :
  createTeam genId input db = (Ok t, db') ->
  exists game actor,
    Js.trim (ct_name input) <> "" /\
    first_where (fun g => game_id g = ct_gameId input) (db_games db)
      = Some game /\
    first_where (fun u => user_id u = ct_actorId input) (db_users db)
      = Some actor /\
    game_status game = LOBBY /\
    Z.of_nat (length (many_where (fun t => team_gameId t = ct_gameId input)
                        (db_teams db))) < game_teamLimit game.
Proof.
  unfold createTeam, Js.falsy, ensureLobbyGame.
  destruct (bool_decide_reflect (Js.trim (ct_name input) = ""))
    as [Hb|Hb]; [discriminate|].
  run.
  destruct (first_where _ (db_games db)) as [game|] eqn:Eg; [|discriminate].
  destruct (first_where _ (db_users db)) as [actor|] eqn:Ea; [|discriminate].
  destruct (decide (game_status game <> LOBBY)) as [Hs|Hs]; [discriminate|].
  apply dec_stable in Hs.
  destruct (Z.geb_spec (Z.of_nat (length (many_where
              (fun t => team_gameId t = ct_gameId input) (db_teams db))))
              (game_teamLimit game)); [discriminate|].
  intros _. exists game, actor. auto.
Qed.

Lemma createTeam_throws genId db input e db' :
  createTeam genId input db = (Err e, db') -> db' = db.
Proof.
  unfold createTeam, ensureLobbyGame.
  destruct (Js.falsy _); [intros [= _ <-]; reflexivity|]. run.
  destruct (first_where _ (db_games db)) as [game|];
    [|intros [= _ <-]; reflexivity].
  destruct (first_where _ (db_users db)) as [actor|];
    [|intros [= _ <-]; reflexivity].
  destruct (decide _); [intros [= _ <-]; reflexivity|].
  destruct (_ >=? _); [intros [= _ <-]; reflexivity|].
  unfold create. run.
  destruct (default true (ct_makeCaptain input)); discriminate.
Qed.

(** X12.  The actor of a [createTeam] that returns need not be the host.
    Unless [makeCaptain] is given as false, [createTeam] adds, with the
    team, the actor's membership of it, as captain, so that a [joinTeam] of
    the actor to the new team throws; with [makeCaptain] false the
    membership table is left as it was. *)
Theorem createTeam_captain genId db input t db' :
  createTeam genId input db = (Ok t, db') ->
  db_teams db' = (db_teams db ++ [t])%list /\
  (ct_makeCaptain input = Some false -> db_members db' = db_members db) /\
  (ct_makeCaptain input <> Some false ->
   (exists m,
      db_members db' = (db_members db ++ [m])%list /\
      member_teamId m = team_id t /\
      member_userId m = ct_actorId input /\
      member_isCaptain m = true) /\
   forall genId' isCaptain,
     joinTeam genId' (mkJoinTeamInput (team_id t) (ct_actorId input) isCaptain)
       db'
     = (Err "User already joined this team", db')).
Proof.
  intros Hrun.
  destruct (createTeam_returns _ _ _ _ _ Hrun)
    as (game & actor & Hname & Eg & Ea & Hs & Hn).
  rewrite (createTeam_run genId db input game actor Hname Eg Ea Hs Hn) in Hrun.
  injection Hrun as <- <-. unfold with_new_team.
  destruct (ct_makeCaptain input) as [[|]|]; cbn [default from_option id]; run.
  - split; [reflexivity|]. split; [discriminate|]. intros _.
    split; [eexists; split; [reflexivity|]; auto|].
    intros genId' isCaptain. unfold joinTeam. cbn [jt_teamId jt_userId]. run.
    rewrite first_where_app.
    destruct (first_where _ (db_members db)); [reflexivity|].
    rewrite first_where_cons.
    rewrite decide_True by (split; reflexivity). reflexivity.
  - split; [reflexivity|]. split; [reflexivity|]. intros H. contradiction.
  - split; [reflexivity|]. split; [discriminate|]. intros _.
    split; [eexists; split; [reflexivity|]; auto|].
    intros genId' isCaptain. unfold joinTeam. cbn [jt_teamId jt_userId]. run.
    rewrite first_where_app.
    destruct (first_where _ (db_members db)); [reflexivity|].
    rewrite first_where_cons.
    rewrite decide_True by (split; reflexivity). reflexivity.
Qed.

Lemma createTeam_captain_witness :
  exists t db',
    createTeam Scenario.genId (mkCreateTeamInput "g1" "Team B" "u-bob" None)
      Scenario.lobby1 = (Ok t, db') /\
    joinTeam Scenario.genId (mkJoinTeamInput (team_id t) "u-bob" None) db'
    = (Err "User already joined this team", db').
Proof.
  destruct (createTeam Scenario.genId
              (mkCreateTeamInput "g1" "Team B" "u-bob" None) Scenario.lobby1)
    as [[t|e] db'] eqn:Hrun; [|vm_compute in Hrun; discriminate].
  exists t, db'. split; [reflexivity|].
  destruct (createTeam_captain _ _ _ _ _ Hrun) as (_ & _ & Hc).
  destruct Hc as [_ Hjoin]; [discriminate|]. apply Hjoin.
Defined.

(** The database after [leaveTeam], whether it returned or threw. *)
Lemma leaveTeam_after db teamId userId :
  snd (leaveTeam teamId userId db) = db \/
  exists m,
    snd (leaveTeam teamId userId db)
    = set_rows prisma_teamMember
        (delete_where (fun x => member_id x = member_id m) (db_members db))
        db.
Proof.
  unfold leaveTeam. run.
  destruct (first_where _ (db_members db)) as [m|] eqn:Em; [|left; reflexivity].
  right. exists m. unfold delete. run.
  destruct (first_where_Some _ _ _ Em) as [_ Hin].
  destruct (first_where_is_Some (fun x => member_id x = member_id m)
              (db_members db) m Hin eq_refl) as [x ->].
  run. destruct (first_where _ (db_teams db)); reflexivity.
Qed.

Section TeamTraces.
Variable genId : list string -> string.
Hypothesis genId_fresh : forall used, genId used ∉ used.

Lemma perform_team_memberships c db :
  memberships_ok db -> memberships_ok (perform_team genId c db).
Proof.
  intros [Hpairs Hrefs]. destruct c as [input|input|teamId userId];
    cbn [perform_team].
  - destruct (createTeam genId input db) as [[t|e] db'] eqn:Hrun;
      [|apply createTeam_throws in Hrun; subst db'; split; assumption].
    destruct (createTeam_returns _ _ _ _ _ Hrun)
      as (game & actor & Hname & Eg & Ea & Hs & Hn).
    rewrite (createTeam_run genId db input game actor Hname Eg Ea Hs Hn)
      in Hrun.
    injection Hrun as _ <-. cbn [snd]. unfold with_new_team, memberships_ok.
    assert (Forall (fun m => member_teamId m ∈
                        team_id <$> (db_teams db ++ [new_team genId input db])%list)
              (db_members db)) as Hrefs'.
    { eapply Forall_impl; [exact Hrefs|]. intros m Hm.
      rewrite fmap_app. apply elem_of_app. left. exact Hm. }
    destruct (default true (ct_makeCaptain input)); run;
      [|split; assumption].
    split.
    + rewrite fmap_app. apply NoDup_app. split; [exact Hpairs|].
      split; [|apply NoDup_singleton].
      intros p Hp Hnew. apply list_elem_of_singleton in Hnew. subst p.
      apply list_elem_of_fmap in Hp as (m & Hpair & Hm).
      rewrite Forall_forall in Hrefs. specialize (Hrefs m Hm).
      injection Hpair as Ht _. rewrite <- Ht in Hrefs.
      exact (genId_fresh _ Hrefs).
    + apply Forall_app. split; [exact Hrefs'|].
      apply Forall_singleton. rewrite fmap_app. apply elem_of_app. right.
      apply list_elem_of_singleton. reflexivity.
  - destruct (joinTeam genId input db) as [[t|e] db'] eqn:Hrun;
      [|apply joinTeam_throws in Hrun; subst db'; split; assumption].
    destruct (joinTeam_returns _ _ _ _ _ Hrun) as [Em Et].
    rewrite (joinTeam_run genId db input t Em Et) in Hrun.
    injection Hrun as <-. cbn [snd]. unfold memberships_ok. run. split.
    + rewrite fmap_app. apply NoDup_app. split; [exact Hpairs|].
      split; [|apply NoDup_singleton].
      intros p Hp Hnew. apply list_elem_of_singleton in Hnew. subst p.
      apply list_elem_of_fmap in Hp as (m & Hpair & Hm).
      apply first_where_None in Em. rewrite Forall_forall in Em.
      apply (Em m Hm). injection Hpair as Ht Hu. auto.
    + apply Forall_app. split; [exact Hrefs|].
      apply Forall_singleton. cbn.
      destruct (first_where_Some _ _ _ Et) as [Hid Hin].
      rewrite <- Hid. apply list_elem_of_fmap. eauto.
  - destruct (leaveTeam_after db teamId userId) as [->|[m ->]];
      [split; assumption|].
    unfold memberships_ok, delete_where. run. split.
    + apply (sublist_NoDup _ (member_pair <$> db_members db));
        [exact Hpairs|].
      apply fmap_sublist, sublist_filter.
    + apply Forall_forall. intros x Hx.
      apply list_elem_of_filter in Hx as [_ Hx].
      rewrite Forall_forall in Hrefs. exact (Hrefs x Hx).
Qed.

Lemma perform_team_limits c db :
  within_limits db -> within_limits (perform_team genId c db).
Proof.
  intros Hlim. destruct c as [input|input|teamId userId]; cbn [perform_team].
  - destruct (createTeam genId input db) as [[t|e] db'] eqn:Hrun;
      [|apply createTeam_throws in Hrun; subst db'; exact Hlim].
    destruct (createTeam_returns _ _ _ _ _ Hrun)
      as (game & actor & Hname & Eg & Ea & Hs & Hn).
    rewrite (createTeam_run genId db input game actor Hname Eg Ea Hs Hn)
      in Hrun.
    injection Hrun as _ <-. cbn [snd]. unfold with_new_team, within_limits.
    intros gameId game'.
    assert (db_games (if default true (ct_makeCaptain input)
              then set_rows prisma_teamMember
                     (db_members db ++
                      [mkTeamMember (genId (member_id <$> db_members db))
                         (team_id (new_team genId input db))
                         (ct_actorId input) true])
                     (set_rows prisma_team
                        (db_teams db ++ [new_team genId input db]) db)
              else set_rows prisma_team
                     (db_teams db ++ [new_team genId input db]) db)
            = db_games db) as ->
      by (destruct (default true (ct_makeCaptain input)); reflexivity).
    assert (db_teams (if default true (ct_makeCaptain input)
              then set_rows prisma_teamMember
                     (db_members db ++
                      [mkTeamMember (genId (member_id <$> db_members db))
                         (team_id (new_team genId input db))
                         (ct_actorId input) true])
                     (set_rows prisma_team
                        (db_teams db ++ [new_team genId input db]) db)
              else set_rows prisma_team
                     (db_teams db ++ [new_team genId input db]) db)
            = (db_teams db ++ [new_team genId input db])%list) as ->
      by (destruct (default true (ct_makeCaptain input)); reflexivity).
    intros Eg'. specialize (Hlim gameId game' Eg').
    unfold many_where in *. rewrite filter_app, length_app.
    destruct (decide (ct_gameId input = gameId)) as [<-|Hne].
    + rewrite filter_cons_True by reflexivity. rewrite filter_nil.
      cbn [length]. assert (game' = game) as -> by congruence. lia.
    + rewrite filter_cons_False by exact Hne. rewrite filter_nil.
      cbn [length]. lia.
  - destruct (joinTeam genId input db) as [[t|e] db'] eqn:Hrun;
      [|apply joinTeam_throws in Hrun; subst db'; exact Hlim].
    destruct (joinTeam_returns _ _ _ _ _ Hrun) as [Em Et].
    rewrite (joinTeam_run genId db input t Em Et) in Hrun.
    injection Hrun as <-. exact Hlim.
  - destruct (leaveTeam_after db teamId userId) as [->|[m ->]]; exact Hlim.
Qed.

End TeamTraces.

(** X13.  With a store that hands out unused ids: through any calls of
    [createTeam], [joinTeam] and [leaveTeam], no user comes to be on a team
    twice, and every membership stays one of a team that is there. *)
Theorem memberships_never_double genId (calls : list teamCall) :
  (forall used, genId used ∉ used) ->
  forall db,
    memberships_ok db ->
    memberships_ok (foldl (fun db c => perform_team genId c db) db calls).
Proof.
  intros Hfresh. induction calls as [|c calls IH]; intros db Hok; [exact Hok|].
  apply IH. apply perform_team_memberships; assumption.
Qed.

Lemma memberships_never_double_witness :
  NoDup (member_pair <$> db_members
    (foldl (fun db c => perform_team Scenario.genId c db) Scenario.lobby
       [ CreateTeam (mkCreateTeamInput "g1" "Team B" "u-bob" None);
         JoinTeam (mkJoinTeamInput "tA" "u-bob" None);
         JoinTeam (mkJoinTeamInput "tA" "u-bob" (Some true));
         LeaveTeam "tA" "u-alice";
         JoinTeam (mkJoinTeamInput "tA" "u-alice" None) ])).
Proof.
  apply (memberships_never_double Scenario.genId).
  - exact scenario_genId_fresh.
  - split; apply (bool_decide_unpack _); vm_compute; exact I.
Defined.

(** X14.  Through any calls of [createTeam], [joinTeam] and [leaveTeam],
    a game that has no more teams than its limit keeps no more teams than
    its limit. *)
Theorem team_count_within_limit genId (calls : list teamCall) :
  forall db,
    within_limits db ->
    within_limits (foldl (fun db c => perform_team genId c db) db calls).
Proof.
  induction calls as [|c calls IH]; intros db Hok; [exact Hok|].
  apply IH. apply perform_team_limits. exact Hok.
Qed.

Lemma team_count_within_limit_witness :
  within_limits
    (foldl (fun db c => perform_team Scenario.genId c db) Scenario.lobby1
       [ CreateTeam (mkCreateTeamInput "g1" "Team B" "u-bob" None);
         CreateTeam (mkCreateTeamInput "g1" "Team C" "u-bob" None) ]).
Proof.
  apply team_count_within_limit.
  intros gameId game Eg. apply first_where_Some in Eg as [Hid Hin].
  apply list_elem_of_singleton in Hin. subst game. cbn in Hid. subst gameId.
  vm_compute. discriminate.
Defined.

Lemma update_where_twice {R} (P : R -> Prop) `{!forall r, Decision (P r)}
    (f g h : R -> R) (t : list R) :
  (forall r, P (f r) <-> P r) -> (forall r, g (f r) = h r) ->
  update_where P g (update_where P f t) = update_where P h t.
Proof.
  intros Hf Hh. unfold update_where. rewrite <- list_fmap_compose.
  apply list_fmap_ext. intros _ r _. cbn.
  destruct (decide (P r)) as [Hr|Hr].
  - rewrite decide_True by (apply Hf, Hr). apply Hh.
  - rewrite decide_False by exact Hr. reflexivity.
Qed.

Lemma adjustScore_run db input team game actor :
  first_where (fun t => team_id t = as_teamId input) (db_teams db)
    = Some team ->
  first_where (fun g => game_id g = team_gameId team) (db_games db)
    = Some game ->
  first_where (fun u => user_id u = as_actorId input) (db_users db)
    = Some actor ->
  game_hostId game = as_actorId input \/
    user_role actor = HOST \/ user_role actor = OPERATOR ->
  adjustScore input db
  = (Ok (increment_score (as_delta input) team),
     set_rows prisma_team
       (update_where (fun t => team_id t = as_teamId input)
          (increment_score (as_delta input)) (db_teams db)) db).
Proof.
  intros Et Eg Ea Hauth. unfold adjustScore, ensureHostOrOperator. run.
  rewrite Et. run. rewrite Ea. run. rewrite Eg. run.
  destruct (decide (game_hostId game <> as_actorId input)) as [Hh|Hh]; run.
  - rewrite decide_False by (destruct Hauth as [?|[?|?]]; tauto). run.
    unfold update. run. rewrite Et. reflexivity.
  - unfold update. run. rewrite Et. reflexivity.
Qed.

Lemma adjustScore_returns db input t' db' :
  adjustScore input db = (Ok t', db') ->
  exists team game actor,
    first_where (fun t => team_id t = as_teamId input) (db_teams db)
      = Some team /\
    first_where (fun g => game_id g = team_gameId team) (db_games db)
      = Some game /\
    first_where (fun u => user_id u = as_actorId input) (db_users db)
      = Some actor /\
    (game_hostId game = as_actorId input \/
       user_role actor = HOST \/ user_role actor = OPERATOR).
Proof.
  unfold adjustScore, ensureHostOrOperator. run.
  destruct (first_where _ (db_teams db)) as [team|] eqn:Et; run;
    [|destruct (first_where _ (db_users db)); discriminate].
  destruct (first_where _ (db_users db)) as [actor|] eqn:Ea; run;
    (destruct (first_where _ (db_games db)) as [game|] eqn:Eg; run;
     [|discriminate]); [|discriminate].
  destruct (decide (game_hostId game <> as_actorId input)) as [Hh|Hh]; run.
  - destruct (decide (user_role actor <> HOST /\ user_role actor <> OPERATOR))
      as [Hr|Hr]; run; [discriminate|].
    intros _. exists team, game, actor.
    repeat split; try reflexivity; try assumption. right.
    destruct (user_role actor); [left|right|exfalso; apply Hr; split];
      congruence.
  - intros _. exists team, game, actor.
    repeat split; try reflexivity; try assumption. left.
    destruct (decide (game_hostId game = as_actorId input)); tauto.
Qed.

Lemma adjustScore_throws db input e db' :
  adjustScore input db = (Err e, db') -> db' = db.
Proof.
  unfold adjustScore, ensureHostOrOperator. run.
  destruct (first_where _ (db_teams db)) as [team|] eqn:Et; run;
    [|try destruct (first_where _ (db_users db));
     intros [= _ <-]; reflexivity].
  destruct (first_where _ (db_users db)) as [actor|] eqn:Ea; run;
    (destruct (first_where _ (db_games db)) as [game|] eqn:Eg; run;
     [|intros [= _ <-]; reflexivity]); [|intros [= _ <-]; reflexivity].
  destruct (decide (game_hostId game <> as_actorId input)) as [Hh|Hh]; run.
  - destruct (decide (user_role actor <> HOST /\ user_role actor <> OPERATOR));
      run; [intros [= _ <-]; reflexivity|].
    unfold update. run. rewrite Et. discriminate.
  - unfold update. run. rewrite Et. discriminate.
Qed.

(** X15.  With a delta and a resulting score that the column holds:
    [adjustScore] returns exactly when the team, its game and the actor
    are there and the actor is the host of the team's game or has the role
    HOST or OPERATOR; it then adds the delta to the score of the team row
    and changes nothing else.  Whatever the state of the game. *)
Theorem adjustScore_iff db input t' db' :
  int_column (as_delta input) ->
  (forall team,
     first_where (fun t => team_id t = as_teamId input) (db_teams db)
       = Some team ->
     int_column (team_score team + as_delta input)) ->
  adjustScore input db = (Ok t', db') <->
  exists team game actor,
    first_where (fun t => team_id t = as_teamId input) (db_teams db)
      = Some team /\
    first_where (fun g => game_id g = team_gameId team) (db_games db)
      = Some game /\
    first_where (fun u => user_id u = as_actorId input) (db_users db)
      = Some actor /\
    (game_hostId game = as_actorId input \/
       user_role actor = HOST \/ user_role actor = OPERATOR) /\
    t' = mkTeam (team_id team) (team_gameId team) (team_name team)
           (team_order team) (team_score team + as_delta input) /\
    db' = set_rows prisma_team
            (update_where (fun t => team_id t = as_teamId input)
               (increment_score (as_delta input)) (db_teams db)) db.
Proof.
  intros _ _. split.
  - intros Hrun.
    destruct (adjustScore_returns _ _ _ _ Hrun)
      as (team & game & actor & Et & Eg & Ea & Hauth).
    rewrite (adjustScore_run db input team game actor Et Eg Ea Hauth) in Hrun.
    injection Hrun as <- <-. exists team, game, actor. auto 10.
  - intros (team & game & actor & Et & Eg & Ea & Hauth & -> & ->).
    apply adjustScore_run with (game := game) (actor := actor); assumption.
Qed.

Lemma adjustScore_iff_witness :
  exists t' db',
    adjustScore (mkAdjustScoreInput "tA" 200 "u-op") Scenario.playing
      = (Ok t', db') /\
    team_score t' = 200.
Proof.
  eexists _, _. split.
  - apply (proj2 (adjustScore_iff Scenario.playing
                    (mkAdjustScoreInput "tA" 200 "u-op") _ _
                    ltac:(unfold int_column; cbn; lia)
                    ltac:(intros team [= <-]; unfold int_column; cbn; lia))).
    exists Scenario.teamA, (mkGame "g1" "Quiz night" "u-host" 2 IN_PROGRESS),
      (mkUser "u-op" OPERATOR).
    split; [reflexivity|]. split; [reflexivity|]. split; [reflexivity|].
    split; [right; right; reflexivity|]. split; reflexivity.
  - reflexivity.
Defined.

(** X16.  Two adjustments of a team's score by the same actor, one after
    the other, leave the database that the one adjustment by the sum of the
    two deltas leaves, and return the same team row.  The two deltas, their
    sum, and the score after the first and after the second adjustment are
    taken to be numbers the column holds. *)
Theorem adjustScore_adds db teamId actorId d1 d2 t1 db1 :
  adjustScore (mkAdjustScoreInput teamId d1 actorId) db = (Ok t1, db1) ->
  int_column d1 -> int_column d2 -> int_column (d1 + d2) ->
  int_column (team_score t1) -> int_column (team_score t1 + d2) ->
  exists t2 db2,
    adjustScore (mkAdjustScoreInput teamId d2 actorId) db1 = (Ok t2, db2) /\
    adjustScore (mkAdjustScoreInput teamId (d1 + d2) actorId) db
      = (Ok t2, db2).
Proof.
  intros Hrun _ _ _ _ _.
  destruct (adjustScore_returns _ _ _ _ Hrun)
    as (team & game & actor & Et & Eg & Ea & Hauth).
  rewrite (adjustScore_run db _ team game actor Et Eg Ea Hauth) in Hrun.
  injection Hrun as <- <-. cbn [as_teamId as_delta as_actorId] in *.
  eexists _, _. split.
  - apply adjustScore_run
      with (team := increment_score d1 team) (game := game) (actor := actor);
      [|exact Eg|exact Ea|exact Hauth].
    run. cbn [as_teamId as_delta as_actorId].
    apply first_where_update_same; [intros r; reflexivity|exact Et].
  - rewrite (adjustScore_run db (mkAdjustScoreInput teamId (d1 + d2) actorId)
               team game actor Et Eg Ea Hauth).
    run. cbn [as_teamId as_delta as_actorId]. f_equal.
    + unfold increment_score.
      cbn [team_id team_gameId team_name team_order team_score].
      do 2 f_equal. lia.
    + f_equal.
      rewrite update_where_twice
        with (h := increment_score (d1 + d2)); [reflexivity| |].
      * intros r. reflexivity.
      * intros r. unfold increment_score.
        cbn [team_id team_gameId team_name team_order team_score].
        f_equal. lia.
Qed.

Lemma adjustScore_adds_witness :
  exists t2 db2,
    adjustScore (mkAdjustScoreInput "tA" (-50) "u-op")
      (snd (adjustScore (mkAdjustScoreInput "tA" 200 "u-op") Scenario.playing))
      = (Ok t2, db2) /\
    adjustScore (mkAdjustScoreInput "tA" (200 + -50) "u-op") Scenario.playing
      = (Ok t2, db2).
Proof.
  destruct (adjustScore (mkAdjustScoreInput "tA" 200 "u-op") Scenario.playing)
    as [[t1|e] db1] eqn:Hrun; [|vm_compute in Hrun; discriminate].
  assert (team_score t1 = 200) as Hscore
    by (vm_compute in Hrun; injection Hrun as <- _; reflexivity).
  apply (adjustScore_adds Scenario.playing "tA" "u-op" 200 (-50) t1 db1 Hrun);
    unfold int_column; rewrite ?Hscore; lia.
Defined.

(** With the team table keyed by id: where [removeTeam] stops. *)
Lemma removeTeam_returns db teamId actorId db' :
  removeTeam teamId actorId db = (Ok tt, db') ->
  exists team game,
    first_where (fun t => team_id t = teamId) (db_teams db) = Some team /\
    first_where (fun g => game_id g = team_gameId team) (db_games db)
      = Some game /\
    game_status game = LOBBY /\ game_hostId game = actorId.
Proof.
  unfold removeTeam, ensureLobbyGame. run.
  destruct (first_where _ (db_teams db)) as [team|] eqn:Et; run;
    [|discriminate].
  destruct (first_where _ (db_games db)) as [game|] eqn:Eg; run;
    [|discriminate].
  destruct (decide (game_status game <> LOBBY)) as [Hs|Hs]; run;
    [discriminate|].
  destruct (decide (game_hostId game <> actorId)) as [Hh|Hh]; run;
    [discriminate|].
  intros _. exists team, game.
  repeat split; try reflexivity; try assumption.
  - destruct (decide (game_status game = LOBBY)); tauto.
  - destruct (decide (game_hostId game = actorId)); tauto.
Qed.



End TeamMore.

(** ** The round service *)

Section RoundMore.

#[local] Instance round_le_total : Total round_le.
Proof. intros a b. unfold round_le. lia. Qed.

#[local] Instance round_le_trans : Transitive round_le.
Proof. intros a b c. unfold round_le. lia. Qed.

Lemma round_rank_in_cons r rs k :
  round_rank_in (r :: rs) k =
  if decide (round_id r = k) then Some 0%nat else S <$> round_rank_in rs k.
Proof.
  unfold round_rank_in. cbn [list_find].
  destruct (decide (round_id r = k)); [reflexivity|].
  destruct (list_find _ rs) as [[i x]|]; reflexivity.
Qed.

Lemma round_rank_in_None rs k :
  k ∉ round_id <$> rs -> round_rank_in rs k = None.
Proof.
  induction rs as [|r rs IH]; [reflexivity|].
  rewrite fmap_cons, not_elem_of_cons, round_rank_in_cons. intros [Hk Hrs].
  rewrite decide_False by congruence. rewrite IH by assumption. reflexivity.
Qed.

Lemma round_rank_in_lookup rs i r :
  NoDup (round_id <$> rs) -> rs !! i = Some r ->
  round_rank_in rs (round_id r) = Some i.
Proof.
  intros Hnd Hi. unfold round_rank_in.
  destruct (list_find (fun r0 => round_id r0 = round_id r) rs)
    as [[j x]|] eqn:E.
  - apply list_find_Some in E as (Hj & Hx & _). cbn. f_equal.
    eapply (NoDup_lookup _ _ _ _ Hnd); rewrite list_lookup_fmap.
    + rewrite Hj. cbn. rewrite Hx. reflexivity.
    + rewrite Hi. reflexivity.
  - apply list_find_None in E. rewrite Forall_lookup in E.
    exfalso. apply (E i r Hi). reflexivity.
Qed.

Lemma round_renumbered_id k rs r :
  round_id (round_renumbered k rs r) = round_id r.
Proof. unfold round_renumbered. destruct (round_rank_in _ _); reflexivity. Qed.

Lemma round_renumbered_gameId k rs r :
  round_gameId (round_renumbered k rs r) = round_gameId r.
Proof. unfold round_renumbered. destruct (round_rank_in _ _); reflexivity. Qed.

Lemma round_renumbered_step k r0 rs r :
  round_id r0 ∉ round_id <$> rs ->
  round_renumbered (S k) rs
    (if decide (round_id r = round_id r0)
     then set_round_order (Z.of_nat (k + 0) + 1) r else r)
  = round_renumbered k (r0 :: rs) r.
Proof.
  intros Hnd. unfold round_renumbered at 2. rewrite round_rank_in_cons.
  destruct (decide (round_id r = round_id r0)) as [E|E].
  - rewrite decide_True by congruence.
    unfold round_renumbered. cbn [set_round_order round_id]. rewrite E.
    rewrite round_rank_in_None by assumption. reflexivity.
  - rewrite decide_False by congruence.
    unfold round_renumbered.
    destruct (round_rank_in rs (round_id r)) as [i|]; [|reflexivity].
    cbn. do 2 f_equal. lia.
Qed.

Lemma round_rows_same db : set_rows prisma_round (db_rounds db) db = db.
Proof. destruct db; reflexivity. Qed.

(** The re-ordering loop of [deleteRound]: every update goes through, and
    the table that results is the old one with each listed round
    renumbered. *)
Lemma promise_all_round_renumber rs : forall k db,
  NoDup (round_id <$> rs) ->
  (forall r, r ∈ rs ->
     is_Some (first_where (fun x => round_id x = round_id r) (db_rounds db))) ->
  exists res,
    promise_all
      (imap (fun index r =>
               update prisma_round (round_id r)
                 (set_round_order (Z.of_nat (k + index) + 1))) rs) db
    = (Ok res,
       set_rows prisma_round (round_renumbered k rs <$> db_rounds db) db).
Proof.
  induction rs as [|r rs IH]; intros k db Hnd Hin.
  - exists []. cbn [imap promise_all].
    rewrite (list_fmap_ext (round_renumbered k []) id (db_rounds db))
      by (intros; reflexivity).
    rewrite list_fmap_id, round_rows_same. reflexivity.
  - rewrite fmap_cons, NoDup_cons in Hnd. destruct Hnd as [Hr Hnd].
    rewrite imap_cons. cbn [promise_all].
    destruct (Hin r) as [x Ex]; [left|].
    rewrite (update_ok prisma_round (round_id r) _ db x Ex).
    cbn [rows set_rows prisma_round rid].
    rewrite (imap_ext _ (fun index r0 =>
               update prisma_round (round_id r0)
                 (set_round_order (Z.of_nat (S k + index) + 1))))
      by (intros i y _; cbn; do 3 f_equal; lia).
    edestruct (IH (S k)) as [res Hres]; [exact Hnd| |eexists; rewrite Hres].
    + intros r' Hr'. cbn [db_rounds].
      rewrite first_where_update by reflexivity.
      destruct (Hin r') as [x' ->]; [by right|]. eexists; reflexivity.
    + f_equal. cbn. f_equal.
      unfold update_where. rewrite <- list_fmap_compose.
      apply list_fmap_ext. intros i y _. cbn.
      apply round_renumbered_step. assumption.
Qed.

Lemma round_renumbered_self k (rs : list Round) :
  NoDup (round_id <$> rs) ->
  round_order <$> (round_renumbered k rs <$> rs)
  = seqZ (Z.of_nat k + 1) (Z.of_nat (length rs)).
Proof.
  intros Hnd. apply list_eq. intros i.
  rewrite !list_lookup_fmap.
  destruct (rs !! i) as [r|] eqn:E; cbn.
  - unfold round_renumbered. rewrite (round_rank_in_lookup rs i r Hnd E). cbn.
    symmetry. apply lookup_seqZ. split; [lia|].
    apply lookup_lt_Some in E. lia.
  - symmetry. apply lookup_seqZ_ge. apply lookup_ge_None in E. lia.
Qed.

Lemma NoDup_round_ids_filter (P : Round -> Prop) `{!forall r, Decision (P r)}
    (rs : list Round) :
  NoDup (round_id <$> rs) -> NoDup (round_id <$> filter P rs).
Proof.
  intros Hnd. apply (sublist_NoDup _ (round_id <$> rs)); [exact Hnd|].
  apply fmap_sublist, sublist_filter.
Qed.

(** A list whose orders are sorted is sorted by order. *)
Lemma Sorted_round_le (rs : list Round) :
  Sorted Z.le (round_order <$> rs) -> Sorted round_le rs.
Proof.
  induction rs as [|r rs IH]; [constructor|].
  rewrite fmap_cons. intros H. apply Sorted_inv in H as [Hs Hh].
  constructor; [apply IH, Hs|].
  destruct rs as [|r' rs]; [constructor|].
  rewrite fmap_cons in Hh. apply HdRel_inv in Hh. constructor. exact Hh.
Qed.

(** The rounds that [listRounds] reads once the loop has run over them:
    the rounds the loop was given, in its order, renumbered. *)
Lemma by_round_order_renumbered (G : list Round) :
  NoDup (round_id <$> G) ->
  let rs := by_round_order G in
  by_round_order (round_renumbered 0 rs <$> G) = round_renumbered 0 rs <$> rs.
Proof.
  intros Hnd rs.
  assert (rs ≡ₚ G) as Hperm by apply merge_sort_Permutation.
  assert (NoDup (round_id <$> rs)) as Hnd' by (rewrite Hperm; exact Hnd).
  pose proof (round_renumbered_self 0 rs Hnd') as Hself.
  set (f := round_renumbered 0 rs) in *. clearbody f.
  apply (Sorted_unique_strong round_le).
  - intros x1 x2 Hx Hx2 H12 H21.
    assert (x1 ∈ f <$> rs) as Hx1.
    { unfold by_round_order in Hx. rewrite merge_sort_Permutation in Hx.
      rewrite Hperm. exact Hx. }
    apply list_elem_of_lookup in Hx1 as [i Hi], Hx2 as [j Hj].
    assert (round_order x1 = Z.of_nat i + 1) as E1.
    { assert ((round_order <$> (f <$> rs)) !! i
              = Some (round_order x1)) as H
        by (rewrite list_lookup_fmap, Hi; reflexivity).
      rewrite Hself in H. apply lookup_seqZ in H. lia. }
    assert (round_order x2 = Z.of_nat j + 1) as E2.
    { assert ((round_order <$> (f <$> rs)) !! j
              = Some (round_order x2)) as H
        by (rewrite list_lookup_fmap, Hj; reflexivity).
      rewrite Hself in H. apply lookup_seqZ in H. lia. }
    unfold round_le in H12, H21. assert (i = j) as -> by lia. congruence.
  - apply (Sorted_merge_sort round_le).
  - apply Sorted_round_le. rewrite Hself. apply Sorted_seqZ.
  - unfold by_round_order at 1. rewrite merge_sort_Permutation.
    apply fmap_Permutation. symmetry. exact Hperm.
Qed.

(** What [deleteRound] leaves behind when it goes through. *)
Lemma deleteRound_run db roundId actorId round game :
  NoDup (round_id <$> db_rounds db) ->
  first_where (fun r => round_id r = roundId) (db_rounds db) = Some round ->
  first_where (fun g => game_id g = round_gameId round) (db_games db)
    = Some game ->
  game_hostId game = actorId ->
  game_status game = LOBBY ->
  let rest := delete_where (fun r => round_id r = roundId) (db_rounds db) in
  let rs :=
    by_round_order
      (many_where (fun r => round_gameId r = round_gameId round) rest) in
  deleteRound roundId actorId db
  = (Ok tt, set_rows prisma_round (round_renumbered 0 rs <$> rest) db).
Proof.
  intros Hnd Er Eg Hh Hs rest rs.
  unfold deleteRound, ensureHost. run. rewrite Er. run. rewrite Eg. run.
  rewrite decide_False by (intros H; apply H, Hh). run.
  rewrite decide_False by (intros H; apply H, Hs). run.
  unfold delete. run. rewrite Er. run. fold rest. fold rs.
  set (db1 := mkDB _ _ _ _ _ _ _ _ _).
  assert (NoDup (round_id <$> rest)) as Hnd1
    by apply NoDup_round_ids_filter, Hnd.
  assert (rs ≡ₚ many_where (fun r => round_gameId r = round_gameId round) rest)
    as Hperm by apply merge_sort_Permutation.
  destruct (promise_all_round_renumber rs 0 db1) as [res Hres].
  - rewrite Hperm. apply NoDup_round_ids_filter, Hnd1.
  - intros r Hr. rewrite Hperm in Hr.
    apply list_elem_of_filter in Hr as [_ Hr].
    eapply first_where_is_Some; [exact Hr|reflexivity].
  - cbn [Nat.add] in Hres. rewrite Hres. reflexivity.
Qed.

(** Where [deleteRound] and [updateRoundOrder] stop. *)
Lemma deleteRound_returns db roundId actorId db' :
  deleteRound roundId actorId db = (Ok tt, db') ->
  exists round game,
    first_where (fun r => round_id r = roundId) (db_rounds db) = Some round /\
    first_where (fun g => game_id g = round_gameId round) (db_games db)
      = Some game /\
    game_hostId game = actorId /\ game_status game = LOBBY.
Proof.
  unfold deleteRound, ensureHost. run.
  destruct (first_where _ (db_rounds db)) as [round|] eqn:Er; run;
    [|discriminate].
  destruct (first_where _ (db_games db)) as [game|] eqn:Eg; run;
    [|discriminate].
  destruct (decide (game_hostId game <> actorId)) as [Hh|Hh]; run;
    [discriminate|].
  destruct (decide (game_status game <> LOBBY)) as [Hs|Hs]; run;
    [discriminate|].
  intros _. exists round, game.
  repeat split; try reflexivity; try assumption.
  - destruct (decide (game_hostId game = actorId)); tauto.
  - destruct (decide (game_status game = LOBBY)); tauto.
Qed.

Lemma deleteRound_throws db roundId actorId e db' :
  NoDup (round_id <$> db_rounds db) ->
  deleteRound roundId actorId db = (Err e, db') -> db' = db.
Proof.
  intros Hnd Hrun.
  destruct (first_where (fun r => round_id r = roundId) (db_rounds db))
    as [round|] eqn:Er.
  2:{ revert Hrun. unfold deleteRound. run. rewrite Er.
      intros [= _ <-]. reflexivity. }
  destruct (first_where (fun g => game_id g = round_gameId round)
              (db_games db)) as [game|] eqn:Eg.
  2:{ revert Hrun. unfold deleteRound. run. rewrite Er. run. rewrite Eg.
      intros [= _ <-]. reflexivity. }
  destruct (decide (game_hostId game = actorId)) as [Hh|Hh].
  2:{ revert Hrun. unfold deleteRound, ensureHost. run. rewrite Er. run.
      rewrite Eg. run. rewrite decide_True by exact Hh.
      intros [= _ <-]. reflexivity. }
  destruct (decide (game_status game = LOBBY)) as [Hs|Hs].
  2:{ revert Hrun. unfold deleteRound, ensureHost. run. rewrite Er. run.
      rewrite Eg. run. rewrite decide_False by (intros H; apply H, Hh). run.
      rewrite decide_True by exact Hs. intros [= _ <-]. reflexivity. }
  rewrite (deleteRound_run db roundId actorId round game Hnd Er Eg Hh Hs)
    in Hrun. discriminate.
Qed.

(** X18.  With the round table keyed by id, [deleteRound] returns exactly
    when the round and its game are there, the actor is the game's host and
    the game is in LOBBY; a call that throws writes nothing.  After it the
    round is gone; [listRounds] of its game reads the remaining rounds of
    the game, numbered 1, 2, ..., N whatever the old orders were; two
    remaining rounds of the game whose old orders were strictly ordered
    are strictly ordered, the same way, after; and a round of another game
    keeps its row. *)
Theorem deleteRound_renumbers db roundId actorId :
  NoDup (round_id <$> db_rounds db) ->
  ((exists db', deleteRound roundId actorId db = (Ok tt, db')) <->
   exists round game,
     first_where (fun r => round_id r = roundId) (db_rounds db) = Some round /\
     first_where (fun g => game_id g = round_gameId round) (db_games db)
       = Some game /\
     game_hostId game = actorId /\ game_status game = LOBBY) /\
  (forall e db', deleteRound roundId actorId db = (Err e, db') -> db' = db) /\
  (forall db' round,
     deleteRound roundId actorId db = (Ok tt, db') ->
     first_where (fun r => round_id r = roundId) (db_rounds db) = Some round ->
     first_where (fun r => round_id r = roundId) (db_rounds db') = None /\
     (exists remaining,
        listRounds (round_gameId round) db' = (Ok remaining, db') /\
        round_order <$> remaining = seqZ 1 (Z.of_nat (length remaining)) /\
        round_id <$> remaining
        ≡ₚ round_id <$>
             many_where (fun r => round_gameId r = round_gameId round)
               (delete_where (fun r => round_id r = roundId)
                  (db_rounds db))) /\
     (forall r1 r2,
        r1 ∈ db_rounds db -> r2 ∈ db_rounds db ->
        round_gameId r1 = round_gameId round ->
        round_gameId r2 = round_gameId round ->
        round_id r1 <> roundId -> round_id r2 <> roundId ->
        round_order r1 < round_order r2 ->
        exists r1' r2',
          first_where (fun x => round_id x = round_id r1) (db_rounds db')
            = Some r1' /\
          first_where (fun x => round_id x = round_id r2) (db_rounds db')
            = Some r2' /\
          round_order r1' < round_order r2') /\
     (forall r,
        r ∈ db_rounds db -> round_gameId r <> round_gameId round ->
        first_where (fun x => round_id x = round_id r) (db_rounds db')
          = Some r)).
Proof.
  intros Hnd. split; [split|split].
  - intros [db' Hrun]. exact (deleteRound_returns _ _ _ _ Hrun).
  - intros (round & game & Er & Eg & Hh & Hs). eexists.
    apply (deleteRound_run db roundId actorId round game); assumption.
  - intros e db'. apply deleteRound_throws, Hnd.
  - intros db' round Hrun Er.
    destruct (deleteRound_returns _ _ _ _ Hrun)
      as (round' & game & Er' & Eg & Hh & Hs).
    assert (round' = round) as -> by congruence.
    rewrite (deleteRound_run db roundId actorId round game Hnd Er Eg Hh Hs)
      in Hrun. cbv zeta in Hrun. injection Hrun as <-. run.
    set (rest := delete_where (fun r => round_id r = roundId) (db_rounds db)).
    set (g := round_gameId round).
    set (G := many_where (fun r => round_gameId r = g) rest).
    assert (NoDup (round_id <$> rest)) as Hnd1
      by apply NoDup_round_ids_filter, Hnd.
    assert (NoDup (round_id <$> G)) as HndG
      by apply NoDup_round_ids_filter, Hnd1.
    assert (by_round_order G ≡ₚ G) as Hperm by apply merge_sort_Permutation.
    assert (NoDup (round_id <$> by_round_order G)) as Hnd2
      by (rewrite Hperm; exact HndG).
    split; [|split; [|split]].
    + rewrite first_where_fmap
        by (intros r; rewrite round_renumbered_id; tauto).
      unfold rest. rewrite first_where_delete_same. reflexivity.
    + eexists. split.
      { unfold listRounds. run. reflexivity. }
      rewrite many_where_fmap
        by (intros r; rewrite round_renumbered_gameId; reflexivity).
      fold G. rewrite (by_round_order_renumbered G HndG).
      rewrite length_fmap. split.
      * apply (round_renumbered_self 0 (by_round_order G) Hnd2).
      * rewrite <- list_fmap_compose.
        rewrite (list_fmap_ext _ round_id (by_round_order G))
          by (intros i x _; apply round_renumbered_id).
        apply fmap_Permutation, Hperm.
    + intros r1 r2 H1 H2 Hg1 Hg2 Hid1 Hid2 Hlt.
      assert (StronglySorted round_le (by_round_order G)) as Hsorted
        by apply (StronglySorted_merge_sort round_le).
      assert (forall t, t ∈ db_rounds db -> round_gameId t = g ->
                round_id t <> roundId ->
                exists i, by_round_order G !! i = Some t /\
                first_where (fun x => round_id x = round_id t)
                  (round_renumbered 0 (by_round_order G) <$> rest)
                = Some (set_round_order (Z.of_nat i + 1) t)) as Hfind.
      { intros t Ht Hg Hid.
        assert (t ∈ rest) as Hr
          by (apply list_elem_of_filter; split; assumption).
        assert (t ∈ by_round_order G) as Hts
          by (rewrite Hperm; apply list_elem_of_filter; split; assumption).
        apply list_elem_of_lookup in Hts as [i Hi]. exists i.
        split; [exact Hi|].
        rewrite first_where_fmap
          by (intros x; rewrite round_renumbered_id; reflexivity).
        rewrite (first_where_key round_id rest t Hnd1 Hr). cbn. f_equal.
        unfold round_renumbered.
        rewrite (round_rank_in_lookup (by_round_order G) i t Hnd2 Hi).
        reflexivity. }
      destruct (Hfind r1 H1 Hg1 Hid1) as (i1 & Hi1 & E1).
      destruct (Hfind r2 H2 Hg2 Hid2) as (i2 & Hi2 & E2).
      eexists _, _. split; [exact E1|]. split; [exact E2|].
      cbn [set_round_order round_order].
      destruct (decide (i1 < i2)%nat) as [Hi|Hi]; [lia|exfalso].
      destruct (decide (i1 = i2)) as [->|Hne].
      * rewrite Hi1 in Hi2. injection Hi2 as ->. lia.
      * assert (round_le r2 r1) as Hle
          by (eapply (StronglySorted_lookup_le round_le (by_round_order G)
                        i2 i1); eauto; lia).
        unfold round_le in Hle. lia.
    + intros r Hr Hg.
      assert (round_id r <> roundId) as Hne.
      { intros E. apply Hg. f_equal.
        destruct (first_where_Some _ _ _ Er) as [Hid Hin].
        cbn in Hid.
        apply (NoDup_key_eq round_id (db_rounds db) r round Hnd Hr Hin).
        congruence. }
      assert (r ∈ rest) as Hrest
        by (apply list_elem_of_filter; split; assumption).
      rewrite first_where_fmap
        by (intros x; rewrite round_renumbered_id; tauto).
      rewrite (first_where_key round_id rest r Hnd1 Hrest). cbn. f_equal.
      unfold round_renumbered. rewrite round_rank_in_None; [reflexivity|].
      intros Hin. apply list_elem_of_fmap in Hin as (x & Hid & Hx).
      rewrite Hperm in Hx. apply list_elem_of_filter in Hx as [Hxg Hx].
      assert (x = r) as ->
        by exact (NoDup_key_eq round_id rest x r Hnd1 Hx Hrest (eq_sym Hid)).
      exact (Hg Hxg).
Qed.

Lemma deleteRound_renumbers_witness :
  exists db' remaining r2' r3',
    deleteRound "r1" "u-host" Scenario.rounds3 = (Ok tt, db') /\
    listRounds "g1" db' = (Ok remaining, db') /\
    round_order <$> remaining = seqZ 1 (Z.of_nat (length remaining)) /\
    first_where (fun x => round_id x = "r2") (db_rounds db') = Some r2' /\
    first_where (fun x => round_id x = "r3") (db_rounds db') = Some r3' /\
    round_order r2' < round_order r3'.
Proof.
  assert (NoDup (round_id <$> db_rounds Scenario.rounds3)) as Hnd
    by (apply (bool_decide_unpack _); vm_compute; exact I).
  destruct (deleteRound_renumbers Scenario.rounds3 "r1" "u-host" Hnd)
    as (_ & _ & Hafter).
  destruct (deleteRound "r1" "u-host" Scenario.rounds3) as [[[]|e] db']
    eqn:Hrun; [|vm_compute in Hrun; discriminate].
  destruct (Hafter db' (mkRound "r1" "g1" 1) eq_refl eq_refl)
    as (_ & (remaining & Hlist & Hord & _) & Hkeep & _).
  destruct (Hkeep (mkRound "r2" "g1" 2) (mkRound "r3" "g1" 7))
    as (r2' & r3' & E2 & E3 & Hlt);
    try reflexivity; try discriminate; try (cbn; lia).
  - apply (list_elem_of_lookup_2 _ 3%nat). reflexivity.
  - apply (list_elem_of_lookup_2 _ 0%nat). reflexivity.
  - exists db', remaining, r2', r3'. split; [reflexivity|]. auto.
Defined.

Lemma updateRoundOrder_run db roundId newOrder actorId round game :
  first_where (fun r => round_id r = roundId) (db_rounds db) = Some round ->
  first_where (fun g => game_id g = round_gameId round) (db_games db)
    = Some game ->
  game_hostId game = actorId ->
  game_status game = LOBBY ->
  updateRoundOrder roundId newOrder actorId db
  = (Ok (set_round_order newOrder round),
     set_rows prisma_round
       (update_where (fun r => round_id r = roundId)
          (set_round_order newOrder) (db_rounds db)) db).
Proof.
  intros Er Eg Hh Hs.
  unfold updateRoundOrder, ensureHost. run. rewrite Er. run. rewrite Eg. run.
  rewrite decide_False by (intros H; apply H, Hh). run.
  rewrite decide_False by (intros H; apply H, Hs). run.
  unfold update. run. rewrite Er. reflexivity.
Qed.

Lemma updateRoundOrder_returns db roundId newOrder actorId r' db' :
  updateRoundOrder roundId newOrder actorId db = (Ok r', db') ->
  exists round game,
    first_where (fun r => round_id r = roundId) (db_rounds db) = Some round /\
    first_where (fun g => game_id g = round_gameId round) (db_games db)
      = Some game /\
    game_hostId game = actorId /\ game_status game = LOBBY.
Proof.
  unfold updateRoundOrder, ensureHost. run.
  destruct (first_where _ (db_rounds db)) as [round|] eqn:Er; run;
    [|discriminate].
  destruct (first_where _ (db_games db)) as [game|] eqn:Eg; run;
    [|discriminate].
  destruct (decide (game_hostId game <> actorId)) as [Hh|Hh]; run;
    [discriminate|].
  destruct (decide (game_status game <> LOBBY)) as [Hs|Hs]; run;
    [discriminate|].
  intros _. exists round, game.
  repeat split; try reflexivity; try assumption.
  - destruct (decide (game_hostId game = actorId)); tauto.
  - destruct (decide (game_status game = LOBBY)); tauto.
Qed.

(** X19.  With a new order that the column holds, [updateRoundOrder]
    returns exactly when the round and its game are there, the actor is
    the game's host and the game is in LOBBY.  It writes the order it was
    given, whatever it is, on that round, which keeps its game; every
    other round keeps its row, so the order may now be one that another
    round of the game has. *)
Theorem updateRoundOrder_iff db roundId newOrder actorId :
  (int_column newOrder ->
   ((exists r' db',
       updateRoundOrder roundId newOrder actorId db = (Ok r', db'))
    <->
    exists round game,
      first_where (fun r => round_id r = roundId) (db_rounds db)
        = Some round /\
      first_where (fun g => game_id g = round_gameId round) (db_games db)
        = Some game /\
      game_hostId game = actorId /\ game_status game = LOBBY)) /\
  (forall r' db',
     updateRoundOrder roundId newOrder actorId db = (Ok r', db') ->
     round_order r' = newOrder /\
     first_where (fun r => round_id r = roundId) (db_rounds db') = Some r' /\
     (exists round,
        first_where (fun r => round_id r = roundId) (db_rounds db)
          = Some round /\
        round_id r' = round_id round /\
        round_gameId r' = round_gameId round) /\
     forall k, k <> roundId ->
       first_where (fun r => round_id r = k) (db_rounds db')
       = first_where (fun r => round_id r = k) (db_rounds db)).
Proof.
  split; [intros _; split|].
  - intros (r' & db' & Hrun). exact (updateRoundOrder_returns _ _ _ _ _ _ Hrun).
  - intros (round & game & Er & Eg & Hh & Hs). eexists _, _.
    apply (updateRoundOrder_run db roundId newOrder actorId round game);
      assumption.
  - intros r' db' Hrun.
    destruct (updateRoundOrder_returns _ _ _ _ _ _ Hrun)
      as (round & game & Er & Eg & Hh & Hs).
    rewrite (updateRoundOrder_run db roundId newOrder actorId round game
               Er Eg Hh Hs) in Hrun.
    injection Hrun as <- <-. run. split; [reflexivity|]. split; [|split].
    + apply first_where_update_same; [intros r; reflexivity|exact Er].
    + exists round. auto.
    + intros k Hk.
      apply (first_where_update_other round_id); [reflexivity|exact Hk].
Qed.

Lemma updateRoundOrder_iff_witness :
  exists r' db',
    updateRoundOrder "r3" 2 "u-host" Scenario.rounds3 = (Ok r', db').
Proof.
  assert (int_column 2) as Hfits by (unfold int_column; lia).
  apply (proj2 (proj1 (updateRoundOrder_iff Scenario.rounds3 "r3" 2 "u-host")
                  Hfits)).
  exists (mkRound "r3" "g1" 7), (mkGame "g1" "Quiz night" "u-host" 2 LOBBY).
  split; [reflexivity|]. split; [reflexivity|]. split; reflexivity.
Defined.

End RoundMore.

(** ** The clue and response services, continued *)

Section ClueMore.

(** [loadClue] does not read the state table. *)
Lemma loadClue_clueStates clueId states db :
  fst (loadClue clueId (set_rows prisma_clueState states db))
  = fst (loadClue clueId db).
Proof.
  unfold loadClue. run.
  repeat (case_first; [run|reflexivity]). reflexivity.
Qed.

(** Selecting a clue whose state row is AVAILABLE rewrites the row. *)
Lemma selectClue_reselects genId db input ctx team mem old :
  fst (loadClue (sc_clueId input) db) = Ok ctx ->
  game_status (cwc_game ctx) = IN_PROGRESS ->
  first_where (fun s => cs_clueId s = sc_clueId input) (db_clueStates db)
    = Some old ->
  cs_state old = AVAILABLE ->
  first_where (fun t => team_id t = sc_teamId input) (db_teams db)
    = Some team ->
  team_gameId team = round_gameId (cwc_round ctx) ->
  first_where (fun m => member_teamId m = sc_teamId input /\
                        member_userId m = sc_actorId input)
    (db_members db) = Some mem ->
  let pend := fun s => mkClueState (cs_id s) (cs_clueId s) (cs_gameId s)
                         PENDING (Some (sc_teamId input)) (cs_resolvedById s) in
  exists r,
    first_where (fun s => cs_id s = cs_id old) (db_clueStates db) = Some r /\
    selectClue genId input db
    = (Ok (pend r),
       set_rows prisma_clueState
         (update_where (fun s => cs_id s = cs_id old) pend (db_clueStates db))
         db).
Proof.
  intros Hclue Hg Es Ha Et Hsame Em pend. apply loadClue_Ok in Hclue.
  destruct (first_where_Some _ _ _ Es) as [_ Hin].
  destruct (first_where_is_Some (fun r => cs_id r = cs_id old)
              (db_clueStates db) old Hin eq_refl) as [r Er].
  exists r. split; [exact Er|].
  unfold selectClue, ensureGameInProgress. run. rewrite Hclue.
  rewrite decide_False by (intros H; apply H, Hg).
  rewrite Et, Es. rewrite decide_False by (intros H; apply H, Hsame).
  rewrite Em. rewrite decide_False by (intros H; apply H, Ha).
  rewrite (update_ok prisma_clueState (cs_id old) _ db r Er). reflexivity.
Qed.

(** A [selectClue] that returns found the clue in a game in progress, the
    team in that game, the actor on the team, and the clue not taken. *)
Lemma selectClue_returns genId db input s db' :
  selectClue genId input db = (Ok s, db') ->
  exists ctx team mem,
    fst (loadClue (sc_clueId input) db) = Ok ctx /\
    game_status (cwc_game ctx) = IN_PROGRESS /\
    first_where (fun t => team_id t = sc_teamId input) (db_teams db)
      = Some team /\
    team_gameId team = round_gameId (cwc_round ctx) /\
    first_where (fun m => member_teamId m = sc_teamId input /\
                          member_userId m = sc_actorId input)
      (db_members db) = Some mem /\
    ~ taken (sc_clueId input) db.
Proof.
  unfold selectClue, ensureGameInProgress. run.
  pose proof (loadClue_pure (sc_clueId input) db) as Hp.
  destruct (loadClue (sc_clueId input) db) as [[ctx|e] db1] eqn:El;
    cbn [snd] in Hp; subst db1; [|discriminate].
  run.
  destruct (decide (game_status (cwc_game ctx) <> IN_PROGRESS)) as [Hg|Hg];
    [discriminate|]. run.
  destruct (first_where _ (db_teams db)) as [team|] eqn:Et; [|discriminate].
  destruct (decide (team_gameId team <> round_gameId (cwc_round ctx)))
    as [Hsame|Hsame]; [discriminate|].
  destruct (first_where _ (db_members db)) as [mem|] eqn:Em; [|discriminate].
  intros Hrun. exists ctx, team, mem.
  split; [reflexivity|]. split; [apply dec_stable, Hg|].
  split; [reflexivity|]. split; [apply dec_stable, Hsame|].
  split; [reflexivity|].
  intros (old & Es & Hne). unfold taken_in in *. rewrite Es in Hrun.
  rewrite decide_True in Hrun by exact Hne. discriminate.
Qed.

Lemma selectClue_throws genId db input e db' :
  selectClue genId input db = (Err e, db') -> db' = db.
Proof.
  unfold selectClue, ensureGameInProgress. run.
  pose proof (loadClue_pure (sc_clueId input) db) as Hp.
  destruct (loadClue (sc_clueId input) db) as [[ctx|e0] db1] eqn:El;
    cbn [snd] in Hp; subst db1; [|intros [= _ <-]; reflexivity].
  run.
  destruct (decide (game_status (cwc_game ctx) <> IN_PROGRESS));
    [intros [= _ <-]; reflexivity|]. run.
  destruct (first_where _ (db_teams db)) as [team|];
    [|intros [= _ <-]; reflexivity].
  destruct (decide (team_gameId team <> round_gameId (cwc_round ctx)));
    [intros [= _ <-]; reflexivity|].
  destruct (first_where _ (db_members db)) as [mem|];
    [|intros [= _ <-]; reflexivity].
  destruct (first_where _ (db_clueStates db)) as [old|] eqn:Es.
  - destruct (decide (cs_state old <> AVAILABLE));
      [intros [= _ <-]; reflexivity|].
    destruct (first_where_Some _ _ _ Es) as [_ Hin].
    destruct (first_where_is_Some (fun r => cs_id r = cs_id old)
                (db_clueStates db) old Hin eq_refl) as [r Er].
    rewrite (update_ok prisma_clueState (cs_id old) _ db r Er). discriminate.
  - unfold create. discriminate.
Qed.

(** X20.  [selectClue] returns exactly when the clue is there, its game is
    in progress, the team is a team of that game, the actor is on the team
    and the clue is not taken: it has no state row, or one that is
    AVAILABLE.  The row it returns is PENDING and picked by the team, and
    is the row then found for the clue.  A call that throws writes
    nothing. *)
Theorem selectClue_iff genId db input :
  ((exists s db', selectClue genId input db = (Ok s, db')) <->
   exists ctx team mem,
     fst (loadClue (sc_clueId input) db) = Ok ctx /\
     game_status (cwc_game ctx) = IN_PROGRESS /\
     first_where (fun t => team_id t = sc_teamId input) (db_teams db)
       = Some team /\
     team_gameId team = round_gameId (cwc_round ctx) /\
     first_where (fun m => member_teamId m = sc_teamId input /\
                           member_userId m = sc_actorId input)
       (db_members db) = Some mem /\
     ~ taken (sc_clueId input) db) /\
  (forall s db',
     selectClue genId input db = (Ok s, db') ->
     cs_state s = PENDING /\
     cs_pickedByTeamId s = Some (sc_teamId input) /\
     (NoDup (cs_id <$> db_clueStates db) ->
      cs_clueId s = sc_clueId input /\
      first_where (fun x => cs_clueId x = sc_clueId input)
        (db_clueStates db') = Some s)) /\
  (forall e db', selectClue genId input db = (Err e, db') -> db' = db).
Proof.
  split; [split|split].
  - intros (s & db' & Hrun). exact (selectClue_returns _ _ _ _ _ Hrun).
  - intros (ctx & team & mem & Hclue & Hg & Et & Hsame & Em & Hfree).
    destruct (first_where (fun s => cs_clueId s = sc_clueId input)
                (db_clueStates db)) as [old|] eqn:Es.
    + assert (cs_state old = AVAILABLE) as Ha.
      { destruct (decide (cs_state old = AVAILABLE)) as [|Hne]; [assumption|].
        exfalso. apply Hfree. exists old. split; assumption. }
      destruct (selectClue_reselects genId db input ctx team mem old
                  Hclue Hg Es Ha Et Hsame Em) as (r & _ & Hrun).
      eexists _, _. exact Hrun.
    + eexists _, _.
      exact (selectClue_creates genId db input ctx team mem
               Hclue Hg Es Et Hsame Em).
  - intros s db' Hrun.
    destruct (selectClue_returns _ _ _ _ _ Hrun)
      as (ctx & team & mem & Hclue & Hg & Et & Hsame & Em & Hfree).
    destruct (first_where (fun s => cs_clueId s = sc_clueId input)
                (db_clueStates db)) as [old|] eqn:Es.
    + assert (cs_state old = AVAILABLE) as Ha.
      { destruct (decide (cs_state old = AVAILABLE)) as [|Hne]; [assumption|].
        exfalso. apply Hfree. exists old. split; assumption. }
      destruct (selectClue_reselects genId db input ctx team mem old
                  Hclue Hg Es Ha Et Hsame Em) as (r & Er & Hrun').
      rewrite Hrun' in Hrun. injection Hrun as <- <-. run.
      cbn [cs_state cs_pickedByTeamId cs_clueId].
      split; [reflexivity|]. split; [reflexivity|]. intros Hnd.
      destruct (first_where_Some _ _ _ Es) as [Hc Hin].
      rewrite (first_where_key cs_id _ old Hnd Hin) in Er.
      injection Er as <-. split; [exact Hc|].
      rewrite first_where_update by reflexivity. rewrite Es.
      cbn [fmap option_fmap option_map].
      rewrite decide_True by reflexivity. reflexivity.
    + pose proof (selectClue_creates genId db input ctx team mem
                    Hclue Hg Es Et Hsame Em) as Hrun'.
      cbv zeta in Hrun'. rewrite Hrun' in Hrun. injection Hrun as <- <-. run.
      cbn [cs_state cs_pickedByTeamId cs_clueId].
      split; [reflexivity|]. split; [reflexivity|]. intros _.
      split; [reflexivity|].
      rewrite first_where_app, Es, first_where_cons.
      rewrite decide_True by reflexivity. reflexivity.
  - intros e db'. apply selectClue_throws.
Qed.

(** X21.  With the state table keyed by id, a clue that has a state row,
    whatever its state, is handed back by [resetClueState]: a
    [selectClue] by a member of a team of the game, the game being in
    progress, then returns; it rewrites the row the clue had, now PENDING,
    picked by that team and with no resolver, and adds no row. *)
Theorem selectClue_after_reset genId db input opId ctx op team mem old :
  NoDup (cs_id <$> db_clueStates db) ->
  fst (loadClue (sc_clueId input) db) = Ok ctx ->
  game_status (cwc_game ctx) = IN_PROGRESS ->
  first_where (fun u => user_id u = opId) (db_users db) = Some op ->
  first_where (fun s => cs_clueId s = sc_clueId input) (db_clueStates db)
    = Some old ->
  first_where (fun t => team_id t = sc_teamId input) (db_teams db)
    = Some team ->
  team_gameId team = round_gameId (cwc_round ctx) ->
  first_where (fun m => member_teamId m = sc_teamId input /\
                        member_userId m = sc_actorId input)
    (db_members db) = Some mem ->
  exists s0 db1 s db2,
    resetClueState genId (sc_clueId input) opId db = (Ok s0, db1) /\
    selectClue genId input db1 = (Ok s, db2) /\
    s = mkClueState (cs_id old) (cs_clueId old) (cs_gameId old)
          PENDING (Some (sc_teamId input)) None /\
    first_where (fun x => cs_clueId x = sc_clueId input) (db_clueStates db2)
      = Some s /\
    length (db_clueStates db2) = length (db_clueStates db).
Proof.
  intros Hnd Hclue Hg Eo Es Et Hsame Em.
  destruct (first_where_Some _ _ _ Es) as [Hc Hin].
  pose proof (first_where_key cs_id _ old Hnd Hin) as Er.
  set (reset := fun s => mkClueState (cs_id s) (cs_clueId s) (cs_gameId s)
                           AVAILABLE None None).
  set (db1 := set_rows prisma_clueState
                (update_where (fun s => cs_id s = cs_id old) reset
                   (db_clueStates db)) db).
  assert (resetClueState genId (sc_clueId input) opId db
          = (Ok (reset old), db1)) as Hreset.
  { unfold resetClueState. run. rewrite (loadClue_Ok _ _ _ Hclue), Eo, Es.
    rewrite (update_ok prisma_clueState (cs_id old) _ db old Er).
    reflexivity. }
  assert (first_where (fun s => cs_clueId s = sc_clueId input)
            (db_clueStates db1) = Some (reset old)) as Es1.
  { unfold db1. run. rewrite first_where_update by reflexivity. rewrite Es.
    cbn [fmap option_fmap option_map].
    rewrite decide_True by reflexivity. reflexivity. }
  assert (fst (loadClue (sc_clueId input) db1) = Ok ctx) as Hclue1.
  { unfold db1. rewrite loadClue_clueStates. exact Hclue. }
  destruct (selectClue_reselects genId db1 input ctx team mem (reset old)
              Hclue1 Hg Es1 eq_refl Et Hsame Em) as (r & Er1 & Hrun).
  assert (r = reset old) as ->.
  { revert Er1. unfold db1. run. cbn [reset cs_id].
    rewrite first_where_update by reflexivity. rewrite Er.
    cbn [fmap option_fmap option_map].
    rewrite decide_True by reflexivity. congruence. }
  eexists _, _, _, _. split; [exact Hreset|]. split; [exact Hrun|].
  split; [reflexivity|]. run. split.
  - rewrite first_where_update by reflexivity. rewrite Es1.
    cbn [fmap option_fmap option_map reset cs_id].
    rewrite decide_True by reflexivity. reflexivity.
  - unfold db1. run. rewrite !length_update_where. reflexivity.
Qed.

Lemma selectClue_after_reset_witness :
  exists s0 db1 s db2,
    resetClueState Scenario.genId "c1" "u-op" Scenario.answered
      = (Ok s0, db1) /\
    selectClue Scenario.genId (mkSelectClueInput "c1" "tB" "u-bob") db1
      = (Ok s, db2) /\
    s = mkClueState "s1" "c1" "g1" PENDING (Some "tB") None.
Proof.
  destruct (selectClue_after_reset Scenario.genId Scenario.answered
              (mkSelectClueInput "c1" "tB" "u-bob") "u-op"
              (mkClueWithContext (mkClue "c1" "cat1" 200)
                 (mkCategory "cat1" "r1") (mkRound "r1" "g1" 1)
                 (mkGame "g1" "Quiz night" "u-host" 2 IN_PROGRESS))
              (mkUser "u-op" OPERATOR) Scenario.teamB
              (mkTeamMember "m2" "tB" "u-bob" true)
              (mkClueState "s1" "c1" "g1" PENDING (Some "tA") None))
    as (s0 & db1 & s & db2 & Hreset & Hrun & Hs & _);
    try reflexivity.
  - apply (bool_decide_unpack _). vm_compute. exact I.
  - exists s0, db1, s, db2. auto.
Defined.

End ClueMore.

Section ResponseMore.

Lemma submitResponse_run genId db input mem :
  first_where (fun m => member_teamId m = sr_teamId input /\
                        member_userId m = sr_submittedById input)
    (db_members db) = Some mem ->
  let r := mkTeamResponse (genId (resp_id <$> db_responses db))
             (sr_teamId input) (sr_clueId input) (sr_submittedById input)
             (sr_answer input) None None None None in
  submitResponse genId input db
  = (Ok r, set_rows prisma_teamResponse (db_responses db ++ [r]) db).
Proof.
  intros Em r. unfold submitResponse. run. rewrite Em. reflexivity.
Qed.

Lemma submitResponse_returns genId db input r db' :
  submitResponse genId input db = (Ok r, db') ->
  is_Some (first_where (fun m => member_teamId m = sr_teamId input /\
                                 member_userId m = sr_submittedById input)
             (db_members db)).
Proof.
  unfold submitResponse. run.
  destruct (first_where _ (db_members db)); [eauto|discriminate].
Qed.

Lemma submitResponse_throws genId db input e db' :
  submitResponse genId input db = (Err e, db') -> db' = db.
Proof.
  unfold submitResponse. run.
  destruct (first_where _ (db_members db)); [discriminate|].
  intros [= _ <-]. reflexivity.
Qed.

(** X22.  For a clue that exists, [submitResponse] returns exactly when
    the submitter is on the team; the state of the clue and the game are
    not looked at.  It adds the answer as it came, not validated;
    [listResponsesForClue] of the clue then reads the responses it read
    before and the new one, and reads for any other clue what it read
    before. *)
Theorem submitResponse_listed genId db input :
  (is_Some (first_where (fun c => clue_id c = sr_clueId input) (db_clues db)) ->
   ((exists r db', submitResponse genId input db = (Ok r, db')) <->
    is_Some (first_where (fun m => member_teamId m = sr_teamId input /\
                                   member_userId m = sr_submittedById input)
               (db_members db)))) /\
  (forall r db',
     submitResponse genId input db = (Ok r, db') ->
     r = mkTeamResponse (resp_id r) (sr_teamId input) (sr_clueId input)
           (sr_submittedById input) (sr_answer input) None None None None /\
     (exists before after,
        listResponsesForClue (sr_clueId input) db = (Ok before, db) /\
        listResponsesForClue (sr_clueId input) db' = (Ok after, db') /\
        after ≡ₚ r :: before) /\
     forall k, k <> sr_clueId input ->
       fst (listResponsesForClue k db') = fst (listResponsesForClue k db)).
Proof.
  split; [intros _; split|].
  - intros (r & db' & Hrun). exact (submitResponse_returns _ _ _ _ _ Hrun).
  - intros [mem Em]. eexists _, _.
    exact (submitResponse_run genId db input mem Em).
  - intros r db' Hrun.
    destruct (submitResponse_returns _ _ _ _ _ Hrun) as [mem Em].
    rewrite (submitResponse_run genId db input mem Em) in Hrun.
    cbv zeta in Hrun. injection Hrun as <- <-.
    split; [reflexivity|]. unfold listResponsesForClue. run. split.
    + eexists _, _. split; [reflexivity|]. split; [reflexivity|].
      unfold many_where. rewrite filter_app.
      rewrite filter_cons_True by reflexivity. rewrite filter_nil.
      symmetry. apply Permutation_cons_append.
    + intros k Hk. cbn [fst]. f_equal.
      unfold many_where. rewrite filter_app.
      rewrite filter_cons_False by (cbn; congruence).
      rewrite filter_nil. apply app_nil_r.
Qed.

Lemma submitResponse_listed_witness :
  exists r db',
    submitResponse Scenario.genId
      (mkSubmitResponseInput "c2" "tB" "u-bob" "What is Gallina?")
      Scenario.playing = (Ok r, db').
Proof.
  assert (is_Some (first_where (fun c => clue_id c = "c2")
                     (db_clues Scenario.playing))) as Hclue
    by (eexists; reflexivity).
  apply (proj2 (proj1 (submitResponse_listed Scenario.genId Scenario.playing
                         (mkSubmitResponseInput "c2" "tB" "u-bob"
                            "What is Gallina?")) Hclue)).
  eexists. reflexivity.
Defined.

(** X23.  An answer submitted and then validated, with no awarded value
    given, moves the score of the submitting team by the value of the
    clue, up for a correct answer and down for a wrong one.  The store is
    taken to hand the new response an id that is not in use; the operator
    has the role OPERATOR or HOST; the value awarded and the new score are
    numbers their columns hold. *)
Theorem submit_then_validate genId now db input opId (isCorrect : bool)
    mem op clue team :
  genId (resp_id <$> db_responses db) ∉ resp_id <$> db_responses db ->
  first_where (fun m => member_teamId m = sr_teamId input /\
                        member_userId m = sr_submittedById input)
    (db_members db) = Some mem ->
  first_where (fun u => user_id u = opId) (db_users db) = Some op ->
  user_role op = OPERATOR \/ user_role op = HOST ->
  first_where (fun c => clue_id c = sr_clueId input) (db_clues db)
    = Some clue ->
  first_where (fun t => team_id t = sr_teamId input) (db_teams db)
    = Some team ->
  let delta := if isCorrect then clue_value clue else - clue_value clue in
  int_column delta ->
  int_column (team_score team + delta) ->
  exists r db1 r' db2,
    submitResponse genId input db = (Ok r, db1) /\
    validateResponse now
      (mkValidateResponseInput (resp_id r) isCorrect None opId) db1
      = (Ok r', db2) /\
    resp_id r' = resp_id r /\
    resp_submittedAnswer r' = sr_answer input /\
    resp_isCorrect r' = Some isCorrect /\
    resp_awardedValue r' = Some delta /\
    exists team',
      first_where (fun t => team_id t = sr_teamId input) (db_teams db2)
        = Some team' /\
      team_score team' = team_score team + delta.
Proof.
  intros Hfresh Em Eo Hrole Ec Et delta _ _.
  pose proof (submitResponse_run genId db input mem Em) as Hsub.
  cbv zeta in Hsub.
  set (r := mkTeamResponse _ _ _ _ _ _ _ _ _) in Hsub.
  set (db1 := set_rows prisma_teamResponse _ db) in Hsub.
  set (vinput := mkValidateResponseInput (resp_id r) isCorrect None opId).
  assert (first_where (fun x => resp_id x = vr_responseId vinput)
            (db_responses db1) = Some r) as Er.
  { unfold db1. run. rewrite first_where_app.
    assert (first_where (fun x => resp_id x = vr_responseId vinput)
              (db_responses db) = None) as ->.
    { apply first_where_None, Forall_forall. intros x Hx E.
      apply Hfresh. cbn in E. rewrite <- E.
      apply list_elem_of_fmap. eauto. }
    rewrite first_where_cons. rewrite decide_True by reflexivity.
    reflexivity. }
  pose proof (validateResponse_run now vinput db1 op r clue Eo Hrole Er Ec)
    as Hval. cbv zeta in Hval.
  assert (scoreDelta (vr_awardedValue vinput) (vr_isCorrect vinput) clue
          = delta) as Hd by reflexivity.
  rewrite Hd in Hval.
  exists r, db1. eexists _, _. split; [exact Hsub|]. split.
  { apply Hval. intros _. unfold db1. run. cbn [resp_teamId r].
    rewrite Et. eauto. }
  cbn [validated resp_id resp_submittedAnswer resp_isCorrect
       resp_awardedValue r vr_isCorrect vinput].
  split; [reflexivity|]. split; [reflexivity|]. split; [reflexivity|].
  split; [reflexivity|].
  unfold after_validate, teams_after. run. cbn [resp_teamId r].
  destruct (decide (delta <> 0)) as [Hne|Hz].
  - eexists. split.
    + apply first_where_update_same; [reflexivity|exact Et].
    + reflexivity.
  - exists team. split; [exact Et|]. lia.
Qed.

Lemma submit_then_validate_witness :
  exists r db1 r' db2 team',
    submitResponse Scenario.genId
      (mkSubmitResponseInput "c2" "tB" "u-bob" "What is Gallina?")
      Scenario.answered = (Ok r, db1) /\
    validateResponse 7
      (mkValidateResponseInput (resp_id r) false None "u-op") db1
      = (Ok r', db2) /\
    first_where (fun t => team_id t = "tB") (db_teams db2) = Some team' /\
    team_score team' = -400.
Proof.
  destruct (submit_then_validate Scenario.genId 7 Scenario.answered
              (mkSubmitResponseInput "c2" "tB" "u-bob" "What is Gallina?")
              "u-op" false (mkTeamMember "m2" "tB" "u-bob" true)
              (mkUser "u-op" OPERATOR) (mkClue "c2" "cat1" 400)
              Scenario.teamB)
    as (r & db1 & r' & db2 & Hsub & Hval & _ & _ & _ & _ & team' & Et & Hs);
    try reflexivity.
  - apply scenario_genId_fresh.
  - left. reflexivity.
  - unfold int_column. cbn. lia.
  - unfold int_column. cbn. lia.
  - exists r, db1, r', db2, team'. auto.
Defined.

End ResponseMore.

(** ** Calls that throw *)

Section Throws.

Lemma createGame_throws genId db input e db' :
  createGame genId input db = (Err e, db') -> db' = db.
Proof.
  unfold createGame. destruct (Js.falsy _); run.
  - intros [= _ <-]. reflexivity.
  - unfold create. discriminate.
Qed.

Lemma deleteGame_throws db gameId actorId e db' :
  deleteGame gameId actorId db = (Err e, db') -> db' = db.
Proof.
  unfold deleteGame, ensureHostAccess. run.
  destruct (first_where _ (db_games db)) as [game|] eqn:Eg;
    [|intros [= _ <-]; reflexivity].
  destruct (decide _); run; [intros [= _ <-]; reflexivity|].
  unfold delete. run. rewrite Eg. discriminate.
Qed.

Lemma updateClueState_throws db input e db' :
  updateClueState input db = (Err e, db') -> db' = db.
Proof.
  unfold updateClueState. run.
  pose proof (loadClue_pure (uc_clueId input) db) as Hp.
  destruct (loadClue (uc_clueId input) db) as [[ctx|e0] db1] eqn:El;
    cbn [snd] in Hp; subst db1; [|intros [= _ <-]; reflexivity].
  destruct (first_where _ (db_users db)); [|intros [= _ <-]; reflexivity].
  destruct (first_where _ (db_clueStates db)) as [old|] eqn:Es;
    [|intros [= _ <-]; reflexivity].
  destruct (first_where_Some _ _ _ Es) as [_ Hin].
  destruct (first_where_is_Some (fun r => cs_id r = cs_id old)
              (db_clueStates db) old Hin eq_refl) as [r Er].
  rewrite (update_ok prisma_clueState (cs_id old) _ db r Er). discriminate.
Qed.

Lemma resetClueState_throws genId db clueId actorId e db' :
  resetClueState genId clueId actorId db = (Err e, db') -> db' = db.
Proof.
  unfold resetClueState. run.
  pose proof (loadClue_pure clueId db) as Hp.
  destruct (loadClue clueId db) as [[ctx|e0] db1] eqn:El;
    cbn [snd] in Hp; subst db1; [|intros [= _ <-]; reflexivity].
  destruct (first_where _ (db_users db)); [|intros [= _ <-]; reflexivity].
  destruct (first_where _ (db_clueStates db)) as [old|] eqn:Es.
  - destruct (first_where_Some _ _ _ Es) as [_ Hin].
    destruct (first_where_is_Some (fun r => cs_id r = cs_id old)
                (db_clueStates db) old Hin eq_refl) as [r Er].
    rewrite (update_ok prisma_clueState (cs_id old) _ db r Er). discriminate.
  - unfold create. discriminate.
Qed.

Lemma updateRoundOrder_throws db roundId newOrder actorId e db' :
  updateRoundOrder roundId newOrder actorId db = (Err e, db') -> db' = db.
Proof.
  unfold updateRoundOrder, ensureHost. run.
  destruct (first_where _ (db_rounds db)) as [round|] eqn:Er; run;
    [|intros [= _ <-]; reflexivity].
  destruct (first_where _ (db_games db)) as [game|]; run;
    [|intros [= _ <-]; reflexivity].
  destruct (decide (game_hostId game <> actorId)); run;
    [intros [= _ <-]; reflexivity|].
  destruct (decide (game_status game <> LOBBY)); run;
    [intros [= _ <-]; reflexivity|].
  unfold update. run. rewrite Er. discriminate.
Qed.

(** X24.  A call that throws has written nothing, for every call of the
    game, team, clue, response and round services that writes at most one
    table after its checks: the database it leaves is the one it was
    given.  ([leaveTeam], which deletes before its last check, and the two
    re-ordering calls are not among them.) *)
Theorem thrown_call_writes_nothing genId db e db' :
  (forall input, createGame genId input db = (Err e, db') -> db' = db) /\
  (forall gameId data actorId,
     updateGameSettings gameId data actorId db = (Err e, db') -> db' = db) /\
  (forall gameId actorId,
     startGame gameId actorId db = (Err e, db') -> db' = db) /\
  (forall gameId actorId,
     finishGame gameId actorId db = (Err e, db') -> db' = db) /\
  (forall gameId actorId,
     deleteGame gameId actorId db = (Err e, db') -> db' = db) /\
  (forall input, createTeam genId input db = (Err e, db') -> db' = db) /\
  (forall input, joinTeam genId input db = (Err e, db') -> db' = db) /\
  (forall input, adjustScore input db = (Err e, db') -> db' = db) /\
  (forall input, selectClue genId input db = (Err e, db') -> db' = db) /\
  (forall input, updateClueState input db = (Err e, db') -> db' = db) /\
  (forall clueId actorId,
     resetClueState genId clueId actorId db = (Err e, db') -> db' = db) /\
  (forall input, submitResponse genId input db = (Err e, db') -> db' = db) /\
  (forall roundId newOrder actorId,
     updateRoundOrder roundId newOrder actorId db = (Err e, db') -> db' = db).
Proof.
  repeat split; intros.
  - eapply createGame_throws; eassumption.
  - eapply updateGameSettings_throws; eassumption.
  - eapply startGame_throws; eassumption.
  - eapply finishGame_throws; eassumption.
  - eapply deleteGame_throws; eassumption.
  - eapply createTeam_throws; eassumption.
  - eapply joinTeam_throws; eassumption.
  - eapply adjustScore_throws; eassumption.
  - eapply selectClue_throws; eassumption.
  - eapply updateClueState_throws; eassumption.
  - eapply resetClueState_throws; eassumption.
  - eapply submitResponse_throws; eassumption.
  - eapply updateRoundOrder_throws; eassumption.
Qed.

Lemma thrown_call_writes_nothing_witness :
  snd (startGame "g1" "u-alice" Scenario.lobby) = Scenario.lobby.
Proof.
  destruct (startGame "g1" "u-alice" Scenario.lobby) as [[g|e] db'] eqn:Hrun;
    [vm_compute in Hrun; discriminate|].
  exact (proj1 (proj2 (proj2 (thrown_call_writes_nothing Scenario.genId
                  Scenario.lobby e db'))) "g1" "u-alice" Hrun).
Defined.

End Throws.

(** ** Games and teams through any calls *)

Section LobbyTraces.

#[local] Instance lineup_le_total : Total order_le.
Proof. intros a b. unfold order_le. lia. Qed.

#[local] Instance lineup_le_trans : Transitive order_le.
Proof. intros a b c. unfold order_le. lia. Qed.

(** The teams read in order are numbered 1, ..., N exactly when their
    orders are the numbers 1, ..., N in some order. *)
Lemma contiguous_perm (G : list Team) :
  team_order <$> by_order G = seqZ 1 (Z.of_nat (length (by_order G))) <->
  team_order <$> G ≡ₚ seqZ 1 (Z.of_nat (length G)).
Proof.
  assert (by_order G ≡ₚ G) as Hperm by apply merge_sort_Permutation.
  assert (length (by_order G) = length G) as Hlen
    by (apply Permutation_length, Hperm).
  rewrite Hlen. split.
  - intros <-. apply fmap_Permutation. symmetry. exact Hperm.
  - intros H. apply (Sorted_unique Z.le).
    + eapply Sorted_fmap; [|apply (Sorted_merge_sort order_le)].
      intros x y Hxy. exact Hxy.
    + apply Sorted_seqZ.
    + rewrite Hperm. exact H.
Qed.

Lemma filter_filter_all {A} (P Q : A -> Prop) `{!forall x, Decision (P x)}
    `{!forall x, Decision (Q x)} (l : list A) :
  Forall (fun x => P x -> Q x) l -> filter P (filter Q l) = filter P l.
Proof.
  induction 1 as [|x l Hx Hl IH]; [reflexivity|].
  rewrite (filter_cons Q). destruct (decide (Q x)) as [Hq|Hq].
  - rewrite !(filter_cons P). destruct (decide (P x)); rewrite IH; reflexivity.
  - rewrite (filter_cons P), IH. destruct (decide (P x)); [tauto|reflexivity].
Qed.

Lemma removeTeam_throws db teamId actorId e db' :
  NoDup (team_id <$> db_teams db) ->
  removeTeam teamId actorId db = (Err e, db') -> db' = db.
Proof.
  intros Hnd Hrun.
  destruct (first_where (fun t => team_id t = teamId) (db_teams db))
    as [team|] eqn:Et.
  2:{ revert Hrun. unfold removeTeam. run. rewrite Et.
      intros [= _ <-]. reflexivity. }
  destruct (first_where (fun g => game_id g = team_gameId team)
              (db_games db)) as [game|] eqn:Eg.
  2:{ revert Hrun. unfold removeTeam. run. rewrite Et. run. rewrite Eg.
      intros [= _ <-]. reflexivity. }
  destruct (decide (game_status game = LOBBY)) as [Hs|Hs].
  2:{ revert Hrun. unfold removeTeam, ensureLobbyGame. run. rewrite Et. run.
      rewrite Eg. run. rewrite decide_True by exact Hs.
      intros [= _ <-]. reflexivity. }
  destruct (decide (game_hostId game = actorId)) as [Hh|Hh].
  2:{ revert Hrun. unfold removeTeam, ensureLobbyGame. run. rewrite Et. run.
      rewrite Eg. run. rewrite decide_False by (intros H; apply H, Hs). run.
      rewrite decide_True by exact Hh. intros [= _ <-]. reflexivity. }
  rewrite (removeTeam_run db teamId actorId team game Hnd Et Eg Hs Hh)
    in Hrun. discriminate.
Qed.

Lemma startGame_has_teams db gameId actorId g' db' :
  startGame gameId actorId db = (Ok g', db') ->
  many_where (fun t => team_gameId t = gameId) (db_teams db) <> [].
Proof.
  unfold startGame, ensureHostAccess. run.
  destruct (first_where _ (db_games db)) as [game|] eqn:Eg; [|discriminate].
  destruct (decide (game_hostId game <> actorId)); [discriminate|].
  destruct (decide (game_status game <> LOBBY)); [discriminate|].
  destruct (decide (length _ = 0%nat)) as [|Hn]; [discriminate|].
  intros _ E. apply Hn. rewrite E. reflexivity.
Qed.

(** What one call makes of the game table and of the team table: it
    writes at most one of the two. *)
Lemma perform_lobby_shape genId c db :
  NoDup (team_id <$> db_teams db) ->
  let db' := perform_lobby genId c db in
  (db_games db' = db_games db /\
   (db_teams db' = db_teams db \/
    (exists input,
       db_teams db' = (db_teams db ++ [new_team genId input db])%list) \/
    (exists teamId team game,
       first_where (fun t => team_id t = teamId) (db_teams db) = Some team /\
       first_where (fun g => game_id g = team_gameId team) (db_games db)
         = Some game /\
       game_status game = LOBBY /\
       db_teams db'
       = renumbered 0
           (by_order
              (many_where (fun t => team_gameId t = team_gameId team)
                 (delete_where (fun t => team_id t = teamId) (db_teams db))))
         <$> delete_where (fun t => team_id t = teamId) (db_teams db)) \/
    (exists teamId delta,
       db_teams db'
       = update_where (fun t => team_id t = teamId) (increment_score delta)
           (db_teams db)))) \/
  (db_teams db' = db_teams db /\
   ((exists g,
       game_status g = LOBBY /\ db_games db' = (db_games db ++ [g])%list) \/
    (exists gameId f,
       (forall g, game_id (f g) = game_id g /\
                  game_status (f g) = game_status g) /\
       db_games db' = update_where (fun g => game_id g = gameId) f
                        (db_games db)) \/
    (exists gameId s,
       (many_where (fun t => team_gameId t = gameId) (db_teams db) <> [] \/
        exists game,
          first_where (fun g => game_id g = gameId) (db_games db)
            = Some game /\
          game_status game <> LOBBY) /\
       db_games db' = update_where (fun g => game_id g = gameId)
                        (set_status s) (db_games db)) \/
    (exists gameId,
       db_games db' = delete_where (fun g => game_id g = gameId)
                        (db_games db)))).
Proof.
  intros Hnd db'. unfold db'. clear db'.
  assert (forall x, x = db ->
            db_games x = db_games db /\ db_teams x = db_teams db) as Hsame
    by (intros x ->; auto).
  destruct c as [[input|gid data actorId|gid actorId|gid actorId]
                |[input|input|teamId userId]
                |teamId actorId|input|gid actorId];
    cbn [perform_lobby perform_game perform_team].
  - unfold createGame. destruct (Js.falsy _); [left; split; auto|].
    right. unfold create. run. cbn [snd]. run. split; [reflexivity|].
    left. eexists. split; [|reflexivity]. reflexivity.
  - destruct (updateGameSettings gid data actorId db) as [[g'|e] db'] eqn:Hrun.
    2:{ apply updateGameSettings_throws in Hrun. subst db'. left; auto. }
    destruct (updateGameSettings_returns _ _ _ _ _ _ Hrun)
      as (game & Eg & <- & Hl & Hlim).
    rewrite (updateGameSettings_run db gid data game Eg Hl Hlim) in Hrun.
    injection Hrun as _ <-. cbn [snd]. run. right. split; [reflexivity|].
    right. left. eexists gid, _. split; [|reflexivity].
    intros g. split; reflexivity.
  - destruct (startGame gid actorId db) as [[g'|e] db'] eqn:Hrun.
    2:{ apply startGame_throws in Hrun. subst db'. left; auto. }
    pose proof (startGame_has_teams _ _ _ _ _ Hrun) as Hteams.
    destruct (startGame_returns _ _ _ _ _ Hrun) as (game & _ & _ & _ & _ & ->).
    cbn [snd]. run. right. split; [reflexivity|].
    right. right. left. exists gid, IN_PROGRESS. split; [left; exact Hteams|].
    reflexivity.
  - destruct (finishGame gid actorId db) as [[g'|e] db'] eqn:Hrun.
    2:{ apply finishGame_throws in Hrun. subst db'. left; auto. }
    destruct (finishGame_returns _ _ _ _ _ Hrun)
      as (game & Eg & _ & Hs & _ & ->).
    cbn [snd]. run. right. split; [reflexivity|].
    right. right. left. exists gid, FINISHED. split; [|reflexivity].
    right. exists game. split; [exact Eg|]. rewrite Hs. discriminate.
  - destruct (createTeam genId input db) as [[t|e] db'] eqn:Hrun.
    2:{ apply createTeam_throws in Hrun. subst db'. left; auto. }
    destruct (createTeam_returns _ _ _ _ _ Hrun)
      as (game & actor & Hname & Eg & Ea & Hs & Hn).
    rewrite (createTeam_run genId db input game actor Hname Eg Ea Hs Hn)
      in Hrun.
    injection Hrun as _ <-. cbn [snd]. unfold with_new_team. left.
    destruct (default true (ct_makeCaptain input)); run;
      (split; [reflexivity|]); right; left; exists input; reflexivity.
  - destruct (joinTeam genId input db) as [[t|e] db'] eqn:Hrun.
    2:{ apply joinTeam_throws in Hrun. subst db'. left; auto. }
    destruct (joinTeam_returns _ _ _ _ _ Hrun) as [Em Et].
    rewrite (joinTeam_run genId db input t Em Et) in Hrun.
    injection Hrun as <-. cbn [snd]. run. left; auto.
  - destruct (leaveTeam_after db teamId userId) as [->|[m ->]];
      run; left; auto.
  - destruct (removeTeam teamId actorId db) as [[[]|e] db'] eqn:Hrun.
    2:{ apply removeTeam_throws in Hrun; [|exact Hnd]. subst db'.
        left; auto. }
    destruct (removeTeam_returns _ _ _ _ Hrun)
      as (team & game & Et & Eg & Hs & Hh).
    rewrite (removeTeam_run db teamId actorId team game Hnd Et Eg Hs Hh)
      in Hrun. cbv zeta in Hrun. injection Hrun as <-. cbn [snd]. run.
    left. split; [reflexivity|]. right. right. left.
    exists teamId, team, game. auto.
  - destruct (adjustScore input db) as [[t|e] db'] eqn:Hrun.
    2:{ apply adjustScore_throws in Hrun. subst db'. left; auto. }
    destruct (adjustScore_returns _ _ _ _ Hrun)
      as (team & game & actor & Et & Eg & Ea & Hauth).
    rewrite (adjustScore_run db input team game actor Et Eg Ea Hauth) in Hrun.
    injection Hrun as _ <-. cbn [snd]. run.
    left. split; [reflexivity|]. right. right. right. eauto.
  - unfold deleteGame, ensureHostAccess. run.
    destruct (first_where _ (db_games db)) as [game|] eqn:Eg;
      [|left; auto].
    destruct (decide _); run; [left; auto|].
    unfold delete. run. rewrite Eg. run. cbn [snd]. run.
    right. split; [reflexivity|]. right. right. right. eauto.
Qed.

Section Step.
Variable genId : list string -> string.
Hypothesis genId_fresh : forall used, genId used ∉ used.

Lemma perform_lobby_keyed c db :
  NoDup (team_id <$> db_teams db) ->
  NoDup (team_id <$> db_teams (perform_lobby genId c db)).
Proof.
  intros Hnd.
  destruct (perform_lobby_shape genId c db Hnd)
    as [[_ [->|[[input ->]|[(teamId & team & game & _ & _ & _ & ->)
                            |(teamId & delta & ->)]]]]|[-> _]];
    try exact Hnd.
  - rewrite fmap_app. apply NoDup_app. split; [exact Hnd|].
    split; [|apply NoDup_singleton].
    intros k Hk Hin. apply list_elem_of_singleton in Hin. subst k.
    exact (genId_fresh _ Hk).
  - rewrite <- list_fmap_compose.
    rewrite (list_fmap_ext _ team_id _)
      by (intros i x _; apply renumbered_id).
    apply NoDup_ids_filter, Hnd.
  - unfold update_where. rewrite <- list_fmap_compose.
    rewrite (list_fmap_ext _ team_id _)
      by (intros i x _; cbn; destruct (decide _); reflexivity).
    exact Hnd.
Qed.

Lemma perform_lobby_orders c db :
  NoDup (team_id <$> db_teams db) ->
  (forall g,
     team_order <$> many_where (fun t => team_gameId t = g) (db_teams db)
     ≡ₚ seqZ 1 (Z.of_nat (length (many_where (fun t => team_gameId t = g)
                                     (db_teams db))))) ->
  forall g,
    team_order <$> many_where (fun t => team_gameId t = g)
                     (db_teams (perform_lobby genId c db))
    ≡ₚ seqZ 1 (Z.of_nat (length (many_where (fun t => team_gameId t = g)
                                    (db_teams (perform_lobby genId c db))))).
Proof.
  intros Hnd IH g.
  destruct (perform_lobby_shape genId c db Hnd)
    as [[_ [->|[[input ->]|[(teamId & team & game & Et & Eg & Hs & ->)
                            |(teamId & delta & ->)]]]]|[-> _]];
    try apply IH.
  - unfold many_where. rewrite filter_app.
    destruct (decide (team_gameId (new_team genId input db) = g)) as [E|E].
    + rewrite filter_cons_True by exact E. rewrite filter_nil.
      rewrite fmap_app, length_app. cbn [length fmap list_fmap].
      replace (length (filter (fun t => team_gameId t = g) (db_teams db)) + 1)%nat
        with (S (length (filter (fun t => team_gameId t = g) (db_teams db))))
        by lia.
      rewrite seqZ_S. apply Permutation_app; [apply IH|].
      cbn in E. subst g. unfold new_team, many_where. cbn [team_order].
      replace (Z.of_nat (length (filter (fun t => team_gameId t = ct_gameId input)
                                   (db_teams db))) + 1)
        with (1 + Z.of_nat (length (filter
                (fun t => team_gameId t = ct_gameId input) (db_teams db))))
        by lia.
      reflexivity.
    + rewrite filter_cons_False by exact E.
      rewrite filter_nil, app_nil_r. apply IH.
  - set (rest := delete_where (fun t => team_id t = teamId) (db_teams db)).
    set (gt := team_gameId team).
    set (ts := by_order (many_where (fun t => team_gameId t = gt) rest)).
    assert (NoDup (team_id <$> rest)) as Hnd1 by apply NoDup_ids_filter, Hnd.
    assert (ts ≡ₚ many_where (fun t => team_gameId t = gt) rest) as Hperm
      by apply merge_sort_Permutation.
    assert (NoDup (team_id <$> ts)) as Hnd2
      by (rewrite Hperm; apply NoDup_ids_filter, Hnd1).
    rewrite many_where_fmap
      by (intros r; rewrite renumbered_gameId; reflexivity).
    rewrite length_fmap.
    destruct (decide (g = gt)) as [->|Hg].
    + set (f := renumbered 0 ts) in *.
      rewrite <- Hperm.
      assert (team_order <$> (f <$> ts) = seqZ 1 (Z.of_nat (length ts))) as ->
        by apply (renumbered_self 0 ts Hnd2).
      reflexivity.
    + assert (many_where (fun t => team_gameId t = g) rest
              = many_where (fun t => team_gameId t = g) (db_teams db)) as Hsame.
      { unfold rest, many_where, delete_where. apply filter_filter_all.
        apply Forall_forall. intros x Hx Hxg Hid.
        destruct (first_where_Some _ _ _ Et) as [Hteam Hin]. cbn in Hteam.
        assert (x = team) as ->
          by (apply (NoDup_key_eq team_id (db_teams db) x team Hnd Hx Hin);
              congruence).
        apply Hg. symmetry. exact Hxg. }
      assert (renumbered 0 ts <$> many_where (fun t => team_gameId t = g) rest
              = many_where (fun t => team_gameId t = g) rest) as ->.
      { rewrite <- (list_fmap_id (many_where _ rest)) at 2.
        apply list_fmap_ext. intros i x Hi. cbn.
        apply list_elem_of_lookup_2 in Hi.
        apply list_elem_of_filter in Hi as [Hxg Hx].
        unfold renumbered. rewrite rank_in_None; [reflexivity|].
        intros Hin. apply list_elem_of_fmap in Hin as (y & Hid & Hy).
        rewrite Hperm in Hy. apply list_elem_of_filter in Hy as [Hyg Hy].
        assert (y = x) as ->
          by exact (NoDup_key_eq team_id rest y x Hnd1 Hy Hx (eq_sym Hid)).
        apply Hg. rewrite <- Hxg. exact Hyg. }
      rewrite Hsame. apply IH.
  - unfold update_where.
    rewrite many_where_fmap
      by (intros r; destruct (decide _); reflexivity).
    rewrite length_fmap, <- list_fmap_compose.
    rewrite (list_fmap_ext _ team_order _)
      by (intros i x _; cbn; destruct (decide _); reflexivity).
    apply IH.
Qed.

Lemma perform_lobby_started c db :
  NoDup (team_id <$> db_teams db) ->
  (forall gameId game,
     first_where (fun g => game_id g = gameId) (db_games db) = Some game ->
     game_status game <> LOBBY ->
     many_where (fun t => team_gameId t = gameId) (db_teams db) <> []) ->
  forall gameId game,
    first_where (fun g => game_id g = gameId)
      (db_games (perform_lobby genId c db)) = Some game ->
    game_status game <> LOBBY ->
    many_where (fun t => team_gameId t = gameId)
      (db_teams (perform_lobby genId c db)) <> [].
Proof.
  intros Hnd IH gameId game'.
  destruct (perform_lobby_shape genId c db Hnd)
    as [[-> [->|[[input ->]|[(teamId & team & game & Et & Eg & Hs & ->)
                             |(teamId & delta & ->)]]]]
       |[-> [(g & Hg & ->)|[(gid & f & Hf & ->)
             |[(gid & s & Hwhy & ->)|(gid & ->)]]]]].
  - apply IH.
  - intros E Hst. specialize (IH _ _ E Hst).
    unfold many_where in *. rewrite filter_app.
    intros Hnil. apply app_eq_nil in Hnil as [Hnil _]. exact (IH Hnil).
  - intros E Hst. specialize (IH _ _ E Hst).
    destruct (many_where (fun t => team_gameId t = gameId) (db_teams db))
      as [|x l] eqn:Ex; [congruence|].
    assert (x ∈ many_where (fun t => team_gameId t = gameId) (db_teams db))
      as Hx by (rewrite Ex; left).
    apply list_elem_of_filter in Hx as [Hxg Hx].
    assert (team_id x <> teamId) as Hne.
    { intros Hid. destruct (first_where_Some _ _ _ Et) as [Hteam Hin].
      cbn in Hteam.
      assert (x = team) as ->
        by (apply (NoDup_key_eq team_id (db_teams db) x team Hnd Hx Hin);
            congruence).
      rewrite Hxg in Eg. rewrite Eg in E. injection E as <-.
      exact (Hst Hs). }
    set (f := renumbered 0 _).
    assert (f x ∈ many_where (fun t => team_gameId t = gameId)
                    (f <$> delete_where (fun t => team_id t = teamId)
                             (db_teams db))) as Hfx.
    { apply list_elem_of_filter. split.
      - unfold f. rewrite renumbered_gameId. exact Hxg.
      - apply list_elem_of_fmap. exists x. split; [reflexivity|].
        apply list_elem_of_filter. split; assumption. }
    intros Hnil. rewrite Hnil in Hfx. apply elem_of_nil in Hfx. exact Hfx.
  - intros E Hst. specialize (IH _ _ E Hst).
    unfold update_where.
    rewrite many_where_fmap
      by (intros r; destruct (decide _); reflexivity).
    intros Hnil. apply fmap_nil_inv in Hnil. exact (IH Hnil).
  - rewrite first_where_app.
    destruct (first_where _ (db_games db)) as [game0|] eqn:E0.
    + intros [= <-]. apply (IH _ _ E0).
    + rewrite first_where_cons. destruct (decide _); [|discriminate].
      intros [= <-] Hst. contradiction.
  - rewrite first_where_update by (intros r; rewrite (proj1 (Hf r)); tauto).
    destruct (first_where _ (db_games db)) as [game0|] eqn:E0; [|discriminate].
    cbn. intros [= <-] Hst. apply (IH _ _ E0).
    destruct (decide _); [rewrite <- (proj2 (Hf game0))|]; exact Hst.
  - rewrite first_where_update by reflexivity.
    destruct (first_where (fun g => game_id g = gameId) (db_games db))
      as [game0|] eqn:E0; [|discriminate].
    cbn. intros [= <-] Hst.
    destruct (first_where_Some _ _ _ E0) as [Hid0 _]. cbn in Hid0.
    destruct (decide (game_id game0 = gid)) as [Hid|Hid].
    + assert (gid = gameId) as -> by congruence.
      destruct Hwhy as [Hteams|(game1 & E1 & Hst1)]; [exact Hteams|].
      apply (IH _ _ E1 Hst1).
    + apply (IH _ _ E0 Hst).
  - intros E Hst. destruct (decide (gameId = gid)) as [->|Hne].
    + rewrite first_where_delete_same in E. discriminate.
    + rewrite (first_where_delete_other game_id) in E by exact Hne.
      apply (IH _ _ E Hst).
Qed.

End Step.

(** X25.  The store hands out unused ids and keys the team table by id.
    Through any calls of the game service, of [createTeam], [joinTeam],
    [leaveTeam], [removeTeam] and [adjustScore], if the teams of every game
    were numbered 1, 2, ..., N they still are: [listTeams] reads for every
    game the orders 1, 2, ..., N. *)
Theorem team_orders_stay_contiguous genId (calls : list lobbyCall) :
  (forall used, genId used ∉ used) ->
  forall db,
    NoDup (team_id <$> db_teams db) ->
    orders_contiguous db ->
    let db' := foldl (fun db c => perform_lobby genId c db) db calls in
    forall gameId,
      exists teams,
        listTeams gameId db' = (Ok teams, db') /\
        team_order <$> teams = seqZ 1 (Z.of_nat (length teams)).
Proof.
  intros Hfresh db Hnd Hok.
  assert (forall g,
            team_order <$> many_where (fun t => team_gameId t = g) (db_teams db)
            ≡ₚ seqZ 1 (Z.of_nat (length (many_where
                                  (fun t => team_gameId t = g) (db_teams db)))))
    as Hperm by (intros g; apply contiguous_perm, Hok).
  clear Hok. cbv zeta. revert db Hnd Hperm.
  induction calls as [|c calls IH]; intros db Hnd Hperm gameId.
  - eexists. split; [reflexivity|]. apply contiguous_perm, Hperm.
  - cbn [foldl]. apply IH.
    + apply perform_lobby_keyed; assumption.
    + apply perform_lobby_orders; assumption.
Qed.

Lemma team_orders_stay_contiguous_witness :
  let db' :=
    foldl (fun db c => perform_lobby Scenario.genId c db) Scenario.lobby3
      [ RemoveTeam "tA" "u-host";
        OfGame (UpdateGameSettings "g1"
                  (mkUpdateGameSettingsInput None (Some 5)) "u-host");
        OfTeam (CreateTeam (mkCreateTeamInput "g1" "Team D" "u-bob" None));
        ScoreTeam (mkAdjustScoreInput "tB" 100 "u-op");
        RemoveTeam "tC" "u-host" ] in
  exists teams,
    listTeams "g1" db' = (Ok teams, db') /\
    team_order <$> teams = seqZ 1 (Z.of_nat (length teams)).
Proof.
  apply (team_orders_stay_contiguous Scenario.genId).
  - exact scenario_genId_fresh.
  - apply (bool_decide_unpack _). vm_compute. exact I.
  - intros gameId. apply contiguous_perm.
    unfold many_where. cbn [Scenario.lobby3 Scenario.board db_teams].
    rewrite !filter_cons, filter_nil.
    cbn [Scenario.teamA Scenario.teamB Scenario.teamC team_gameId].
    destruct (decide ("g1" = gameId)); vm_compute.
    + apply (Permutation_cons_append [1; 2] 3).
    + constructor.
Defined.

(** X26.  The store hands out unused ids and keys the team table by id.
    Through any calls of the game service, [deleteGame] among them, of
    [createTeam], [joinTeam], [leaveTeam], [removeTeam] and [adjustScore],
    a game that is IN_PROGRESS or FINISHED has at least one team, if that
    held at the start. *)
Theorem started_game_has_team genId (calls : list lobbyCall) :
  (forall used, genId used ∉ used) ->
  forall db,
    NoDup (team_id <$> db_teams db) ->
    started_have_teams db ->
    started_have_teams (foldl (fun db c => perform_lobby genId c db) db calls).
Proof.
  intros Hfresh db Hnd Hok.
  assert (forall db,
            started_have_teams db <->
            forall gameId game,
              first_where (fun g => game_id g = gameId) (db_games db)
                = Some game ->
              game_status game <> LOBBY ->
              many_where (fun t => team_gameId t = gameId) (db_teams db) <> [])
    as Hiff.
  { intros d. unfold started_have_teams, lineup, by_order.
    split; intros H gameId game E Hst Hnil; apply (H gameId game E Hst).
    - rewrite Hnil. reflexivity.
    - apply Permutation_nil. rewrite <- Hnil.
      apply merge_sort_Permutation. }
  pose proof (proj1 (Hiff db) Hok) as Hok'. apply (proj2 (Hiff _)).
  clear Hiff Hok. revert db Hnd Hok'.
  induction calls as [|c calls IH]; intros db Hnd Hok; [exact Hok|].
  cbn [foldl]. apply IH.
  - apply perform_lobby_keyed; assumption.
  - apply perform_lobby_started; assumption.
Qed.

Lemma started_game_has_team_witness :
  started_have_teams
    (foldl (fun db c => perform_lobby Scenario.genId c db) Scenario.lobby
       [ RemoveTeam "tA" "u-host";
         OfGame (StartGame "g1" "u-host");
         RemoveTeam "tB" "u-host";
         OfGame (FinishGame "g1" "u-host") ]).
Proof.
  apply (started_game_has_team Scenario.genId).
  - exact scenario_genId_fresh.
  - apply (bool_decide_unpack _). vm_compute. exact I.
  - intros gameId game E Hst. exfalso.
    apply first_where_Some in E as [_ Hin].
    apply list_elem_of_singleton in Hin. subst game. apply Hst. reflexivity.
Defined.

End LobbyTraces.
